(** * ibrat-backend: the call scheduling and state-reconciliation core

    A shallow embedding of the Mongoose models [Lead] and [CallLog]
    (src/models), of the [CallQueue] dispatcher (services/callQueue.js),
    of the Twilio status reconciler (services/twilioService.js) and of the
    operator lead-claim route (src/routes/operator.js), followed by the
    properties of the specification that concern them; then the call
    routes (src/routes/calls.js), the operator's call update, the
    administrator's control of the queue and the phone checks, with
    further properties of the code.

    Conventions of the embedding.
    - A JavaScript string is a [string]; a [Date] is its number of
      milliseconds since the epoch, in [Z]; a Number is a [Z]; a field that
      may be [undefined] is an [option].
    - An ObjectId is the string that [toString()] returns for it; a
      string that a request passes where an ObjectId is expected comes
      with the verdict of the cast (a [RequestId]).
    - A MongoDB collection is a [gmap] from [_id] to document.
    - An [async] function is a function from the state it runs in to an
      outcome (resolved or rejected) and the state it leaves. The runs of
      the process interleave the ticks of the dispatcher at the awaits
      that precede [activeCalls.set]; every other invocation runs to
      completion before the next one starts.
    - [Date.now()] and [new Date()] inside one invocation all read the same
      clock value [now], which the caller passes in. *)

From stdpp Require Import gmap strings list fin_maps.
From Stdlib Require Import ZArith Ascii String.

Local Open Scope string_scope.
Local Open Scope Z_scope.

Abbreviation ObjectId := string (only parsing).
Abbreviation Date := Z (only parsing).

(** ** Promises: a state and exception monad *)

Inductive Outcome (A : Type) : Type :=
| Resolved (a : A)
| Rejected (e : string).
Arguments Resolved {A} a.
Arguments Rejected {A} e.

Definition Async (S A : Type) : Type := S → Outcome A * S.

#[global] Instance Async_ret {S} : MRet (Async S) :=
  fun A a s => (Resolved a, s).

(** [await m; k]: a rejection of [m] skips the continuation. *)
#[global] Instance Async_bind {S} : MBind (Async S) :=
  fun A B k m s => match m s with
                   | (Resolved a, s') => k a s'
                   | (Rejected e, s') => (Rejected e, s')
                   end.

Definition throw {S A} (e : string) : Async S A := fun s => (Rejected e, s).

(** [try { m } catch (e) { h e }] *)
Definition tryCatch {S A} (m : Async S A) (h : string → Async S A) : Async S A :=
  fun s => match m s with
           | (Resolved a, s') => (Resolved a, s')
           | (Rejected e, s') => h e s'
           end.

Definition get {S} : Async S S := fun s => (Resolved s, s).
Definition put {S} (s : S) : Async S unit := fun _ => (Resolved tt, s).
Definition modify {S} (f : S → S) : Async S unit := fun s => (Resolved tt, f s).

(** Run a computation on a component of the state. *)
Definition zoom {S T A} (proj : S → T) (inj : T → S → S) (m : Async T A) : Async S A :=
  fun s => match m (proj s) with (r, t) => (r, inj t s) end.

(** The state an invocation leaves behind, whatever its outcome. *)
Definition exec {S A} (m : Async S A) (s : S) : S := snd (m s).
Definition result {S A} (m : Async S A) (s : S) : Outcome A := fst (m s).

(** ** Request strings that name a document

    [findById] casts its argument to an ObjectId before the query runs.
    The references that documents hold ([_id], [callLog.lead],
    [callLog.salesperson]) are ObjectIds already. A string that a request
    or a caller passes is the text of an ObjectId or it is not (24
    hexadecimal digits are; what else is depends on the version of the
    driver): when it is not, [findById] rejects with a CastError and no
    query runs. The embedding takes such a string together with the
    verdict of the cast. *)
Inductive RequestId : Type :=
| IsObjectId (id : ObjectId)
| NotObjectId (raw : string).

(** The string as the request carries it. *)
Definition requestString (id : RequestId) : string :=
  match id with
  | IsObjectId id => id
  | NotObjectId raw => raw
  end.

(** [Model.findById(id)] for such a string; a library error is named by
    its class. *)
Definition findByRequest {S A} (findById : ObjectId → Async S (option A))
    (id : RequestId) : Async S (option A) :=
  match id with
  | IsObjectId id => findById id
  | NotObjectId _ => throw "CastError"
  end.

(** ** MongoDB queries *)

(** [findOne(filter).sort(order)]: the first document, in the order [le],
    among those matching the filter. *)
Fixpoint firstBy {A} (le : A → A → bool) (l : list A) : option A :=
  match l with
  | [] => None
  | x :: l' =>
      match firstBy le l' with
      | None => Some x
      | Some y => if le x y then Some x else Some y
      end
  end.

Definition docs {A} (c : gmap ObjectId A) : list A := (map_to_list c).*2.

Definition find {A} (P : A → bool) (c : gmap ObjectId A) : list A :=
  List.filter P (docs c).

Definition findOneSorted {A} (P : A → bool) (le : A → A → bool)
    (c : gmap ObjectId A) : option A :=
  firstBy le (find P c).

(** ** models/Lead.js *)

Module Lead.

Module History.
Record t : Type := mk {
  attempt : Z;
  timestamp : Date;
  status : string;
  duration : Z;
  notes : string
}.
#[global] Instance eq_dec : EqDecision t.
Proof. solve_decision. Defined.
End History.

(** The schema paths the scheduler reads or writes. [name], [email],
    [notes], [tags] and [source] are written by no operation embedded
    here; a stored document is taken to satisfy their validators, as it
    did when it was created. *)
Record t : Type := mk {
  _id : ObjectId;
  phone : string;
  status : string;
  priority : string;
  callAttempts : Z;
  lastCallAttempt : option Date;
  nextCallTime : option Date;
  assignedTo : option ObjectId;
  callHistory : list History.t;
  isActive : bool;
  createdAt : Date;
  updatedAt : Date
}.

#[global] Instance eq_dec : EqDecision t.
Proof. solve_decision. Defined.

Definition setStatus (v : string) (l : t) : t :=
  mk (_id l) (phone l) v (priority l) (callAttempts l) (lastCallAttempt l)
     (nextCallTime l) (assignedTo l) (callHistory l) (isActive l)
     (createdAt l) (updatedAt l).
Definition setCallAttempts (v : Z) (l : t) : t :=
  mk (_id l) (phone l) (status l) (priority l) v (lastCallAttempt l)
     (nextCallTime l) (assignedTo l) (callHistory l) (isActive l)
     (createdAt l) (updatedAt l).
Definition setLastCallAttempt (v : option Date) (l : t) : t :=
  mk (_id l) (phone l) (status l) (priority l) (callAttempts l) v
     (nextCallTime l) (assignedTo l) (callHistory l) (isActive l)
     (createdAt l) (updatedAt l).
Definition setNextCallTime (v : option Date) (l : t) : t :=
  mk (_id l) (phone l) (status l) (priority l) (callAttempts l)
     (lastCallAttempt l) v (assignedTo l) (callHistory l) (isActive l)
     (createdAt l) (updatedAt l).
Definition setAssignedTo (v : option ObjectId) (l : t) : t :=
  mk (_id l) (phone l) (status l) (priority l) (callAttempts l)
     (lastCallAttempt l) (nextCallTime l) v (callHistory l) (isActive l)
     (createdAt l) (updatedAt l).
Definition setCallHistory (v : list History.t) (l : t) : t :=
  mk (_id l) (phone l) (status l) (priority l) (callAttempts l)
     (lastCallAttempt l) (nextCallTime l) (assignedTo l) v (isActive l)
     (createdAt l) (updatedAt l).
Definition setIsActive (v : bool) (l : t) : t :=
  mk (_id l) (phone l) (status l) (priority l) (callAttempts l)
     (lastCallAttempt l) (nextCallTime l) (assignedTo l) (callHistory l) v
     (createdAt l) (updatedAt l).
Definition setUpdatedAt (v : Date) (l : t) : t :=
  mk (_id l) (phone l) (status l) (priority l) (callAttempts l)
     (lastCallAttempt l) (nextCallTime l) (assignedTo l) (callHistory l)
     (isActive l) (createdAt l) v.

(** [status.enum] and [priority.enum] of the schema. *)
Definition statusEnum : list string :=
  ["pending"; "calling"; "answered"; "no_answer"; "busy"; "failed";
   "completed"; "transferred"].
Definition priorityEnum : list string := ["low"; "medium"; "high"; "urgent"].

(** Schema validation as [save()] runs it: the [enum] validators of
    [status] and [priority] and [max: 5] of [callAttempts]. *)
Definition validateSync (l : t) : bool :=
  bool_decide (status l ∈ statusEnum)
  && bool_decide (priority l ∈ priorityEnum)
  && (callAttempts l <=? 5).

Abbreviation Collection := (gmap ObjectId t) (only parsing).

(** [doc.save()] for a document loaded from the collection. The schema
    has [timestamps: true]: a write sets [updatedAt]. *)
Definition save (now : Date) (l : t) : Async Collection t :=
  fun c =>
    if validateSync l then
      match c !! _id l with
      | None => (Rejected "DocumentNotFoundError", c)
      | Some stored =>
          if decide (stored = l) then (Resolved l, c)
          else let l' := setUpdatedAt now l in
               (Resolved l', <[_id l := l']> c)
      end
    else (Rejected "ValidationError", c).

(** [findById(id)] once [id] is an ObjectId; for a string whose cast can
    fail see [findByRequest]. *)
Definition findById (id : ObjectId) : Async Collection (option t) :=
  fun c => (Resolved (c !! id), c).

(** The in-memory effect of [updateCallStatus] on [this], up to the
    final [return this.save()]. *)
Definition countsAsAttempt (s : string) : bool :=
  bool_decide (s = "answered") || bool_decide (s = "no_answer")
  || bool_decide (s = "busy") || bool_decide (s = "failed").

Definition applyCallStatus (now : Date) (s : string) (duration : Z)
    (notes : string) (l : t) : t :=
  let l1 := setLastCallAttempt (Some now) (setStatus s l) in
  if countsAsAttempt s then
    let n := callAttempts l1 + 1 in
    let l2 := setCallAttempts n l1 in
    let l3 := setCallHistory
                (callHistory l2 ++ [History.mk n now s duration notes]) l2 in
    if bool_decide (s = "no_answer") && (n <? 3) then
      setNextCallTime (Some (now + 30 * 60 * 1000)) l3
    else if bool_decide (s = "busy") && (n <? 3) then
      setNextCallTime (Some (now + 15 * 60 * 1000)) l3
    else if 3 <=? n then
      setIsActive false (setStatus "failed" l3)
    else l3
  else l1.

Definition updateCallStatus (now : Date) (s : string) (duration : Z)
    (notes : string) (l : t) : Async Collection t :=
  save now (applyCallStatus now s duration notes l).

(** The filter of [getNextLeadToCall]. *)
Definition eligible (now : Date) (l : t) : bool :=
  bool_decide (status l = "pending")
  && bool_decide (isActive l = true)
  && match nextCallTime l with
     | None => true
     | Some t => t <=? now
     end.

(** [sort({ priority: 1, createdAt: 1 })]: MongoDB compares the strings
    of [priority] as strings, ascending, then [createdAt] ascending. *)
Definition sortLe (a b : t) : bool :=
  match String.compare (priority a) (priority b) with
  | Lt => true
  | Gt => false
  | Eq => createdAt a <=? createdAt b
  end.

Definition getNextLeadToCall (now : Date) : Async Collection (option t) :=
  fun c => (Resolved (findOneSorted (eligible now) sortLe c), c).

(** [assignToSalesperson(userId)] *)
Definition assignToSalesperson (now : Date) (userId : ObjectId) (l : t)
    : Async Collection t :=
  save now (setStatus "transferred" (setAssignedTo (Some userId) l)).

End Lead.

(** ** models/CallLog.js *)

Module CallLog.

(** The schema paths the scheduler and the reconciler touch
    ([direction], [transferTime], [transferTo], [recordingUrl], [cost]
    and [metadata] are left out). *)
Record t : Type := mk {
  _id : ObjectId;
  lead : ObjectId;
  salesperson : option ObjectId;
  twilioCallSid : option string;
  status : string;
  from : option string;
  to : option string;
  duration : option Z;
  startTime : Date;
  endTime : option Date;
  answerTime : option Date;
  notes : option string;
  errorCode : option string;
  errorMessage : option string;
  createdAt : Date;
  updatedAt : Date
}.

#[global] Instance eq_dec : EqDecision t.
Proof. solve_decision. Defined.

Definition setStatus (v : string) (c : t) : t :=
  mk (_id c) (lead c) (salesperson c) (twilioCallSid c) v (from c) (to c)
     (duration c) (startTime c) (endTime c) (answerTime c) (notes c)
     (errorCode c) (errorMessage c) (createdAt c) (updatedAt c).
Definition setTwilioCallSid (v : option string) (c : t) : t :=
  mk (_id c) (lead c) (salesperson c) v (status c) (from c) (to c)
     (duration c) (startTime c) (endTime c) (answerTime c) (notes c)
     (errorCode c) (errorMessage c) (createdAt c) (updatedAt c).
Definition setDuration (v : option Z) (c : t) : t :=
  mk (_id c) (lead c) (salesperson c) (twilioCallSid c) (status c) (from c)
     (to c) v (startTime c) (endTime c) (answerTime c) (notes c)
     (errorCode c) (errorMessage c) (createdAt c) (updatedAt c).
Definition setEndTime (v : option Date) (c : t) : t :=
  mk (_id c) (lead c) (salesperson c) (twilioCallSid c) (status c) (from c)
     (to c) (duration c) (startTime c) v (answerTime c) (notes c)
     (errorCode c) (errorMessage c) (createdAt c) (updatedAt c).
Definition setAnswerTime (v : option Date) (c : t) : t :=
  mk (_id c) (lead c) (salesperson c) (twilioCallSid c) (status c) (from c)
     (to c) (duration c) (startTime c) (endTime c) v (notes c)
     (errorCode c) (errorMessage c) (createdAt c) (updatedAt c).
Definition setNotes (v : option string) (c : t) : t :=
  mk (_id c) (lead c) (salesperson c) (twilioCallSid c) (status c) (from c)
     (to c) (duration c) (startTime c) (endTime c) (answerTime c) v
     (errorCode c) (errorMessage c) (createdAt c) (updatedAt c).
Definition setErrorCode (v : option string) (c : t) : t :=
  mk (_id c) (lead c) (salesperson c) (twilioCallSid c) (status c) (from c)
     (to c) (duration c) (startTime c) (endTime c) (answerTime c) (notes c)
     v (errorMessage c) (createdAt c) (updatedAt c).
Definition setErrorMessage (v : option string) (c : t) : t :=
  mk (_id c) (lead c) (salesperson c) (twilioCallSid c) (status c) (from c)
     (to c) (duration c) (startTime c) (endTime c) (answerTime c) (notes c)
     (errorCode c) v (createdAt c) (updatedAt c).
Definition setUpdatedAt (v : Date) (c : t) : t :=
  mk (_id c) (lead c) (salesperson c) (twilioCallSid c) (status c) (from c)
     (to c) (duration c) (startTime c) (endTime c) (answerTime c) (notes c)
     (errorCode c) (errorMessage c) (createdAt c) v.

Definition statusEnum : list string :=
  ["initiated"; "ringing"; "answered"; "completed"; "busy"; "no-answer";
   "failed"; "canceled"].

(** [required: true] on a String path rejects [undefined] and the empty
    string. *)
Definition required (v : option string) : bool :=
  match v with
  | Some s => negb (bool_decide (s = ""))
  | None => false
  end.

Definition validateSync (c : t) : bool :=
  bool_decide (status c ∈ statusEnum)
  && required (from c) && required (to c)
  && match duration c with Some d => 0 <=? d | None => true end
  && match notes c with
     | Some n => (String.length n <=? 1000)%nat
     | None => true
     end.

Abbreviation Collection := (gmap ObjectId t) (only parsing).

(** The unique sparse index on [twilioCallSid]: no other document may
    carry the same call SID. *)
Definition sidTaken (c : t) (coll : Collection) : bool :=
  match twilioCallSid c with
  | None => false
  | Some sid =>
      bool_decide (Exists (fun d => _id d ≠ _id c ∧ twilioCallSid d = Some sid)
                          (docs coll))
  end.

(** [new CallLog({...})]: [status] is given, [duration] takes its default
    [0], [startTime] its default [Date.now], and the first save stamps
    [createdAt] and [updatedAt]. *)
Definition new (now : Date) (id lead salesperson : ObjectId)
    (from : option string) (to : string) (status : string) : t :=
  mk id lead (Some salesperson) None status from (Some to) (Some 0) now
     None None None None None now now.

(** The first [save()] of a new document. *)
Definition insert (c : t) : Async Collection t :=
  fun coll =>
    if validateSync c then
      match coll !! _id c with
      | Some _ => (Rejected "E11000 duplicate key", coll)
      | None =>
          if sidTaken c coll then (Rejected "E11000 duplicate key", coll)
          else (Resolved c, <[_id c := c]> coll)
      end
    else (Rejected "ValidationError", coll).

(** [doc.save()] of a document that is already stored. *)
Definition save (now : Date) (c : t) : Async Collection t :=
  fun coll =>
    if validateSync c then
      match coll !! _id c with
      | None => (Rejected "DocumentNotFoundError", coll)
      | Some stored =>
          if decide (stored = c) then (Resolved c, coll)
          else if sidTaken c coll then (Rejected "E11000 duplicate key", coll)
          else let c' := setUpdatedAt now c in
               (Resolved c', <[_id c := c']> coll)
      end
    else (Rejected "ValidationError", coll).

(** [findById(id)] once [id] is an ObjectId; for a string whose cast can
    fail see [findByRequest]. *)
Definition findById (id : ObjectId) : Async Collection (option t) :=
  fun coll => (Resolved (coll !! id), coll).

(** [findOne({ twilioCallSid })] *)
Definition findBySid (sid : string) : Async Collection (option t) :=
  fun coll =>
    (Resolved (head (find (fun d => bool_decide (twilioCallSid d = Some sid)) coll)),
     coll).

(** The [additionalData] argument of [updateStatus]: for each of the
    keys the callers pass, [None] when the key is absent, [Some None]
    when it is present with the value [undefined]. All four keys are
    schema paths. *)
Record AdditionalData : Type := mkData {
  ad_duration : option (option Z);
  ad_notes : option (option string);
  ad_errorCode : option (option string);
  ad_errorMessage : option (option string)
}.

Definition noData : AdditionalData := mkData None None None None.

Definition assign {A} (set : option A → t → t) (v : option (option A)) (c : t) : t :=
  match v with
  | Some x => set x c
  | None => c
  end.

Definition applyAdditionalData (d : AdditionalData) (c : t) : t :=
  assign setErrorMessage (ad_errorMessage d)
    (assign setErrorCode (ad_errorCode d)
       (assign setNotes (ad_notes d)
          (assign setDuration (ad_duration d) c))).

(** The in-memory effect of [updateStatus] on [this], up to the final
    [return this.save()]. *)
Definition applyStatus (now : Date) (s : string) (d : AdditionalData) (c : t) : t :=
  let c1 := setStatus s c in
  let c2 :=
    if bool_decide (s = "answered") then setAnswerTime (Some now) c1
    else if bool_decide (s = "completed") then
      let c' := setEndTime (Some now) c1 in
      match answerTime c' with
      | Some a => setDuration (Some ((now - a) / 1000)) c'
      | None => c'
      end
    else if bool_decide (s = "failed") || bool_decide (s = "busy")
            || bool_decide (s = "no-answer") then
      setEndTime (Some now) c1
    else c1 in
  applyAdditionalData d c2.

Definition updateStatus (now : Date) (s : string) (d : AdditionalData) (c : t)
    : Async Collection t :=
  save now (applyStatus now s d c).

End CallLog.

(** ** models/User.js *)

Module User.

(** Modelled from the spec: models/User.js is not among the sources. The
    record holds the fields of an Agent that the dispatcher and the
    reconciler read or write ([role], [phone], [isAvailable],
    [isActive], the counters of [callStats], [lastLogin]); its
    validators are unknown and [save] is taken to accept the document. *)
Record t : Type := mk {
  _id : ObjectId;
  role : string;
  phone : option string;
  isAvailable : bool;
  isActive : bool;
  totalCalls : Z;
  successfulCalls : Z;
  lastLogin : option Date
}.

#[global] Instance eq_dec : EqDecision t.
Proof. solve_decision. Defined.

Definition setTotalCalls (v : Z) (u : t) : t :=
  mk (_id u) (role u) (phone u) (isAvailable u) (isActive u) v
     (successfulCalls u) (lastLogin u).
Definition setSuccessfulCalls (v : Z) (u : t) : t :=
  mk (_id u) (role u) (phone u) (isAvailable u) (isActive u) (totalCalls u)
     v (lastLogin u).

Abbreviation Collection := (gmap ObjectId t) (only parsing).

Definition save (u : t) : Async Collection t :=
  fun coll =>
    match coll !! _id u with
    | None => (Rejected "DocumentNotFoundError", coll)
    | Some _ => (Resolved u, <[_id u := u]> coll)
    end.

(** [findById(id)] once [id] is an ObjectId; for a string whose cast can
    fail see [findByRequest]. *)
Definition findById (id : ObjectId) : Async Collection (option t) :=
  fun coll => (Resolved (coll !! id), coll).

(** The filter and the order of [findAvailableSalesperson]:
    [callStats.totalCalls] ascending, then [lastLogin] descending (a
    missing [lastLogin] sorts last in descending order). *)
Definition available (u : t) : bool :=
  bool_decide (role u = "salesperson")
  && bool_decide (isAvailable u = true)
  && bool_decide (isActive u = true).

Definition sortLe (a b : t) : bool :=
  if totalCalls a <? totalCalls b then true
  else if totalCalls b <? totalCalls a then false
  else match lastLogin a, lastLogin b with
       | Some x, Some y => y <=? x
       | Some _, None => true
       | None, Some _ => false
       | None, None => true
       end.

End User.

(** ** The database *)

Record Db : Type := mkDb {
  leads : gmap ObjectId Lead.t;
  callLogs : gmap ObjectId CallLog.t;
  users : gmap ObjectId User.t
}.

Definition setLeads (v : gmap ObjectId Lead.t) (d : Db) : Db :=
  mkDb v (callLogs d) (users d).
Definition setCallLogs (v : gmap ObjectId CallLog.t) (d : Db) : Db :=
  mkDb (leads d) v (users d).
Definition setUsers (v : gmap ObjectId User.t) (d : Db) : Db :=
  mkDb (leads d) (callLogs d) v.

Definition onLeads {A} : Async (gmap ObjectId Lead.t) A → Async Db A :=
  zoom leads setLeads.
Definition onCallLogs {A} : Async (gmap ObjectId CallLog.t) A → Async Db A :=
  zoom callLogs setCallLogs.
Definition onUsers {A} : Async (gmap ObjectId User.t) A → Async Db A :=
  zoom users setUsers.

(** [for (const x of xs) { await f(x) }] *)
Fixpoint forEach {S A} (xs : list A) (f : A → Async S unit) : Async S unit :=
  match xs with
  | [] => mret tt
  | x :: xs' => f x ;; forEach xs' f
  end.

(** ** services/twilioService.js *)

Module TwilioService.

(** What [initiateCall] resolves to: [{ success: true, callSid }] or
    [{ success: false, error }]. It never rejects. *)
Inductive CallResult : Type :=
| CallPlaced (callSid : string)
| CallFailed (error : string).

Definition falsy (v : option string) : bool :=
  match v with
  | Some s => bool_decide (s = "")
  | None => true
  end.

(** [provider] is what the rest of the function yields once the phone
    numbers are present: the simulated success when there is no client,
    the created call, or the error caught from [client.calls.create]. *)
Definition initiateCall (provider : CallResult) (leadPhone : string)
    (salespersonPhone : option string) : CallResult :=
  if falsy (Some leadPhone) || falsy salespersonPhone then
    CallFailed "Phone numbers are required"
  else provider.

(** The [switch] of [handleCallStatusUpdate]. *)
Definition mapStatus (twilioStatus : string) (duration : Z)
    : string * CallLog.AdditionalData :=
  if bool_decide (twilioStatus = "initiated") then ("initiated", CallLog.noData)
  else if bool_decide (twilioStatus = "ringing") then ("ringing", CallLog.noData)
  else if bool_decide (twilioStatus = "answered") then ("answered", CallLog.noData)
  else if bool_decide (twilioStatus = "completed") then
    ("completed", CallLog.mkData (Some (Some duration)) None None None)
  else if bool_decide (twilioStatus = "busy") then ("busy", CallLog.noData)
  else if bool_decide (twilioStatus = "no-answer") then ("no-answer", CallLog.noData)
  else if bool_decide (twilioStatus = "failed") then ("failed", CallLog.noData)
  else if bool_decide (twilioStatus = "canceled") then ("canceled", CallLog.noData)
  else ("failed",
        CallLog.mkData None None None
          (Some (Some ("Unknown Twilio status: " +:+ twilioStatus)))).

(** The update of the lead that the reconcilers share. For [answered]
    and [completed] the new status is assigned to the in-memory document
    and the document is not saved: the collection is left as it is. *)
Definition reconcileLead (now : Date) (status : string) (duration : Z)
    (lead : option Lead.t) : Async Db unit :=
  match lead with
  | Some lead =>
      if bool_decide (status = "answered") then mret tt
      else if bool_decide (status = "completed") then mret tt
      else if bool_decide (status ∈ ["busy"; "no-answer"; "failed"]) then
        onLeads (Lead.updateCallStatus now status duration "" lead) ;; mret tt
      else mret tt
  | None => mret tt
  end.

Definition handleCallStatusUpdate (now : Date) (callLog : CallLog.t)
    (twilioStatus : string) (duration : Z) : Async Db unit :=
  tryCatch
    (let '(status, additionalData) := mapStatus twilioStatus duration in
     onCallLogs (CallLog.updateStatus now status additionalData callLog) ;;
     lead ← onLeads (Lead.findById (CallLog.lead callLog));
     reconcileLead now status duration lead)
    (fun e => throw e).

(** The phone numbers [initiateCall] hands to the provider: a number
    that does not start with [+] gets one in front. *)
Definition startsWithPlus (s : string) : bool :=
  match s with
  | String c _ => Ascii.eqb c "+"%char
  | EmptyString => false
  end.

Definition formatPhone (phone : string) : string :=
  if startsWithPlus phone then phone else String "+"%char phone.

(** The class [\d]. *)
Definition digit (c : Ascii.ascii) : bool :=
  let n := Ascii.nat_of_ascii c in (48 <=? n)%nat && (n <=? 57)%nat.

(** The character class of the phone pattern, on characters below 256:
    the digits, the white space of the class [\s] (tab, line feed,
    vertical tab, form feed, carriage return, space, no-break space), the
    hyphen and the two parentheses. *)
Definition phoneChar (c : Ascii.ascii) : bool :=
  digit c
  || bool_decide (Ascii.nat_of_ascii c ∈ [9; 10; 11; 12; 13; 32; 160]%nat)
  || Ascii.eqb c "-"%char || Ascii.eqb c "("%char || Ascii.eqb c ")"%char.

(** What the optional [+] at the start of the pattern leaves to match. *)
Definition afterPlus (s : string) : string :=
  match s with
  | String c rest => if Ascii.eqb c "+"%char then rest else s
  | EmptyString => s
  end.

(** [validatePhoneNumber]: the test of the pattern, an optional [+] and
    then one or more characters of the class, up to the end. *)
Definition validatePhoneNumber (phoneNumber : string) : bool :=
  let body := afterPlus phoneNumber in
  negb (String.eqb body "")
  && forallb phoneChar (list_ascii_of_string body).

End TwilioService.

(** ** middleware/validation.js *)

Module Validation.

(** The phone pattern of [registerUser], [createLead] and [updateUser]:
    [+998] and nine digits. *)
Definition phonePattern (phone : string) : bool :=
  match phone with
  | String c0 (String c1 (String c2 (String c3 rest))) =>
      Ascii.eqb c0 "+"%char && Ascii.eqb c1 "9"%char && Ascii.eqb c2 "9"%char
      && Ascii.eqb c3 "8"%char
      && (String.length rest =? 9)%nat
      && forallb TwilioService.digit (list_ascii_of_string rest)
  | _ => false
  end.

(** The body of [PUT /api/calls/:id/status], each key present or not; a
    [duration] is a whole number. *)
Record CallStatusBody : Type := mkBody {
  status : option string;
  duration : option Z;
  notes : option string;
  errorCode : option string;
  errorMessage : option string
}.

(** A [Joi.string()] that is optional: absent, or a string that is not
    empty. *)
Definition optionalString (v : option string) : bool :=
  match v with
  | Some s => negb (bool_decide (s = ""))
  | None => true
  end.

(** [Joi.number()] accepts safe numbers only: at most
    [Number.MAX_SAFE_INTEGER] in absolute value. *)
Definition MAX_SAFE_INTEGER : Z := 9007199254740991.

(** [Joi.number().min(0)] *)
Definition numberMin0 (d : Z) : bool := (0 <=? d) && (d <=? MAX_SAFE_INTEGER).

(** The schema [updateCallStatus]. *)
Definition updateCallStatus (b : CallStatusBody) : bool :=
  match status b with
  | Some s => bool_decide (s ∈ CallLog.statusEnum)
  | None => false
  end
  && match duration b with Some d => numberMin0 d | None => true end
  && optionalString (notes b)
  && match notes b with
     | Some n => (String.length n <=? 1000)%nat
     | None => true
     end
  && optionalString (errorCode b) && optionalString (errorMessage b).

End Validation.

(** ** routes/calls.js and routes/operator.js *)

Module Routes.

(** [POST /api/calls/webhook/status]; the result is the HTTP status of
    the response. [CallDuration] may be missing from the body. *)
Definition webhookStatus (now : Date) (CallSid CallStatus : string)
    (CallDuration : option Z) : Async Db Z :=
  tryCatch
    (callLog ← onCallLogs (CallLog.findBySid CallSid);
     match callLog with
     | None => mret 404
     | Some callLog =>
         TwilioService.handleCallStatusUpdate now callLog CallStatus
           (default 0 CallDuration) ;;
         mret 200
     end)
    (fun _ => mret 500).

(** [POST /api/operator/leads/claim] for the authenticated user
    [userId]; [leadId] is a string of the body, if the body has one. *)
Definition claimLead (now : Date) (leadId : option RequestId) (userId : ObjectId)
    : Async Db Z :=
  tryCatch
    (if TwilioService.falsy (requestString <$> leadId) then mret 400
     else
       lead ← onLeads (findByRequest Lead.findById (default (NotObjectId "") leadId));
       match lead with
       | None => mret 404
       | Some lead =>
           if negb (Lead.isActive lead) then mret 400
           else if negb (bool_decide (Lead.status lead = "pending")) then mret 400
           else if bool_decide (is_Some (Lead.assignedTo lead)) then mret 400
           else
             onLeads (Lead.save now
                        (Lead.setStatus "claimed"
                           (Lead.setAssignedTo (Some userId) lead))) ;;
             mret 200
       end)
    (fun _ => mret 500).

End Routes.

(** ** services/callQueue.js *)

Module CallQueue.

(** A value of the [activeCalls] map. *)
Record ActiveCall : Type := mkActive {
  leadId : ObjectId;
  salespersonId : ObjectId;
  startTime : Date
}.

(** The fields of the [CallQueue] object. [callInterval] holds the
    handle that [setInterval] returned, or [null]. *)
Record t : Type := mk {
  isRunning : bool;
  callInterval : option nat;
  callTimeout : Z;
  maxConcurrentCalls : Z;
  activeCalls : gmap string ActiveCall;
  callDelay : Z
}.

Definition setIsRunning (v : bool) (q : t) : t :=
  mk v (callInterval q) (callTimeout q) (maxConcurrentCalls q)
     (activeCalls q) (callDelay q).
Definition setCallInterval (v : option nat) (q : t) : t :=
  mk (isRunning q) v (callTimeout q) (maxConcurrentCalls q)
     (activeCalls q) (callDelay q).
Definition setActiveCalls (v : gmap string ActiveCall) (q : t) : t :=
  mk (isRunning q) (callInterval q) (callTimeout q) (maxConcurrentCalls q)
     v (callDelay q).

(** [constructor()]; the argument is [parseInt(process.env.CALL_TIMEOUT)],
    [None] when it is [NaN]. *)
Definition constructor (CALL_TIMEOUT : option Z) : t :=
  mk false None
     (match CALL_TIMEOUT with
      | Some n => if n =? 0 then 30000 else n
      | None => 30000
      end)
     5 ∅ 5000.

(** The Node process the singleton queue lives in: the database, the
    queue object, the interval timers that are armed, the next timer
    handle, and the events handed to [emitCallUpdate]. *)
Record Process : Type := mkProcess {
  db : Db;
  queue : t;
  timers : gset nat;
  timerSeq : nat;
  emitted : list (string * ObjectId)
}.

Definition setDb (v : Db) (p : Process) : Process :=
  mkProcess v (queue p) (timers p) (timerSeq p) (emitted p).
Definition setQueue (v : t) (p : Process) : Process :=
  mkProcess (db p) v (timers p) (timerSeq p) (emitted p).

Definition onDb {A} : Async Db A → Async Process A := zoom db setDb.

(** [this.activeCalls.set(k, v)] and [this.activeCalls.delete(k)] *)
Definition activeCallsSet (k : string) (v : ActiveCall) : Async Process unit :=
  modify (fun p => setQueue (setActiveCalls (<[k := v]> (activeCalls (queue p))) (queue p)) p).
Definition activeCallsDelete (k : string) : Async Process unit :=
  modify (fun p => setQueue (setActiveCalls (delete k (activeCalls (queue p))) (queue p)) p).

Definition emitCallUpdate (event : string) (lead : ObjectId) : Async Process unit :=
  modify (fun p => mkProcess (db p) (queue p) (timers p) (timerSeq p)
                     (emitted p ++ [(event, lead)])).

(** [start()]: [setInterval] arms a new timer and returns its handle. *)
Definition start (p : Process) : Process :=
  if isRunning (queue p) then p
  else
    let h := timerSeq p in
    mkProcess (db p)
      (setCallInterval (Some h) (setIsRunning true (queue p)))
      ({[h]} ∪ timers p) (S h) (emitted p).

(** [stop()]: [clearInterval] disarms the timer of the handle. *)
Definition stop (p : Process) : Process :=
  if negb (isRunning (queue p)) then p
  else
    let q := setIsRunning false (queue p) in
    match callInterval q with
    | Some h =>
        mkProcess (db p) (setCallInterval None q) (timers p ∖ {[h]})
          (timerSeq p) (emitted p)
    | None => setQueue q p
    end.

Definition pause (p : Process) : Process :=
  if isRunning (queue p) then stop p else p.

Definition resume (p : Process) : Process :=
  if negb (isRunning (queue p)) then start p else p.

(** The object [getStatus()] returns. *)
Record Status : Type := mkStatus {
  st_isRunning : bool;
  st_activeCalls : nat;
  st_maxConcurrentCalls : Z;
  st_callDelay : Z;
  st_callTimeout : Z
}.

Definition getStatus (p : Process) : Status :=
  let q := queue p in
  mkStatus (isRunning q) (size (activeCalls q)) (maxConcurrentCalls q)
    (callDelay q) (callTimeout q).

(** What one invocation reads from outside the process: the clock, the
    [_id] that [new CallLog] draws, [process.env.TWILIO_PHONE_NUMBER],
    and the answer of the telephony provider. *)
Record Env : Type := mkEnv {
  now : Date;
  newCallLogId : ObjectId;
  TWILIO_PHONE_NUMBER : option string;
  provider : TwilioService.CallResult
}.

Definition findAvailableSalesperson : Async Process (option User.t) :=
  tryCatch
    (onDb (onUsers (fun c => (Resolved (findOneSorted User.available User.sortLe c), c))))
    (fun _ => mret None).

Definition handleCallFailure (env : Env) (lead : Lead.t)
    (callLog : option CallLog.t) (error : string) : Async Process unit :=
  tryCatch
    (onDb (onLeads (Lead.save (now env)
                      (Lead.setAssignedTo None (Lead.setStatus "pending" lead)))) ;;
     match callLog with
     | Some callLog =>
         onDb (onCallLogs (CallLog.save (now env)
                             (CallLog.setErrorMessage (Some error)
                                (CallLog.setStatus "failed" callLog)))) ;;
         mret tt
     | None => mret tt
     end ;;
     activeCallsDelete (Lead._id lead))
    (fun _ => mret tt).

(** [makeCall]. The [catch] block passes on [lead] as the [try] block
    left it: with [status] and [assignedTo] assigned when the first
    [lead.save()] rejects, and as saved afterwards. [handleCallFailure]
    never rejects, so the inner handler covers every statement after the
    first save. *)
Definition makeCall (env : Env) (lead : Lead.t) (salesperson : User.t)
    : Async Process unit :=
  let calling :=
    Lead.setAssignedTo (Some (User._id salesperson)) (Lead.setStatus "calling" lead) in
  tryCatch
    (lead ← onDb (onLeads (Lead.save (now env) calling));
     tryCatch
       (callLog ← onDb (onCallLogs (CallLog.insert
                     (CallLog.new (now env) (newCallLogId env) (Lead._id lead)
                        (User._id salesperson) (TWILIO_PHONE_NUMBER env)
                        (Lead.phone lead) "initiated")));
        match TwilioService.initiateCall (provider env) (Lead.phone lead)
                (User.phone salesperson) with
        | TwilioService.CallPlaced callSid =>
            onDb (onCallLogs (CallLog.save (now env)
                                (CallLog.setTwilioCallSid (Some callSid) callLog))) ;;
            emitCallUpdate "call_initiated" (Lead._id lead)
        | TwilioService.CallFailed error =>
            handleCallFailure env lead (Some callLog) error
        end)
       (fun e => handleCallFailure env lead None e))
    (fun e => handleCallFailure env calling None e).

Definition processQueue (env : Env) : Async Process unit :=
  tryCatch
    (p ← get;
     if Z.of_nat (size (activeCalls (queue p))) >=? maxConcurrentCalls (queue p)
     then mret tt
     else
       lead ← onDb (onLeads (Lead.getNextLeadToCall (now env)));
       match lead with
       | None => mret tt
       | Some lead =>
           p ← get;
           if bool_decide (is_Some (activeCalls (queue p) !! Lead._id lead))
           then mret tt
           else
             salesperson ← findAvailableSalesperson;
             match salesperson with
             | None => mret tt
             | Some salesperson =>
                 activeCallsSet (Lead._id lead)
                   (mkActive (Lead._id lead) (User._id salesperson) (now env)) ;;
                 makeCall env lead salesperson
             end
       end)
    (fun _ => mret tt).

(** [processQueue] suspends twice before it writes to [activeCalls]: at
    [await Lead.getNextLeadToCall()] and at
    [await this.findAvailableSalesperson()]. The timer fires the next tick
    whether or not the last one has returned, so other invocations run
    while a tick is suspended. The parts of one tick between its awaits
    follow; run one after the other without a break they are
    [processQueue]. *)

(** Up to the first await: the cap test. *)
Definition belowCap (p : Process) : bool :=
  negb (Z.of_nat (size (activeCalls (queue p))) >=? maxConcurrentCalls (queue p)).

(** What the database answers to the query of [getNextLeadToCall] and to
    the query of [findAvailableSalesperson]. *)
Definition nextLead (env : Env) (p : Process) : option Lead.t :=
  findOneSorted (Lead.eligible (now env)) Lead.sortLe (leads (db p)).

Definition freeSalesperson (p : Process) : option User.t :=
  findOneSorted User.available User.sortLe (users (db p)).

(** From the answer of the first await to the second await: the lead the
    tick goes on with, if any. *)
Definition resumeWithLead (lead : option Lead.t) (p : Process) : option Lead.t :=
  match lead with
  | None => None
  | Some lead =>
      if bool_decide (is_Some (activeCalls (queue p) !! Lead._id lead)) then None
      else Some lead
  end.

(** From the answer of the second await to the end of the tick, inside
    the [try] of [processQueue]. *)
Definition resumeWithSalesperson (env : Env) (lead : Lead.t)
    (salesperson : option User.t) : Async Process unit :=
  tryCatch
    (match salesperson with
     | None => mret tt
     | Some salesperson =>
         activeCallsSet (Lead._id lead)
           (mkActive (Lead._id lead) (User._id salesperson) (now env)) ;;
         makeCall env lead salesperson
     end)
    (fun _ => mret tt).

Definition handleCallCompletion (now : Date) (callLogId : ObjectId)
    (status : string) : Async Process unit :=
  tryCatch
    (callLog ← onDb (onCallLogs (CallLog.findById callLogId));
     match callLog with
     | None => mret tt
     | Some callLog =>
         activeCallsDelete (CallLog.lead callLog) ;;
         lead ← onDb (onLeads (Lead.findById (CallLog.lead callLog)));
         onDb (TwilioService.reconcileLead now status 0 lead) ;;
         salesperson ← match CallLog.salesperson callLog with
                       | Some id => onDb (onUsers (User.findById id))
                       | None => mret None
                       end;
         match salesperson with
         | Some salesperson =>
             let s1 := User.setTotalCalls (User.totalCalls salesperson + 1) salesperson in
             let s2 := if bool_decide (status = "completed")
                       then User.setSuccessfulCalls (User.successfulCalls s1 + 1) s1
                       else s1 in
             onDb (onUsers (User.save s2)) ;; mret tt
         | None => mret tt
         end
     end)
    (fun _ => mret tt).

(** The filter of [resetStuckLeads]: in [calling], last updated more
    than five minutes ago. *)
Definition stuck (now : Date) (l : Lead.t) : bool :=
  bool_decide (Lead.status l = "calling")
  && (Lead.updatedAt l <? now - 5 * 60 * 1000).

Definition resetStuckLeads (now : Date) : Async Process unit :=
  tryCatch
    (stuckLeads ← onDb (onLeads (fun c => (Resolved (find (stuck now) c), c)));
     if (0 <? List.length stuckLeads)%nat then
       forEach stuckLeads (fun lead =>
         onDb (onLeads (Lead.save now
                          (Lead.setAssignedTo None (Lead.setStatus "pending" lead)))) ;;
         mret tt)
     else mret tt)
    (fun _ => mret tt).

(** [initialize()], with the clock and the environment of the process
    start. *)
Definition initialize (now : Date) (p : Process) : Process :=
  start (exec (resetStuckLeads now) p).

(** A row of [getActiveCalls()]. *)
Record ActiveCallRow : Type := mkRow {
  row_leadId : string;
  row_salespersonId : ObjectId;
  row_startTime : Date;
  row_duration : Z
}.

(** [getActiveCalls()]. The rows come in the order of [map_to_list], not
    in the insertion order of the JavaScript [Map]. *)
Definition getActiveCalls (now : Date) (p : Process) : list ActiveCallRow :=
  (fun e : string * ActiveCall =>
     mkRow e.1 (salespersonId e.2) (startTime e.2) (now - startTime e.2))
    <$> map_to_list (activeCalls (queue p)).

(** What [addToQueue] resolves to: [{ success: true, nextCallTime }] or
    [{ success: false, error }]. *)
Inductive QueueResult : Type :=
| Queued (nextCallTime : Date)
| NotQueued (error : string).

(** The delay [addToQueue] gives a priority label. *)
Definition queueTime (now : Date) (priority : string) : Date :=
  if bool_decide (priority = "high") then now
  else if bool_decide (priority = "urgent") then now
  else if bool_decide (priority = "normal") then now + 2 * 60 * 1000
  else if bool_decide (priority = "low") then now + 10 * 60 * 1000
  else now.

(** [addToQueue(leadId, priority = 'normal')] *)
Definition addToQueue (now : Date) (leadId : RequestId) (priority : option string)
    : Async Process QueueResult :=
  tryCatch
    (lead ← onDb (onLeads (findByRequest Lead.findById leadId));
     match lead with
     | None => throw "Lead not found"
     | Some lead =>
         if negb (bool_decide (Lead.status lead = "pending"))
         then throw "Lead is not in pending status"
         else
           let nextCallTime := queueTime now (default "normal" priority) in
           onDb (onLeads (Lead.save now
                            (Lead.setNextCallTime (Some nextCallTime) lead))) ;;
           mret (Queued nextCallTime)
     end)
    (fun e => mret (NotQueued e)).

End CallQueue.

(** ** routes/calls.js *)

Module CallsRoutes.

(** [POST /api/calls/initiate], after the middleware; the result is the
    HTTP status of the response. [leadId] and [salespersonId] are strings
    of the body, which [findById] casts. An exception after the lead is
    saved as [calling] is answered with 500 and nothing is reverted. *)
Definition initiate (env : CallQueue.Env) (leadId : RequestId)
    (salespersonId : option RequestId) : Async CallQueue.Process Z :=
  tryCatch
    (lead ← CallQueue.onDb (onLeads (findByRequest Lead.findById leadId));
     match lead with
     | None => mret 404
     | Some lead =>
         if negb (Lead.isActive lead) then mret 400
         else if bool_decide (Lead.status lead = "calling") then mret 400
         else
           salesperson ←
             (if negb (TwilioService.falsy (requestString <$> salespersonId)) then
                sp ← CallQueue.onDb (onUsers
                       (findByRequest User.findById
                          (default (NotObjectId "") salespersonId)));
                mret (match sp with
                      | Some sp =>
                          if negb (User.isAvailable sp)
                             || negb (bool_decide (User.role sp = "salesperson"))
                          then None else Some sp
                      | None => None
                      end)
              else
                CallQueue.onDb (onUsers
                  (fun c => (Resolved (head (find User.available c)), c))));
           match salesperson with
           | None => mret 400
           | Some salesperson =>
               lead ← CallQueue.onDb (onLeads (Lead.save (CallQueue.now env)
                        (Lead.setAssignedTo (Some (User._id salesperson))
                           (Lead.setStatus "calling" lead))));
               callLog ← CallQueue.onDb (onCallLogs (CallLog.insert
                           (CallLog.new (CallQueue.now env) (CallQueue.newCallLogId env)
                              (Lead._id lead) (User._id salesperson)
                              (CallQueue.TWILIO_PHONE_NUMBER env) (Lead.phone lead)
                              "initiated")));
               match TwilioService.initiateCall (CallQueue.provider env)
                       (Lead.phone lead) (User.phone salesperson) with
               | TwilioService.CallPlaced callSid =>
                   CallQueue.onDb (onCallLogs (CallLog.save (CallQueue.now env)
                                    (CallLog.setTwilioCallSid (Some callSid) callLog))) ;;
                   CallQueue.emitCallUpdate "call_initiated" (Lead._id lead) ;;
                   mret 200
               | TwilioService.CallFailed error =>
                   CallQueue.onDb (onLeads (Lead.save (CallQueue.now env)
                                    (Lead.setAssignedTo None
                                       (Lead.setStatus "pending" lead)))) ;;
                   CallQueue.onDb (onCallLogs (CallLog.save (CallQueue.now env)
                                    (CallLog.setErrorMessage (Some error)
                                       (CallLog.setStatus "failed" callLog)))) ;;
                   mret 500
               end
           end
     end)
    (fun _ => mret 500).

(** [POST /api/calls/webhook/answer]. The response reads
    [salesperson.phone]: without a stored salesperson that throws, after
    the call log and the lead are saved. *)
Definition webhookAnswer (now : Date) (CallSid : string)
    : Async CallQueue.Process Z :=
  tryCatch
    (callLog ← CallQueue.onDb (onCallLogs (CallLog.findBySid CallSid));
     match callLog with
     | None => mret 404
     | Some callLog =>
         CallQueue.onDb (onCallLogs
           (CallLog.updateStatus now "answered" CallLog.noData callLog)) ;;
         lead ← CallQueue.onDb (onLeads (Lead.findById (CallLog.lead callLog)));
         match lead with
         | Some lead =>
             CallQueue.onDb (onLeads (Lead.save now (Lead.setStatus "answered" lead))) ;;
             mret tt
         | None => mret tt
         end ;;
         CallQueue.emitCallUpdate "call_answered" (CallLog.lead callLog) ;;
         salesperson ← match CallLog.salesperson callLog with
                       | Some id => CallQueue.onDb (onUsers (User.findById id))
                       | None => mret None
                       end;
         match salesperson with
         | Some _ => mret 200
         | None => throw "TypeError"
         end
     end)
    (fun _ => mret 500).

(** [PUT /api/calls/:id/status], with the [validate('updateCallStatus')]
    middleware in front; [id] is the string of the path, which [findById]
    casts. The handler passes all four keys of [additionalData], also
    those the body lacks. *)
Definition updateStatus (now : Date) (id : RequestId) (body : Validation.CallStatusBody)
    : Async CallQueue.Process Z :=
  if negb (Validation.updateCallStatus body) then mret 400
  else
    let status := default "" (Validation.status body) in
    tryCatch
      (call ← CallQueue.onDb (onCallLogs (findByRequest CallLog.findById id));
       match call with
       | None => mret 404
       | Some call =>
           CallQueue.onDb (onCallLogs
             (CallLog.updateStatus now status
                (CallLog.mkData (Some (Validation.duration body))
                   (Some (Validation.notes body)) (Some (Validation.errorCode body))
                   (Some (Validation.errorMessage body)))
                call)) ;;
           (if bool_decide (status = "answered") || bool_decide (status = "completed")
            then
              lead ← CallQueue.onDb (onLeads (Lead.findById (CallLog.lead call)));
              match lead with
              | Some lead =>
                  CallQueue.onDb (onLeads (Lead.save now
                    (Lead.setStatus (if bool_decide (status = "answered")
                                     then "answered" else "transferred") lead))) ;;
                  mret tt
              | None => mret tt
              end
            else mret tt) ;;
           CallQueue.emitCallUpdate "call_status_updated" (CallLog.lead call) ;;
           mret 200
       end)
      (fun _ => mret 500).

End CallsRoutes.

(** ** routes/operator.js, the call routes *)

Module OperatorRoutes.

(** [PUT /api/operator/calls/:id/update] for the authenticated user
    [userId], with a [status] in the body; [callId] is the string of the
    path, which [findById] casts. *)
Definition updateCall (now : Date) (callId : RequestId) (userId : ObjectId)
    (status : string) (notes : option string) (duration : option Z)
    : Async CallQueue.Process Z :=
  tryCatch
    (callLog ← CallQueue.onDb (onCallLogs (findByRequest CallLog.findById callId));
     match callLog with
     | None => mret 404
     | Some callLog =>
         match CallLog.salesperson callLog with
         | None => throw "TypeError"
         | Some owner =>
             if negb (bool_decide (owner = userId)) then mret 403
             else
               CallQueue.onDb (onCallLogs
                 (CallLog.updateStatus now status
                    (CallLog.mkData (Some duration) (Some notes) None None) callLog)) ;;
               lead ← CallQueue.onDb (onLeads (Lead.findById (CallLog.lead callLog)));
               CallQueue.onDb (TwilioService.reconcileLead now status
                                 (default 0 duration) lead) ;;
               CallQueue.emitCallUpdate "call_status_updated" (CallLog.lead callLog) ;;
               mret 200
         end
     end)
    (fun _ => mret 500).

End OperatorRoutes.

(** ** routes/admin.js, the control of the queue *)

Module AdminRoutes.

(** [POST /api/admin/system/control] *)
Definition systemControl (now : Date) (action : option string)
    : Async CallQueue.Process Z :=
  tryCatch
    (if TwilioService.falsy action then mret 400
     else
       let action := default "" action in
       if bool_decide (action = "pause_queue") then
         modify CallQueue.pause ;; mret 200
       else if bool_decide (action = "resume_queue") then
         modify CallQueue.resume ;; mret 200
       else if bool_decide (action = "reset_stuck_leads") then
         CallQueue.resetStuckLeads now ;; mret 200
       else if bool_decide (action = "get_queue_status") then mret 200
       else mret 400)
    (fun _ => mret 500).

End AdminRoutes.

(** ** The runs of the process *)

(** What can happen to the process: the administrative controls, a tick
    of the interval timer (which runs [processQueue]), a completion
    reported to the queue, a stuck-lead recovery, and a write to the
    database by the routes or any other client. *)
Inductive Step : Type :=
| Start
| Stop
| Pause
| Resume
| Initialize (now : Date)
| Tick (env : CallQueue.Env)
| CallCompleted (now : Date) (callLogId : ObjectId) (status : string)
| ResetStuck (now : Date)
| External (d : Db).

Definition step (a : Step) (p : CallQueue.Process) : CallQueue.Process :=
  match a with
  | Start => CallQueue.start p
  | Stop => CallQueue.stop p
  | Pause => CallQueue.pause p
  | Resume => CallQueue.resume p
  | Initialize now => CallQueue.initialize now p
  | Tick env => exec (CallQueue.processQueue env) p
  | CallCompleted now id status =>
      exec (CallQueue.handleCallCompletion now id status) p
  | ResetStuck now => exec (CallQueue.resetStuckLeads now) p
  | External d => CallQueue.setDb d p
  end.

(** A tick of [processQueue] that is suspended at one of its two awaits
    before [activeCalls.set]: the query is sent and not yet answered, or
    the database has answered and the tick has not yet resumed. *)
Inductive Suspended : Type :=
| AwaitLead (env : CallQueue.Env)
| LeadFound (env : CallQueue.Env) (lead : option Lead.t)
| AwaitSalesperson (env : CallQueue.Env) (lead : Lead.t)
| SalespersonFound (env : CallQueue.Env) (lead : Lead.t) (salesperson : option User.t).

(** The runs of the process, with the ticks that are suspended. The
    process starts with the queue as constructed, over any database, with
    no timer armed and no tick under way. A [step] is an invocation that
    no tick overlaps. While a timer is armed a tick may begin: below the
    cap it sends its first query and suspends (at the cap it returns at
    once and changes nothing). The database answers a query over the
    state it then has; a tick that has its answer resumes in the state the
    process then has. From [activeCalls.set] on a tick is run to its end:
    its later awaits are on the database and the provider, and the writes
    of others to the database are the [External] steps. *)
Inductive running : CallQueue.Process → list Suspended → Prop :=
| running_init (d : Db) (CALL_TIMEOUT : option Z) :
    running (CallQueue.mkProcess d (CallQueue.constructor CALL_TIMEOUT) ∅ 0 []) []
| running_step (a : Step) (p : CallQueue.Process) (ts : list Suspended) :
    running p ts → running (step a p) ts
| running_tick (env : CallQueue.Env) (p : CallQueue.Process) (ts : list Suspended) :
    running p ts → CallQueue.timers p ≠ ∅ → CallQueue.belowCap p = true →
    running p (AwaitLead env :: ts)
| running_leadFound env (p : CallQueue.Process) (ts1 ts2 : list Suspended) :
    running p (ts1 ++ AwaitLead env :: ts2) →
    running p (ts1 ++ LeadFound env (CallQueue.nextLead env p) :: ts2)
| running_withLead env lead (p : CallQueue.Process) (ts1 ts2 : list Suspended) :
    running p (ts1 ++ LeadFound env lead :: ts2) →
    running p (ts1 ++ match CallQueue.resumeWithLead lead p with
                      | Some lead => [AwaitSalesperson env lead]
                      | None => []
                      end ++ ts2)
| running_salespersonFound env lead (p : CallQueue.Process) (ts1 ts2 : list Suspended) :
    running p (ts1 ++ AwaitSalesperson env lead :: ts2) →
    running p (ts1 ++ SalespersonFound env lead (CallQueue.freeSalesperson p) :: ts2)
| running_withSalesperson env lead salesperson (p : CallQueue.Process)
    (ts1 ts2 : list Suspended) :
    running p (ts1 ++ SalespersonFound env lead salesperson :: ts2) →
    running (exec (CallQueue.resumeWithSalesperson env lead salesperson) p) (ts1 ++ ts2).

(** The states of the process. *)
Definition reachable (p : CallQueue.Process) : Prop := ∃ ts, running p ts.

(** [m] relates every state it runs in to the state it leaves. *)
Definition preserves {S A} (R : relation S) (m : Async S A) : Prop :=
  ∀ s, R s (exec m s).

(** The part of the process that only [start] and [stop] write. *)
Definition sched (p : CallQueue.Process) : bool * option nat * Z * gset nat * nat :=
  (CallQueue.isRunning (CallQueue.queue p),
   CallQueue.callInterval (CallQueue.queue p),
   CallQueue.maxConcurrentCalls (CallQueue.queue p),
   CallQueue.timers p, CallQueue.timerSeq p).

(** [p'] has the scheduling fields of [p] and no entry in [activeCalls]
    that [p] does not have. *)
Definition quiet (p p' : CallQueue.Process) : Prop :=
  sched p' = sched p
  ∧ CallQueue.activeCalls (CallQueue.queue p')
      ⊆ CallQueue.activeCalls (CallQueue.queue p).

(** As [quiet], and the only call log [p'] may have beyond those of [p]
    is [id]. *)
Definition placesAtMost (id : ObjectId) (p p' : CallQueue.Process) : Prop :=
  quiet p p'
  ∧ dom (callLogs (CallQueue.db p')) ⊆ dom (callLogs (CallQueue.db p)) ∪ {[id]}.

(** What [start] and [stop] keep: a timer is armed exactly when the queue
    is running, namely the one whose handle [callInterval] holds. *)
Definition timerInv (p : CallQueue.Process) : Prop :=
  match CallQueue.callInterval (CallQueue.queue p) with
  | Some h =>
      CallQueue.isRunning (CallQueue.queue p) = true
      ∧ CallQueue.timers p = {[h]}
  | None =>
      CallQueue.isRunning (CallQueue.queue p) = false
      ∧ CallQueue.timers p = ∅
  end.

(** What invocations that do not overlap keep: the cap is 5, the working
    set holds at most 5 entries, and [timerInv]. *)
Definition schedulerInv (p : CallQueue.Process) : Prop :=
  CallQueue.maxConcurrentCalls (CallQueue.queue p) = 5
  ∧ (size (CallQueue.activeCalls (CallQueue.queue p)) ≤ 5)%nat
  ∧ match CallQueue.callInterval (CallQueue.queue p) with
    | Some h =>
        CallQueue.isRunning (CallQueue.queue p) = true
        ∧ CallQueue.timers p = {[h]}
    | None =>
        CallQueue.isRunning (CallQueue.queue p) = false
        ∧ CallQueue.timers p = ∅
    end.

(** A collection of leads is keyed by [_id] and holds documents that
    pass the schema. *)
Definition wfLeads (c : gmap ObjectId Lead.t) : Prop :=
  map_Forall (fun k l => Lead._id l = k ∧ Lead.validateSync l = true) c.

(** [callAttempts] of the lead stored under [id], if any. *)
Definition attemptsOf (c : gmap ObjectId Lead.t) (id : ObjectId) : option Z :=
  Lead.callAttempts <$> c !! id.

(** Provided the lead stored under [id] has [callAttempts = n] in [p],
    every lead has in [p'] the [callAttempts] it has in [p]. *)
Definition keepsAttempts (id : ObjectId) (n : Z) (p p' : CallQueue.Process) : Prop :=
  attemptsOf (leads (CallQueue.db p)) id = Some n →
  ∀ k, attemptsOf (leads (CallQueue.db p')) k = attemptsOf (leads (CallQueue.db p)) k.

(** A lead retired at the cap. *)
Definition retired (l : Lead.t) : Prop :=
  Lead.status l = "failed" ∧ Lead.isActive l = false ∧ 3 <= Lead.callAttempts l.

(** A collection of users is keyed by [_id]. *)
Definition keyedUsers (c : gmap ObjectId User.t) : Prop :=
  map_Forall (fun k u => User._id u = k) c.

(** A change of state that keeps a well-formed collection of leads
    well-formed. *)
Definition keepsLeadsValid (p p' : CallQueue.Process) : Prop :=
  wfLeads (leads (CallQueue.db p)) → wfLeads (leads (CallQueue.db p')).

(** A change of state that writes to the database only: the queue
    object, the timers and the events emitted are as before. *)
Definition onlyDb (p p' : CallQueue.Process) : Prop :=
  p' = CallQueue.setDb (CallQueue.db p') p.

(** What every route keeps: the users and the queue object are as
    before, and a well-formed collection of leads stays well-formed. *)
Definition routeFrame (p p' : CallQueue.Process) : Prop :=
  users (CallQueue.db p') = users (CallQueue.db p)
  ∧ CallQueue.queue p' = CallQueue.queue p
  ∧ keepsLeadsValid p p'.

(** A change of state that counts no attempt: as [routeFrame], no call
    log appears or disappears, and over a well-formed collection of leads
    every lead has the [callAttempts] it had. *)
Definition countsNothing (p p' : CallQueue.Process) : Prop :=
  routeFrame p p'
  ∧ dom (callLogs (CallQueue.db p')) = dom (callLogs (CallQueue.db p))
  ∧ (wfLeads (leads (CallQueue.db p)) →
     ∀ k, attemptsOf (leads (CallQueue.db p')) k
          = attemptsOf (leads (CallQueue.db p)) k).

(** A change of state that leaves the leads as they are. *)
Definition sameLeads (p p' : CallQueue.Process) : Prop :=
  leads (CallQueue.db p') = leads (CallQueue.db p).

(** Every value [m] resolves to satisfies [Q]. *)
Definition returns {S A} (Q : A → Prop) (m : Async S A) : Prop :=
  ∀ s a s', m s = (Resolved a, s') → Q a.

(** ** Sample data *)

Module Fixtures.

(** A lead as [new Lead({ phone, priority }).save()] stores it at time
    [created]. *)
Definition lead (id priority : string) (created : Date) : Lead.t :=
  Lead.mk id ("+99890000000" +:+ id) "pending" priority 0 None None None []
    true created created.

(** The leads of [testBusinessLogic] in test-system.js, saved one after
    the other: low, high, urgent, medium. *)
Definition testLeads : gmap ObjectId Lead.t :=
  <["1" := lead "1" "low" 1]>
    (<["2" := lead "2" "high" 2]>
       (<["3" := lead "3" "urgent" 3]>
          (<["4" := lead "4" "medium" 4]> ∅))).

(** A [high] lead and an [urgent] lead created after it. *)
Definition highThenUrgent : gmap ObjectId Lead.t :=
  <["1" := lead "1" "high" 1]> (<["2" := lead "2" "urgent" 2]> ∅).

Definition agent (id : string) : User.t :=
  User.mk id "salesperson" (Some ("+99891000000" +:+ id)) true true 0 0 None.

(** A lead that the dispatcher put in [calling] at time [10], with its
    call attempt and its agent. *)
Definition callingLead : Lead.t :=
  Lead.mk "1" "+998900000001" "calling" "medium" 0 None None (Some "u1") []
    true 1 10.

Definition callLog : CallLog.t :=
  CallLog.setTwilioCallSid (Some "CA1")
    (CallLog.new 10 "c1" "1" "u1" (Some "+15550000000") "+998900000001"
       "initiated").

Definition db : Db :=
  mkDb {[ "1" := callingLead ]} {[ "c1" := callLog ]} {[ "u1" := agent "u1" ]}.

Definition env (now : Date) (callLogId : ObjectId)
    (provider : TwilioService.CallResult) : CallQueue.Env :=
  CallQueue.mkEnv now callLogId (Some "+15550000000") provider.

(** The process right after the queue object is constructed. *)
Definition fresh (d : Db) : CallQueue.Process :=
  CallQueue.mkProcess d (CallQueue.constructor None) ∅ 0 [].

(** The dispatcher has picked the pending lead ["1"] and the agent
    ["u1"], has entered the lead in [activeCalls], and is about to run
    [makeCall]. *)
Definition dialing : CallQueue.Process :=
  CallQueue.mkProcess
    (mkDb {[ "1" := lead "1" "medium" 1 ]} ∅ {[ "u1" := agent "u1" ]})
    (CallQueue.setActiveCalls {[ "1" := CallQueue.mkActive "1" "u1" 100 ]}
       (CallQueue.constructor None))
    ∅ 0 [].

(** The process while the call of [db] is in flight. *)
Definition inFlight : CallQueue.Process :=
  CallQueue.mkProcess db
    (CallQueue.setActiveCalls {[ "1" := CallQueue.mkActive "1" "u1" 10 ]}
       (CallQueue.constructor None))
    ∅ 0 [].

(** Six pending leads of one priority, saved one after the other, and
    one agent. *)
Definition sixLeads : gmap ObjectId Lead.t :=
  <["1" := lead "1" "medium" 1]>
    (<["2" := lead "2" "medium" 2]>
       (<["3" := lead "3" "medium" 3]>
          (<["4" := lead "4" "medium" 4]>
             (<["5" := lead "5" "medium" 5]>
                (<["6" := lead "6" "medium" 6]> ∅))))).

(** The tick fired at time [now]; its call log gets the id [c] followed
    by [i], and the provider places its call under the SID [CA] followed
    by [i]. *)
Definition tick (i : string) (now : Date) : CallQueue.Env :=
  env now ("c" +:+ i) (TwilioService.CallPlaced ("CA" +:+ i)).

(** The queue is started and four ticks, none overlapping another, have
    each placed a call. *)
Definition fourInFlight : CallQueue.Process :=
  step (Tick (tick "4" 400))
    (step (Tick (tick "3" 300))
       (step (Tick (tick "2" 200))
          (step (Tick (tick "1" 100))
             (step Start
                (fresh (mkDb sixLeads ∅ {[ "u1" := agent "u1" ]})))))).

(** The fifth tick resumes with its lead and the agent and runs to its
    end. *)
Definition atCap : CallQueue.Process :=
  exec (CallQueue.resumeWithSalesperson (tick "5" 500) (lead "5" "medium" 5)
          (Some (agent "u1")))
    fourInFlight.

(** Then the sixth tick, which passed the cap test before the fifth
    wrote its entry, resumes with its lead and the agent. *)
Definition overCap : CallQueue.Process :=
  exec (CallQueue.resumeWithSalesperson (tick "6" 600) (lead "6" "medium" 6)
          (Some (agent "u1")))
    atCap.

End Fixtures.

(** * Properties *)

(** ** Running a promise *)

Section Monad.

Context {S : Type}.

Lemma bind_resolved {A B} (m : Async S A) (k : A → Async S B) s a s' :
  m s = (Resolved a, s') → (m ≫= k) s = k a s'.
Proof. intros H. unfold mbind, Async_bind. by rewrite H. Qed.

Lemma bind_rejected {A B} (m : Async S A) (k : A → Async S B) s e s' :
  m s = (Rejected e, s') → (m ≫= k) s = (Rejected e, s').
Proof. intros H. unfold mbind, Async_bind. by rewrite H. Qed.

Lemma tryCatch_resolved {A} (m : Async S A) h s a s' :
  m s = (Resolved a, s') → tryCatch m h s = (Resolved a, s').
Proof. intros H. unfold tryCatch. by rewrite H. Qed.

Lemma tryCatch_rejected {A} (m : Async S A) h s e s' :
  m s = (Rejected e, s') → tryCatch m h s = h e s'.
Proof. intros H. unfold tryCatch. by rewrite H. Qed.

Lemma zoom_eq {T A} (proj : S → T) (inj : T → S → S) (m : Async T A) s r t :
  m (proj s) = (r, t) → zoom proj inj m s = (r, inj t s).
Proof. intros H. unfold zoom. by rewrite H. Qed.

End Monad.

(** Projections of updated documents and states reduce by computation. *)
Ltac simpl_docs :=
  cbn [Lead._id Lead.phone Lead.status Lead.priority Lead.callAttempts
       Lead.lastCallAttempt Lead.nextCallTime Lead.assignedTo Lead.callHistory
       Lead.isActive Lead.createdAt Lead.updatedAt
       Lead.setStatus Lead.setCallAttempts Lead.setLastCallAttempt
       Lead.setNextCallTime Lead.setAssignedTo Lead.setCallHistory
       Lead.setIsActive Lead.setUpdatedAt
       CallLog._id CallLog.lead CallLog.salesperson CallLog.twilioCallSid
       CallLog.status CallLog.from CallLog.to CallLog.duration
       CallLog.startTime CallLog.endTime CallLog.answerTime CallLog.notes
       CallLog.errorCode CallLog.errorMessage CallLog.createdAt
       CallLog.updatedAt
       CallLog.setStatus CallLog.setTwilioCallSid CallLog.setDuration
       CallLog.setEndTime CallLog.setAnswerTime CallLog.setNotes
       CallLog.setErrorCode CallLog.setErrorMessage CallLog.setUpdatedAt
       User._id User.role User.phone User.isAvailable User.isActive
       User.totalCalls User.successfulCalls User.lastLogin
       User.setTotalCalls User.setSuccessfulCalls
       leads callLogs users setLeads setCallLogs setUsers
       CallQueue.db CallQueue.queue CallQueue.timers CallQueue.timerSeq
       CallQueue.emitted CallQueue.setDb CallQueue.setQueue
       CallQueue.isRunning CallQueue.callInterval CallQueue.callTimeout
       CallQueue.maxConcurrentCalls CallQueue.activeCalls CallQueue.callDelay
       CallQueue.setIsRunning CallQueue.setCallInterval
       CallQueue.setActiveCalls
       CallQueue.now CallQueue.newCallLogId CallQueue.TWILIO_PHONE_NUMBER
       CallQueue.provider
       fst snd exec result] in *.

(** Resolve the next [await] with the equation the side goal proves. *)
Ltac await := erewrite bind_resolved; cycle 1.
Ltac on_db := apply zoom_eq, zoom_eq; simpl_docs.

(** ** The order of strings *)

Section StringOrder.

Lemma ascii_compare_refl (a : Ascii.ascii) : Ascii.compare a a = Eq.
Proof. unfold Ascii.compare. apply N.compare_refl. Qed.

Lemma ascii_compare_Lt_trans (a b c : Ascii.ascii) :
  Ascii.compare a b = Lt → Ascii.compare b c = Lt → Ascii.compare a c = Lt.
Proof.
  unfold Ascii.compare. rewrite !N.compare_lt_iff. apply N.lt_trans.
Qed.

Lemma string_compare_refl (s : string) : String.compare s s = Eq.
Proof. induction s as [|a s IH]; simpl; [done|]. by rewrite ascii_compare_refl. Qed.

Lemma string_compare_Lt_trans (s1 s2 s3 : string) :
  String.compare s1 s2 = Lt → String.compare s2 s3 = Lt →
  String.compare s1 s3 = Lt.
Proof.
  revert s2 s3.
  induction s1 as [|a s1 IH]; intros [|b s2] [|c s3]; simpl; try done.
  destruct (Ascii.compare a b) eqn:Eab; try done;
    destruct (Ascii.compare b c) eqn:Ebc; try done; intros H1 H2.
  - apply Ascii.compare_eq_iff in Eab, Ebc. subst.
    rewrite ascii_compare_refl. by eapply IH.
  - apply Ascii.compare_eq_iff in Eab. subst. by rewrite Ebc.
  - apply Ascii.compare_eq_iff in Ebc. subst. by rewrite Eab.
  - by rewrite (ascii_compare_Lt_trans a b c).
Qed.

Lemma string_compare_Gt_Lt (s1 s2 : string) :
  String.compare s1 s2 = Gt → String.compare s2 s1 = Lt.
Proof. intros H. rewrite String.compare_antisym, H. done. Qed.

End StringOrder.

(** ** [findOne(...).sort(...)] returns a least matching document *)

Section FirstBy.

Context {A : Type} (le : A → A → bool).

Lemma firstBy_None (l : list A) : firstBy le l = None → l = [].
Proof.
  destruct l as [|x l]; [done|]. simpl.
  destruct (firstBy le l); [destruct (le x a)|]; done.
Qed.

Lemma firstBy_elem (l : list A) (x : A) : firstBy le l = Some x → x ∈ l.
Proof.
  revert x. induction l as [|a l IH]; intros x; simpl; [done|].
  destruct (firstBy le l) as [y|].
  - destruct (le a y); intros [= <-]; [left | right; by apply IH].
  - intros [= <-]. left.
Qed.

Hypothesis le_total : ∀ x y, le x y = true ∨ le y x = true.
Hypothesis le_trans : ∀ x y z, le x y = true → le y z = true → le x z = true.

Lemma firstBy_least (l : list A) (x : A) :
  firstBy le l = Some x → ∀ y, y ∈ l → le x y = true.
Proof.
  revert x. induction l as [|a l IH]; intros x; simpl; [done|].
  destruct (firstBy le l) as [m|] eqn:Hm.
  - destruct (le a m) eqn:Ham; intros [= <-] y Hy;
      apply elem_of_cons in Hy as [->|Hy].
    + by destruct (le_total a a).
    + eapply le_trans; [exact Ham | by apply IH].
    + destruct (le_total a m) as [H|H]; [congruence | done].
    + by apply IH.
  - apply firstBy_None in Hm as ->. intros [= <-] y Hy.
    apply elem_of_cons in Hy as [->|Hy]; [|by apply elem_of_nil in Hy].
    by destruct (le_total a a).
Qed.

End FirstBy.

Section Queries.

Context {A : Type}.

Lemma elem_of_docs (c : gmap ObjectId A) (x : A) :
  x ∈ docs c ↔ ∃ k, c !! k = Some x.
Proof.
  unfold docs. rewrite list_elem_of_fmap. split.
  - intros [[k y] [-> H]]. exists k. by apply elem_of_map_to_list.
  - intros [k H]. exists (k, x). split; [done|]. by apply elem_of_map_to_list.
Qed.

Lemma elem_of_find (P : A → bool) (c : gmap ObjectId A) (x : A) :
  x ∈ find P c ↔ P x = true ∧ ∃ k, c !! k = Some x.
Proof.
  unfold find. rewrite list_elem_of_In, List.filter_In, <- list_elem_of_In, elem_of_docs.
  tauto.
Qed.

Lemma findOneSorted_Some (P : A → bool) (le : A → A → bool)
    (c : gmap ObjectId A) (x : A) :
  findOneSorted P le c = Some x → P x = true ∧ ∃ k, c !! k = Some x.
Proof. intros H. apply elem_of_find. by eapply firstBy_elem. Qed.

Lemma findOneSorted_None (P : A → bool) (le : A → A → bool)
    (c : gmap ObjectId A) :
  findOneSorted P le c = None → ∀ k x, c !! k = Some x → P x = false.
Proof.
  intros H k x Hk. apply firstBy_None in H.
  destruct (P x) eqn:HP; [|done].
  assert (x ∈ find P c) as Hx by (apply elem_of_find; eauto).
  rewrite H in Hx. by apply elem_of_nil in Hx.
Qed.

End Queries.

(** ** Lead selection *)

Section Selection.

Lemma sortLe_total (a b : Lead.t) :
  Lead.sortLe a b = true ∨ Lead.sortLe b a = true.
Proof.
  unfold Lead.sortLe.
  rewrite (String.compare_antisym (Lead.priority b) (Lead.priority a)).
  destruct (String.compare (Lead.priority a) (Lead.priority b)); simpl; auto.
  rewrite !Z.leb_le. lia.
Qed.

Lemma sortLe_trans (a b c : Lead.t) :
  Lead.sortLe a b = true → Lead.sortLe b c = true → Lead.sortLe a c = true.
Proof.
  unfold Lead.sortLe.
  destruct (String.compare (Lead.priority a) (Lead.priority b)) eqn:Hab;
    [|destruct (String.compare (Lead.priority b) (Lead.priority c)) eqn:Hbc|];
    try done.
  - apply String.compare_eq_iff in Hab. rewrite Hab.
    destruct (String.compare (Lead.priority b) (Lead.priority c)); try done.
    rewrite !Z.leb_le. lia.
  - apply String.compare_eq_iff in Hbc. by rewrite <- Hbc, Hab.
  - by rewrite (string_compare_Lt_trans _ _ _ Hab Hbc).
Qed.

(** [getNextLeadToCall] always resolves and leaves the collection as it
    is; when it yields a lead, the lead is stored, eligible, and least in
    the order of the sort among the stored eligible leads. *)
Lemma getNextLeadToCall_spec (now : Date) (c : gmap ObjectId Lead.t) :
  ∃ r, Lead.getNextLeadToCall now c = (Resolved r, c) ∧
    match r with
    | Some x =>
        Lead.eligible now x = true ∧ (∃ k, c !! k = Some x) ∧
        ∀ k y, c !! k = Some y → Lead.eligible now y = true →
               Lead.sortLe x y = true
    | None => ∀ k y, c !! k = Some y → Lead.eligible now y = false
    end.
Proof.
  unfold Lead.getNextLeadToCall. eexists; split; [done|].
  destruct (findOneSorted _ _ c) as [x|] eqn:Hx.
  - destruct (findOneSorted_Some _ _ _ _ Hx) as [He Hk].
    split; [done|]. split; [done|]. intros k y Hy Hey.
    eapply (firstBy_least Lead.sortLe sortLe_total sortLe_trans); [exact Hx|].
    apply elem_of_find. eauto.
  - exact (findOneSorted_None _ _ _ Hx).
Qed.

Lemma eligible_inv (now : Date) (l : Lead.t) :
  Lead.eligible now l = true →
  Lead.status l = "pending" ∧ Lead.isActive l = true ∧
  ∀ t, Lead.nextCallTime l = Some t → t <= now.
Proof.
  unfold Lead.eligible. rewrite !andb_true_iff, !bool_decide_eq_true.
  intros [[Hs Ha] Ht]. split; [done|]. split; [done|].
  intros t Hn. rewrite Hn in Ht. by apply Z.leb_le.
Qed.

(** The order of the sort puts every [high] lead before every [urgent]
    one: while an eligible [high] lead is stored, no [urgent] lead is
    selected. *)
Lemma high_selected_before_urgent (now : Date) (c : gmap ObjectId Lead.t)
    (k : ObjectId) (h x : Lead.t) :
  c !! k = Some h → Lead.eligible now h = true → Lead.priority h = "high" →
  Lead.getNextLeadToCall now c = (Resolved (Some x), c) →
  Lead.priority x ≠ "urgent".
Proof.
  intros Hk He Hp Hx Hu.
  destruct (getNextLeadToCall_spec now c) as [r [Hr Hspec]].
  rewrite Hx in Hr. injection Hr as <-.
  destruct Hspec as (_ & _ & Hle). specialize (Hle k h Hk He).
  unfold Lead.sortLe in Hle. by rewrite Hu, Hp in Hle.
Qed.

End Selection.

(** ** Claims about lead selection and the retry policy *)

(** C1 (the code departs from the claim). [getNextLeadToCall] sorts by the
    priority label as a string, ascending: on the four leads of the
    repository's own [testBusinessLogic] it yields the [high] lead where the
    test asserts [urgent], and with an eligible [urgent] lead created after
    an eligible [high] lead it yields the [high] one. *)
Theorem C1_selection_sorts_priority_labels_as_strings :
  Lead.getNextLeadToCall 100 Fixtures.testLeads
    = (Resolved (Some (Fixtures.lead "2" "high" 2)), Fixtures.testLeads)
  ∧ Lead.getNextLeadToCall 100 Fixtures.highThenUrgent
    = (Resolved (Some (Fixtures.lead "1" "high" 1)), Fixtures.highThenUrgent).
Proof. split; vm_compute; reflexivity. Qed.

(** Membership of a literal in an enumeration, by evaluation. *)
Ltac in_enum := apply (bool_decide_unpack _); vm_compute; exact I.

Section RetryPolicy.

Lemma save_write (now : Date) (l stored : Lead.t) (c : gmap ObjectId Lead.t) :
  Lead.validateSync l = true → c !! Lead._id l = Some stored → stored ≠ l →
  Lead.save now l c
    = (Resolved (Lead.setUpdatedAt now l),
       <[Lead._id l := Lead.setUpdatedAt now l]> c).
Proof.
  intros Hv Hs Hne. unfold Lead.save. rewrite Hv, Hs.
  by destruct (decide (stored = l)).
Qed.

Lemma save_invalid (now : Date) (l : Lead.t) (c : gmap ObjectId Lead.t) :
  Lead.validateSync l = false →
  Lead.save now l c = (Rejected "ValidationError", c).
Proof. intros Hv. unfold Lead.save. by rewrite Hv. Qed.

(** What [save] can do to the collection: nothing, or store the
    document it was given, stamped, under its [_id]. *)
Lemma save_cases (now : Date) (l : Lead.t) (c : gmap ObjectId Lead.t) :
  (∃ e, Lead.save now l c = (Rejected e, c))
  ∨ Lead.save now l c = (Resolved l, c) ∧ c !! Lead._id l = Some l
  ∨ Lead.save now l c
      = (Resolved (Lead.setUpdatedAt now l),
         <[Lead._id l := Lead.setUpdatedAt now l]> c)
    ∧ Lead.validateSync l = true ∧ is_Some (c !! Lead._id l).
Proof.
  unfold Lead.save. destruct (Lead.validateSync l); [|eauto].
  destruct (c !! Lead._id l) as [stored|] eqn:Hs; [|eauto].
  destruct (decide (stored = l)) as [->|]; eauto 6.
Qed.

Lemma countsAsAttempt_iff (s : string) :
  Lead.countsAsAttempt s = true
  ↔ s = "answered" ∨ s = "no_answer" ∨ s = "busy" ∨ s = "failed".
Proof.
  unfold Lead.countsAsAttempt.
  rewrite !orb_true_iff, !bool_decide_eq_true. tauto.
Qed.

Lemma applyCallStatus_id now s d n l :
  Lead._id (Lead.applyCallStatus now s d n l) = Lead._id l.
Proof. unfold Lead.applyCallStatus. by repeat case_match. Qed.

Lemma applyCallStatus_priority now s d n l :
  Lead.priority (Lead.applyCallStatus now s d n l) = Lead.priority l.
Proof. unfold Lead.applyCallStatus. by repeat case_match. Qed.

Lemma applyCallStatus_callAttempts now s d n l :
  Lead.callAttempts (Lead.applyCallStatus now s d n l)
    = Lead.callAttempts l + (if Lead.countsAsAttempt s then 1 else 0).
Proof. unfold Lead.applyCallStatus. repeat case_match; simpl; lia. Qed.

Lemma applyCallStatus_lastCallAttempt now s d n l :
  Lead.lastCallAttempt (Lead.applyCallStatus now s d n l) = Some now.
Proof. unfold Lead.applyCallStatus. by repeat case_match. Qed.

(** Below the cap, [no_answer] and [busy] keep the outcome as the status
    and schedule the next call. *)
Lemma applyCallStatus_retry now s d n l delay :
  s = "no_answer" ∧ delay = 30 ∨ s = "busy" ∧ delay = 15 →
  Lead.callAttempts l + 1 < 3 →
  Lead.status (Lead.applyCallStatus now s d n l) = s
  ∧ Lead.nextCallTime (Lead.applyCallStatus now s d n l)
      = Some (now + delay * 60 * 1000)
  ∧ Lead.isActive (Lead.applyCallStatus now s d n l) = Lead.isActive l.
Proof.
  intros Hs Hlt. unfold Lead.applyCallStatus.
  destruct Hs as [[-> ->]|[-> ->]]; simpl;
    (destruct (Z.ltb_spec (Lead.callAttempts l + 1) 3); [done | lia]).
Qed.

(** At the cap, a counted outcome retires the lead. *)
Lemma applyCallStatus_capped now s d n l :
  Lead.countsAsAttempt s = true → 3 <= Lead.callAttempts l + 1 →
  Lead.status (Lead.applyCallStatus now s d n l) = "failed"
  ∧ Lead.isActive (Lead.applyCallStatus now s d n l) = false.
Proof.
  intros Hs Hge. unfold Lead.applyCallStatus. rewrite Hs. simpl.
  destruct (Z.ltb_spec (Lead.callAttempts l + 1) 3); [lia|].
  rewrite !andb_false_r.
  destruct (Z.leb_spec 3 (Lead.callAttempts l + 1)); [done | lia].
Qed.

End RetryPolicy.

(** C2, as the claim states it, fails: after [no_answer] below the cap the
    stored lead has status [no_answer], not [pending]. *)
Lemma C2_counterexample :
  Lead.callAttempts Fixtures.callingLead + 1 < 3
  ∧ ∃ l', Lead.updateCallStatus 1000 "no_answer" 0 "" Fixtures.callingLead
            {[ "1" := Fixtures.callingLead ]}
          = (Resolved l', {[ "1" := l' ]})
        ∧ Lead.nextCallTime l' = Some (1000 + 30 * 60 * 1000)
        ∧ Lead.status l' = "no_answer"
        ∧ Lead.status l' ≠ "pending".
Proof.
  split; [done|]. eexists. split; [vm_compute; reflexivity|]. by vm_compute.
Qed.

(** C2 (amended). For every stored lead to which [updateCallStatus]
    applies [no_answer] while [callAttempts] after the increment is below
    3, the save is accepted, the lead's status is [no_answer] and
    [nextCallTime] is now + 30 minutes; for [busy] under the same
    condition the status is [busy] and [nextCallTime] is now + 15
    minutes. *)
Theorem C2_retry_keeps_outcome_as_status
    (now : Date) (s : string) (delay : Z) (d : Z) (n : string) (l : Lead.t)
    (c : gmap ObjectId Lead.t) :
  s = "no_answer" ∧ delay = 30 ∨ s = "busy" ∧ delay = 15 →
  Lead.callAttempts l + 1 < 3 →
  c !! Lead._id l = Some l →
  Lead.priority l ∈ Lead.priorityEnum →
  ∃ l', Lead.updateCallStatus now s d n l c
          = (Resolved l', <[Lead._id l := l']> c)
      ∧ Lead.status l' = s
      ∧ Lead.nextCallTime l' = Some (now + delay * 60 * 1000)
      ∧ Lead.callAttempts l' = Lead.callAttempts l + 1
      ∧ Lead.isActive l' = Lead.isActive l.
Proof.
  intros Hs Hlt Hc Hp.
  destruct (applyCallStatus_retry now s d n l delay Hs Hlt) as (Hst & Hnext & Hact).
  assert (Lead.countsAsAttempt s = true) as Hcount
    by (by destruct Hs as [[-> _]|[-> _]]).
  pose proof (applyCallStatus_callAttempts now s d n l) as Hn.
  rewrite Hcount in Hn.
  exists (Lead.setUpdatedAt now (Lead.applyCallStatus now s d n l)).
  split; [|done].
  unfold Lead.updateCallStatus.
  rewrite <- (applyCallStatus_id now s d n l).
  apply save_write with (stored := l).
  - unfold Lead.validateSync.
    rewrite Hst, applyCallStatus_priority, Hn, !andb_true_iff, !bool_decide_eq_true.
    split; [split; [|done]|apply Z.leb_le; lia].
    destruct Hs as [[-> _]|[-> _]]; in_enum.
  - by rewrite applyCallStatus_id.
  - intros Heq. rewrite Heq in Hn at 2. lia.
Qed.

Lemma C2_retry_keeps_outcome_as_status_witness :
  ∃ l', Lead.updateCallStatus 1000 "busy" 0 "" Fixtures.callingLead
          {[ "1" := Fixtures.callingLead ]}
        = (Resolved l', <["1" := l']> {[ "1" := Fixtures.callingLead ]})
      ∧ Lead.status l' = "busy"
      ∧ Lead.nextCallTime l' = Some (1000 + 15 * 60 * 1000)
      ∧ Lead.callAttempts l' = 0 + 1
      ∧ Lead.isActive l' = true.
Proof.
  apply (C2_retry_keeps_outcome_as_status 1000 "busy" 15 0 ""
           Fixtures.callingLead {[ "1" := Fixtures.callingLead ]}).
  - right. done.
  - reflexivity.
  - reflexivity.
  - in_enum.
Defined.

(** C5. A counted outcome that brings [callAttempts] to 3 or more leaves
    the lead with status [failed] and [isActive = false]; when the
    incremented count passes the schema ([max: 5]) the collection holds
    the lead in that state; and no eligibility selection, over any
    collection and at any time, returns a lead in that state. *)
Theorem C5_capped_lead_is_retired_and_never_selected
    (now : Date) (s : string) (d : Z) (n : string) (l : Lead.t) :
  s = "no_answer" ∨ s = "busy" ∨ s = "failed" →
  3 <= Lead.callAttempts l + 1 →
  let l' := Lead.applyCallStatus now s d n l in
  Lead.status l' = "failed" ∧ Lead.isActive l' = false
  ∧ (∀ c, c !! Lead._id l = Some l → Lead.priority l ∈ Lead.priorityEnum →
          Lead.callAttempts l + 1 <= 5 →
          Lead.updateCallStatus now s d n l c
            = (Resolved (Lead.setUpdatedAt now l'),
               <[Lead._id l := Lead.setUpdatedAt now l']> c))
  ∧ (∀ now' c x, Lead.getNextLeadToCall now' c = (Resolved (Some x), c) →
          Lead.status x = "pending" ∧ Lead.isActive x = true
          ∧ x ≠ l' ∧ x ≠ Lead.setUpdatedAt now l').
Proof.
  intros Hs Hge l'. subst l'.
  assert (Lead.countsAsAttempt s = true) as Hcount
    by (by destruct Hs as [->|[->| ->]]).
  destruct (applyCallStatus_capped now s d n l Hcount Hge) as [Hst Hact].
  split; [done|]. split; [done|]. split.
  - intros c Hc Hp Hle.
    pose proof (applyCallStatus_callAttempts now s d n l) as Hn.
    rewrite Hcount in Hn.
    unfold Lead.updateCallStatus.
    rewrite <- (applyCallStatus_id now s d n l).
    apply save_write with (stored := l).
    + unfold Lead.validateSync.
      rewrite Hst, applyCallStatus_priority, Hn, !andb_true_iff, !bool_decide_eq_true.
      split; [split; [in_enum|done]|apply Z.leb_le; lia].
    + by rewrite applyCallStatus_id.
    + intros Heq. rewrite Heq in Hn at 2. lia.
  - intros now' c x Hx.
    destruct (getNextLeadToCall_spec now' c) as [r [Hr Hspec]].
    rewrite Hx in Hr. injection Hr as <-.
    destruct Hspec as (He & _ & _).
    apply eligible_inv in He as (Hpend & Hx_act & _).
    split; [done|]. split; [done|].
    split; intros ->; [|simpl in Hpend]; congruence.
Qed.

Lemma C5_capped_lead_is_retired_and_never_selected_witness :
  let l := Lead.setCallAttempts 2 Fixtures.callingLead in
  let l' := Lead.applyCallStatus 1000 "no_answer" 0 "" l in
  Lead.status l' = "failed" ∧ Lead.isActive l' = false
  ∧ Lead.updateCallStatus 1000 "no_answer" 0 "" l {[ "1" := l ]}
      = (Resolved (Lead.setUpdatedAt 1000 l'),
         <["1" := Lead.setUpdatedAt 1000 l']> {[ "1" := l ]})
  ∧ Lead.getNextLeadToCall 5000000 (<["1" := Lead.setUpdatedAt 1000 l']> {[ "1" := l ]})
      = (Resolved None, <["1" := Lead.setUpdatedAt 1000 l']> {[ "1" := l ]}).
Proof.
  intros l l'.
  destruct (C5_capped_lead_is_retired_and_never_selected 1000 "no_answer" 0 "" l)
    as (H1 & H2 & H3 & _).
  - left. reflexivity.
  - vm_compute. discriminate.
  - split; [exact H1|]. split; [exact H2|]. split.
    + apply (H3 {[ "1" := l ]}).
      * reflexivity.
      * in_enum.
      * vm_compute. discriminate.
    + vm_compute. reflexivity.
Defined.

(** ** Synchronous placement failure *)

Section Placement.


Lemma validateSync_inv (l : Lead.t) :
  Lead.validateSync l = true ↔
  Lead.status l ∈ Lead.statusEnum ∧ Lead.priority l ∈ Lead.priorityEnum
  ∧ Lead.callAttempts l <= 5.
Proof.
  unfold Lead.validateSync.
  rewrite !andb_true_iff, !bool_decide_eq_true, Z.leb_le. tauto.
Qed.

(** A valid document stays valid when only [status] (to a member of the
    enumeration), [assignedTo] and the timestamps change. *)
Lemma validateSync_transfer (l l' : Lead.t) :
  Lead.validateSync l = true →
  Lead.status l' ∈ Lead.statusEnum →
  Lead.priority l' = Lead.priority l →
  Lead.callAttempts l' = Lead.callAttempts l →
  Lead.validateSync l' = true.
Proof.
  rewrite !validateSync_inv. intros (_ & Hp & Hn) Hs -> ->. done.
Qed.

Lemma required_Some (s : string) : s ≠ "" → CallLog.required (Some s) = true.
Proof. intros H. unfold CallLog.required. by rewrite bool_decide_eq_false_2. Qed.

Lemma handleCallFailure_run (env : CallQueue.Env) (lead stored : Lead.t)
    (cl : CallLog.t) (err : string) (p : CallQueue.Process) :
  leads (CallQueue.db p) !! Lead._id lead = Some stored →
  Lead.validateSync stored = true →
  Lead.priority lead = Lead.priority stored →
  Lead.callAttempts lead = Lead.callAttempts stored →
  Lead.status stored = "calling" →
  callLogs (CallQueue.db p) !! CallLog._id cl = Some cl →
  CallLog.validateSync cl = true →
  CallLog.twilioCallSid cl = None →
  CallLog.status cl = "initiated" →
  let l' := Lead.setUpdatedAt (CallQueue.now env)
              (Lead.setAssignedTo None (Lead.setStatus "pending" lead)) in
  let cl' := CallLog.setUpdatedAt (CallQueue.now env)
               (CallLog.setErrorMessage (Some err) (CallLog.setStatus "failed" cl)) in
  CallQueue.handleCallFailure env lead (Some cl) err p
  = (Resolved tt,
     CallQueue.mkProcess
       (mkDb (<[Lead._id lead := l']> (leads (CallQueue.db p)))
             (<[CallLog._id cl := cl']> (callLogs (CallQueue.db p)))
             (users (CallQueue.db p)))
       (CallQueue.setActiveCalls
          (delete (Lead._id lead) (CallQueue.activeCalls (CallQueue.queue p)))
          (CallQueue.queue p))
       (CallQueue.timers p) (CallQueue.timerSeq p) (CallQueue.emitted p)).
Proof.
  intros Hl Hv Hp Hn Hst Hc Hcv Hsid Hcs l' cl'.
  unfold CallQueue.handleCallFailure.
  erewrite tryCatch_resolved; [reflexivity|].
  await.
  { on_db. eapply save_write; [|exact Hl|].
    - eapply validateSync_transfer; [exact Hv|in_enum|done..].
    - intros ->. simpl_docs. by rewrite Hst in *. }
  await.
  { await.
    { on_db. unfold CallLog.save.
      replace (CallLog.validateSync _) with true; cycle 1.
      { symmetry. revert Hcv. unfold CallLog.validateSync. simpl_docs.
        rewrite !andb_true_iff, !bool_decide_eq_true. intros [[[[_ ?] ?] ?] ?].
        repeat split; try done. in_enum. }
      simpl_docs. rewrite Hc.
      destruct (decide _) as [Heq|_].
      { exfalso. apply (f_equal CallLog.status) in Heq. simpl_docs. by rewrite Hcs in Heq. }
      unfold CallLog.sidTaken. simpl_docs. rewrite Hsid. reflexivity. }
    reflexivity. }
  unfold CallQueue.activeCallsDelete, modify. simpl_docs.
  destruct p as [[? ? ?] ? ? ? ?]. reflexivity.
Qed.


(** C7. When the provider rejects the placement of a call that [makeCall]
  attempts for a stored pending lead, the lead is stored again with
  status [pending], [assignedTo] cleared and [callAttempts] and
  [callHistory] as before; the call log created for the attempt is
  stored with status [failed] and the error as [errorMessage]; the
  lead has no entry in [activeCalls]; and no event is emitted. *)
Theorem C7_placement_failure_reverts_the_lead
  (env : CallQueue.Env) (lead : Lead.t) (sp : User.t) (p : CallQueue.Process)
  (err f : string) :
leads (CallQueue.db p) !! Lead._id lead = Some lead →
Lead.validateSync lead = true →
Lead.status lead = "pending" →
Lead.phone lead ≠ "" →
CallQueue.TWILIO_PHONE_NUMBER env = Some f → f ≠ "" →
callLogs (CallQueue.db p) !! CallQueue.newCallLogId env = None →
TwilioService.initiateCall (CallQueue.provider env) (Lead.phone lead)
  (User.phone sp) = TwilioService.CallFailed err →
let p' := exec (CallQueue.makeCall env lead sp) p in
∃ l' cl',
  leads (CallQueue.db p') !! Lead._id lead = Some l'
  ∧ Lead.status l' = "pending" ∧ Lead.assignedTo l' = None
  ∧ Lead.callAttempts l' = Lead.callAttempts lead
  ∧ Lead.callHistory l' = Lead.callHistory lead
  ∧ callLogs (CallQueue.db p') !! CallQueue.newCallLogId env = Some cl'
  ∧ CallLog.lead cl' = Lead._id lead
  ∧ CallLog.status cl' = "failed" ∧ CallLog.errorMessage cl' = Some err
  ∧ CallQueue.activeCalls (CallQueue.queue p') !! Lead._id lead = None
  ∧ CallQueue.emitted p' = CallQueue.emitted p.
Proof.
intros Hl Hv Hpend Hph Hfrom Hf Hfresh Hprov p'.
set (calling := Lead.setAssignedTo (Some (User._id sp)) (Lead.setStatus "calling" lead)).
set (cl := CallLog.new (CallQueue.now env) (CallQueue.newCallLogId env)
             (Lead._id lead) (User._id sp) (CallQueue.TWILIO_PHONE_NUMBER env)
             (Lead.phone lead) "initiated").
assert (CallLog.validateSync cl = true) as Hcv.
{ unfold CallLog.validateSync, cl, CallLog.new. simpl_docs.
  rewrite Hfrom, !required_Some by done. done. }
assert (exists q, CallQueue.makeCall env lead sp p = (Resolved tt, q)
    ∧ leads (CallQueue.db q)
      = <[Lead._id lead := Lead.setUpdatedAt (CallQueue.now env)
            (Lead.setAssignedTo None (Lead.setStatus "pending" calling))]>
          (<[Lead._id lead := Lead.setUpdatedAt (CallQueue.now env) calling]>
             (leads (CallQueue.db p)))
    ∧ callLogs (CallQueue.db q)
      = <[CallQueue.newCallLogId env := CallLog.setUpdatedAt (CallQueue.now env)
            (CallLog.setErrorMessage (Some err) (CallLog.setStatus "failed" cl))]>
          (<[CallQueue.newCallLogId env := cl]> (callLogs (CallQueue.db p)))
    ∧ CallQueue.activeCalls (CallQueue.queue q)
      = delete (Lead._id lead) (CallQueue.activeCalls (CallQueue.queue p))
    ∧ CallQueue.emitted q = CallQueue.emitted p) as (q & Hrun & Hleads & Hlogs & Hact & Hem).
{ eexists. split.
  - unfold CallQueue.makeCall. fold calling.
    erewrite tryCatch_resolved; [reflexivity|].
    await.
    { on_db. eapply save_write; [|exact Hl|].
      - eapply validateSync_transfer; [exact Hv|in_enum|done..].
      - intros Heq. apply (f_equal Lead.status) in Heq. simpl_docs.
        by rewrite Hpend in Heq. }
    cbv beta.
    erewrite tryCatch_resolved; [reflexivity|].
    await.
    { on_db. unfold calling. simpl_docs. fold cl.
      unfold CallLog.insert.
      change (CallLog._id cl) with (CallQueue.newCallLogId env).
      rewrite Hcv, Hfresh. reflexivity. }
    cbv beta. unfold calling at 1 2 3. simpl_docs. rewrite Hprov. fold cl. fold calling.
    apply handleCallFailure_run with
      (stored := Lead.setUpdatedAt (CallQueue.now env) calling);
      simpl_docs; try done.
    + apply lookup_insert_eq.
    + eapply validateSync_transfer; [exact Hv|in_enum|done..].
    + apply lookup_insert_eq.
  - simpl_docs. done. }
subst p'. unfold exec. rewrite Hrun. simpl_docs.
rewrite Hleads, Hlogs, Hact, Hem.
do 2 eexists. rewrite !lookup_insert_eq, lookup_delete_eq.
unfold cl, CallLog.new. simpl_docs. repeat split; reflexivity.
Qed.

End Placement.

Lemma C7_placement_failure_reverts_the_lead_witness :
  let env := Fixtures.env 100 "c1" (TwilioService.CallFailed "provider down") in
  let p' := exec (CallQueue.makeCall env (Fixtures.lead "1" "medium" 1)
                    (Fixtures.agent "u1")) Fixtures.dialing in
  ∃ l' cl',
    leads (CallQueue.db p') !! "1" = Some l'
    ∧ Lead.status l' = "pending" ∧ Lead.assignedTo l' = None
    ∧ Lead.callAttempts l' = 0
    ∧ Lead.callHistory l' = []
    ∧ callLogs (CallQueue.db p') !! "c1" = Some cl'
    ∧ CallLog.lead cl' = "1"
    ∧ CallLog.status cl' = "failed"
    ∧ CallLog.errorMessage cl' = Some "provider down"
    ∧ CallQueue.activeCalls (CallQueue.queue p') !! "1" = None
    ∧ CallQueue.emitted p' = [].
Proof.
  intros env.
  apply (C7_placement_failure_reverts_the_lead env (Fixtures.lead "1" "medium" 1)
           (Fixtures.agent "u1") Fixtures.dialing "provider down" "+15550000000").
  - reflexivity.
  - reflexivity.
  - reflexivity.
  - discriminate.
  - reflexivity.
  - discriminate.
  - reflexivity.
  - reflexivity.
Defined.

(** ** The operator claim route *)

Section Claim.

Lemma validateSync_status (l : Lead.t) :
  Lead.validateSync l = true → Lead.status l ∈ Lead.statusEnum.
Proof. intros H. by apply validateSync_inv in H as (? & _). Qed.

Lemma claimed_not_in_enum : "claimed" ∉ Lead.statusEnum.
Proof. apply (bool_decide_unpack _). vm_compute. exact I. Qed.

(** Whatever [save] stores has passed validation. *)
Lemma save_stores_valid (now : Date) (l : Lead.t) (c c' : gmap ObjectId Lead.t)
    (r : Outcome Lead.t) :
  Lead.save now l c = (r, c') →
  ∀ k x, c' !! k = Some x → c !! k = Some x ∨ Lead.validateSync x = true.
Proof.
  intros Hsave k x Hx.
  destruct (save_cases now l c) as [[e He]|[[He _]|(He & Hv & _)]];
    rewrite He in Hsave; injection Hsave as <- <-; auto.
  destruct (decide (k = Lead._id l)) as [->|Hne].
  - rewrite lookup_insert_eq in Hx. injection Hx as <-. right.
    eapply validateSync_transfer; [exact Hv|by apply validateSync_status|done..].
  - rewrite lookup_insert_ne in Hx by done. auto.
Qed.

(** C9. The claim route never answers 200 and never changes the
    database; when its guards pass, the save of the lead with status
    [claimed] is rejected by schema validation and the route answers 500;
    and no save stores a lead with status [claimed]. *)
Theorem C9_claim_never_succeeds
    (now : Date) (leadId : option RequestId) (userId : ObjectId) (d : Db) :
  result (Routes.claimLead now leadId userId) d ≠ Resolved 200
  ∧ exec (Routes.claimLead now leadId userId) d = d
  ∧ (∀ id l, leadId = Some (IsObjectId id) → id ≠ "" → leads d !! id = Some l →
       Lead.isActive l = true → Lead.status l = "pending" →
       Lead.assignedTo l = None →
       Lead.save now (Lead.setStatus "claimed" (Lead.setAssignedTo (Some userId) l))
         (leads d) = (Rejected "ValidationError", leads d)
       ∧ result (Routes.claimLead now leadId userId) d = Resolved 500)
  ∧ (∀ l c r c', Lead.save now l c = (r, c') →
       ∀ k x, c' !! k = Some x → Lead.status x = "claimed" → c !! k = Some x).
Proof.
  assert (∀ l c, Lead.status l = "claimed" →
            Lead.save now l c = (Rejected "ValidationError", c)) as Hrej.
  { intros l c Hs. apply save_invalid.
    destruct (Lead.validateSync l) eqn:Hv; [|done].
    apply validateSync_status in Hv. rewrite Hs in Hv.
    by apply claimed_not_in_enum in Hv. }
  assert (∀ l, Lead.save now (Lead.setStatus "claimed" (Lead.setAssignedTo (Some userId) l))
              (leads d) = (Rejected "ValidationError", leads d)) as Hclaim
    by (intros l; by apply Hrej).
  assert (setLeads (leads d) d = d) as Hd by (by destruct d).
  split; [|split; [|split]].
  - unfold result, Routes.claimLead, tryCatch, mbind, Async_bind, onLeads, zoom,
      findByRequest, Lead.findById, throw, mret, Async_ret.
    destruct (TwilioService.falsy _); [done|]. cbv beta iota.
    destruct (default (NotObjectId "") leadId) as [id|raw]; [|done].
    destruct (leads d !! id) as [l|]; [|done].
    destruct (negb (Lead.isActive l)); [done|].
    destruct (negb (bool_decide (Lead.status l = "pending"))); [done|].
    destruct (bool_decide (is_Some (Lead.assignedTo l))); [done|].
    rewrite Hclaim. done.
  - unfold exec, Routes.claimLead, tryCatch, mbind, Async_bind, onLeads, zoom,
      findByRequest, Lead.findById, throw, mret, Async_ret.
    destruct (TwilioService.falsy _); [done|]. cbv beta iota.
    destruct (default (NotObjectId "") leadId) as [id|raw]; [|done].
    destruct (leads d !! id) as [l|]; [|done].
    destruct (negb (Lead.isActive l)); [done|].
    destruct (negb (bool_decide (Lead.status l = "pending"))); [done|].
    destruct (bool_decide (is_Some (Lead.assignedTo l))); [done|].
    rewrite Hclaim. done.
  - intros id l -> Hid Hl Hact Hpend Hass. split; [apply Hclaim|].
    unfold result, Routes.claimLead, tryCatch, mbind, Async_bind, onLeads, zoom,
      findByRequest, Lead.findById, mret, Async_ret, TwilioService.falsy.
    cbn [fmap option_fmap option_map requestString].
    rewrite bool_decide_eq_false_2 by done. cbn [default from_option Datatypes.id]. cbv beta iota.
    rewrite Hl, Hact, Hpend, Hass. cbn [negb].
    rewrite bool_decide_eq_true_2 by done. cbn [negb].
    rewrite bool_decide_eq_false_2 by (by intros [? ?]).
    rewrite Hclaim. done.
  - intros l c r c' Hsave k x Hx Hs.
    destruct (save_stores_valid now l c c' r Hsave k x Hx) as [?|Hv]; [done|].
    apply validateSync_status in Hv. rewrite Hs in Hv.
    by apply claimed_not_in_enum in Hv.
Qed.

Lemma C9_claim_never_succeeds_witness :
  Lead.save 50 (Lead.setStatus "claimed"
                  (Lead.setAssignedTo (Some "u1") (Fixtures.lead "1" "low" 1)))
    Fixtures.testLeads = (Rejected "ValidationError", Fixtures.testLeads)
  ∧ result (Routes.claimLead 50 (Some (IsObjectId "1")) "u1")
      (mkDb Fixtures.testLeads ∅ ∅) = Resolved 500.
Proof.
  destruct (C9_claim_never_succeeds 50 (Some (IsObjectId "1")) "u1"
              (mkDb Fixtures.testLeads ∅ ∅))
    as (_ & _ & H & _).
  apply (H "1" (Fixtures.lead "1" "low" 1)); first [reflexivity | discriminate].
Defined.

End Claim.

(** ** State relations kept by composition *)

Section Preserves.

Context {S : Type} (R : relation S) `{!PreOrder R}.

Lemma preserves_ret {A} (a : A) : preserves R (mret a).
Proof. intros s. reflexivity. Qed.

Lemma preserves_throw {A} (e : string) : preserves R (throw (A:=A) e).
Proof. intros s. reflexivity. Qed.

Lemma preserves_get : preserves R get.
Proof. intros s. reflexivity. Qed.

Lemma preserves_bind {A B} (m : Async S A) (k : A → Async S B) :
  preserves R m → (∀ a, preserves R (k a)) → preserves R (m ≫= k).
Proof.
  intros Hm Hk s. specialize (Hm s). unfold exec, mbind, Async_bind in *.
  destruct (m s) as [[a|e] s1]; [|done].
  etrans; [exact Hm | apply Hk].
Qed.

Lemma preserves_tryCatch {A} (m : Async S A) (h : string → Async S A) :
  preserves R m → (∀ e, preserves R (h e)) → preserves R (tryCatch m h).
Proof.
  intros Hm Hh s. specialize (Hm s). unfold exec, tryCatch in *.
  destruct (m s) as [[a|e] s1]; [done|].
  etrans; [exact Hm | apply Hh].
Qed.

Lemma preserves_forEach {A} (xs : list A) (f : A → Async S unit) :
  (∀ x, preserves R (f x)) → preserves R (forEach xs f).
Proof.
  intros Hf. induction xs as [|x xs IH]; simpl.
  - apply preserves_ret.
  - apply preserves_bind; auto.
Qed.

Lemma preserves_modify (f : S → S) : (∀ s, R s (f s)) → preserves R (modify f).
Proof. intros Hf s. apply Hf. Qed.

Lemma preserves_zoom {T A} (proj : S → T) (inj : T → S → S) (m : Async T A) :
  (∀ s t, R s (inj t s)) → preserves R (zoom proj inj m).
Proof. intros Hinj s. unfold exec, zoom. destruct (m (proj s)). apply Hinj. Qed.

End Preserves.

Section Quiet.

#[global] Instance quiet_preorder : PreOrder quiet.
Proof.
  split.
  - intros p. by split.
  - intros p1 p2 p3 [H1 H1'] [H2 H2']. split; [congruence | by etrans].
Qed.

#[global] Instance placesAtMost_preorder id : PreOrder (placesAtMost id).
Proof.
  split.
  - intros p. split; [reflexivity | apply union_subseteq_l].
  - intros p1 p2 p3 [H1 H1'] [H2 H2']. split; [by etrans|].
    etrans; [exact H2'|]. apply union_least; [exact H1' | apply union_subseteq_r].
Qed.

End Quiet.

Section QuietOps.

Lemma quiet_setDb (d : Db) (p : CallQueue.Process) : quiet p (CallQueue.setDb d p).
Proof. by split. Qed.

Lemma quiet_onDb {A} (m : Async Db A) : preserves quiet (CallQueue.onDb m).
Proof. apply preserves_zoom. intros p d. apply quiet_setDb. Qed.

Lemma quiet_activeCallsDelete (k : string) :
  preserves quiet (CallQueue.activeCallsDelete k).
Proof. intros p. split; [done|]. apply delete_subseteq. Qed.

Lemma quiet_emitCallUpdate (e : string) (id : ObjectId) :
  preserves quiet (CallQueue.emitCallUpdate e id).
Proof. intros p. by split. Qed.

Lemma quiet_findAvailableSalesperson :
  preserves quiet CallQueue.findAvailableSalesperson.
Proof.
  apply preserves_tryCatch; [apply _|apply quiet_onDb|].
  intros e. apply preserves_ret, _.
Qed.

Lemma quiet_handleCallCompletion now id status :
  preserves quiet (CallQueue.handleCallCompletion now id status).
Proof.
  unfold CallQueue.handleCallCompletion.
  apply preserves_tryCatch; [apply _| |intros; apply preserves_ret, _].
  apply preserves_bind; [apply _|apply quiet_onDb|]. intros [cl|]; [|apply preserves_ret, _].
  apply preserves_bind; [apply _|apply quiet_activeCallsDelete|]. intros _.
  apply preserves_bind; [apply _|apply quiet_onDb|]. intros lead.
  apply preserves_bind; [apply _|apply quiet_onDb|]. intros _.
  apply preserves_bind; [apply _| |].
  { destruct (CallLog.salesperson cl); [apply quiet_onDb|apply preserves_ret, _]. }
  intros [sp|]; [|apply preserves_ret, _].
  apply preserves_bind; [apply _|apply quiet_onDb|]. intros _. apply preserves_ret, _.
Qed.

Lemma quiet_resetStuckLeads now : preserves quiet (CallQueue.resetStuckLeads now).
Proof.
  unfold CallQueue.resetStuckLeads.
  apply preserves_tryCatch; [apply _| |intros; apply preserves_ret, _].
  apply preserves_bind; [apply _|apply quiet_onDb|]. intros ls.
  destruct (0 <? List.length ls)%nat; [|apply preserves_ret, _].
  apply preserves_forEach; [apply _|]. intros l.
  apply preserves_bind; [apply _|apply quiet_onDb|]. intros _. apply preserves_ret, _.
Qed.

(** What [makeCall] leaves behind. *)
Lemma places_onLeads {A} id (m : Async (gmap ObjectId Lead.t) A) :
  preserves (placesAtMost id) (CallQueue.onDb (onLeads m)).
Proof.
  intros p. unfold exec, CallQueue.onDb, onLeads, zoom.
  destruct (m _) as [r c]. split; [by split|]. simpl. apply union_subseteq_l.
Qed.

Lemma places_insert id (c : CallLog.t) :
  CallLog._id c = id →
  preserves (placesAtMost id) (CallQueue.onDb (onCallLogs (CallLog.insert c))).
Proof.
  intros <- p. split; [by apply quiet_onDb|].
  unfold exec, CallQueue.onDb, onCallLogs, zoom, CallLog.insert.
  repeat case_match; simplify_eq; simpl; try apply union_subseteq_l.
  rewrite dom_insert. by rewrite (comm (∪)).
Qed.

Lemma places_save id now (c : CallLog.t) :
  preserves (placesAtMost id) (CallQueue.onDb (onCallLogs (CallLog.save now c))).
Proof.
  intros p. split; [by apply quiet_onDb|].
  unfold exec, CallQueue.onDb, onCallLogs, zoom, CallLog.save.
  repeat case_match; simplify_eq; simpl; try apply union_subseteq_l.
  rewrite dom_insert. apply union_least; [|apply union_subseteq_l].
  apply singleton_subseteq_l, elem_of_union_l, elem_of_dom. eauto.
Qed.

Lemma places_quiet {A} id (m : Async CallQueue.Process A) :
  (∀ p, CallQueue.db (exec m p) = CallQueue.db p) → preserves quiet m →
  preserves (placesAtMost id) m.
Proof.
  intros Hdb Hq p. split; [apply Hq|]. rewrite Hdb. apply union_subseteq_l.
Qed.

Lemma places_handleCallFailure env lead cl err :
  preserves (placesAtMost (CallQueue.newCallLogId env))
    (CallQueue.handleCallFailure env lead cl err).
Proof.
  unfold CallQueue.handleCallFailure.
  apply preserves_tryCatch; [apply _| |intros; apply preserves_ret, _].
  apply preserves_bind; [apply _|apply places_onLeads|]. intros _.
  apply preserves_bind; [apply _| |].
  { destruct cl; [|apply preserves_ret, _].
    apply preserves_bind; [apply _|apply places_save|]. intros; apply preserves_ret, _. }
  intros _. apply places_quiet; [done|apply quiet_activeCallsDelete].
Qed.

Lemma places_makeCall env lead sp :
  preserves (placesAtMost (CallQueue.newCallLogId env)) (CallQueue.makeCall env lead sp).
Proof.
  unfold CallQueue.makeCall.
  apply preserves_tryCatch; [apply _| |intros; apply places_handleCallFailure].
  apply preserves_bind; [apply _|apply places_onLeads|]. intros lead'.
  apply preserves_tryCatch; [apply _| |intros; apply places_handleCallFailure].
  apply preserves_bind; [apply _|by apply places_insert|]. intros cl.
  destruct (TwilioService.initiateCall _ _ _); [|apply places_handleCallFailure].
  apply preserves_bind; [apply _|apply places_save|]. intros _.
  apply places_quiet; [done|apply quiet_emitCallUpdate].
Qed.

End QuietOps.

(** ** One tick of the dispatcher *)

Section Dispatcher.

Lemma exec_swallow {S A} (m : Async S A) (a : A) (s : S) :
  exec (tryCatch m (fun _ => mret a)) s = exec m s.
Proof. unfold exec, tryCatch. by destruct (m s) as [[?|?] ?]. Qed.

Lemma exec_bind {S A B} (m : Async S A) (k : A → Async S B) (s : S) :
  exec (m ≫= k) s
  = match m s with
    | (Resolved a, s') => exec (k a) s'
    | (Rejected _, s') => s'
    end.
Proof. unfold exec, mbind, Async_bind. by destruct (m s) as [[?|?] ?]. Qed.

Lemma process_eta (p : CallQueue.Process) :
  CallQueue.setDb (CallQueue.db p) p = p.
Proof. by destruct p. Qed.

Lemma db_eta_leads (d : Db) : setLeads (leads d) d = d.
Proof. by destruct d. Qed.

Lemma db_eta_users (d : Db) : setUsers (users d) d = d.
Proof. by destruct d. Qed.

Lemma getNextLeadToCall_run (now : Date) (p : CallQueue.Process) :
  CallQueue.onDb (onLeads (Lead.getNextLeadToCall now)) p
  = (Resolved (findOneSorted (Lead.eligible now) Lead.sortLe
                 (leads (CallQueue.db p))), p).
Proof.
  unfold CallQueue.onDb, onLeads, zoom, Lead.getNextLeadToCall.
  by rewrite db_eta_leads, process_eta.
Qed.

Lemma findAvailableSalesperson_run (p : CallQueue.Process) :
  CallQueue.findAvailableSalesperson p
  = (Resolved (findOneSorted User.available User.sortLe
                 (users (CallQueue.db p))), p).
Proof.
  unfold CallQueue.findAvailableSalesperson, tryCatch, CallQueue.onDb, onUsers, zoom.
  by rewrite db_eta_users, process_eta.
Qed.

(** One tick: the scheduling fields stay; at the cap nothing happens;
    otherwise the working set gains at most one entry, for a lead that
    had none, and the call logs gain at most the one of this tick. *)
Lemma processQueue_tick (env : CallQueue.Env) (p : CallQueue.Process) :
  let p' := exec (CallQueue.processQueue env) p in
  let active q := CallQueue.activeCalls (CallQueue.queue q) in
  sched p' = sched p
  ∧ (CallQueue.maxConcurrentCalls (CallQueue.queue p) <= Z.of_nat (size (active p)) →
     p' = p)
  ∧ (active p' ⊆ active p
     ∨ Z.of_nat (size (active p)) < CallQueue.maxConcurrentCalls (CallQueue.queue p)
       ∧ ∃ k v, active p !! k = None ∧ active p' ⊆ <[k := v]> (active p))
  ∧ dom (callLogs (CallQueue.db p'))
      ⊆ dom (callLogs (CallQueue.db p)) ∪ {[CallQueue.newCallLogId env]}.
Proof.
  intros p' active. subst p'.
  unfold CallQueue.processQueue, get, CallQueue.activeCallsSet, modify.
  rewrite exec_swallow, exec_bind. cbv beta iota.
  destruct (Z.geb_spec (Z.of_nat (size (CallQueue.activeCalls (CallQueue.queue p))))
              (CallQueue.maxConcurrentCalls (CallQueue.queue p))) as [Hcap|Hroom].
  { unfold exec, mret, Async_ret. simpl.
    split; [done|]. split; [done|]. split; [by left|apply union_subseteq_l]. }
  rewrite exec_bind, getNextLeadToCall_run.
  assert (∀ q, q = p → sched q = sched p
    ∧ (CallQueue.maxConcurrentCalls (CallQueue.queue p) <= Z.of_nat (size (active p)) → q = p)
    ∧ (active q ⊆ active p
       ∨ Z.of_nat (size (active p)) < CallQueue.maxConcurrentCalls (CallQueue.queue p)
         ∧ ∃ k v, active p !! k = None ∧ active q ⊆ <[k := v]> (active p))
    ∧ dom (callLogs (CallQueue.db q))
        ⊆ dom (callLogs (CallQueue.db p)) ∪ {[CallQueue.newCallLogId env]}) as Hsame.
  { intros q ->. split; [done|]. split; [done|]. split; [by left|apply union_subseteq_l]. }
  destruct (findOneSorted _ _ (leads _)) as [lead|]; [|by apply Hsame].
  rewrite exec_bind. cbv beta iota.
  destruct (bool_decide (is_Some _)) eqn:Hhas; [by apply Hsame|].
  apply bool_decide_eq_false in Hhas.
  rewrite exec_bind, findAvailableSalesperson_run.
  destruct (findOneSorted _ _ (users _)) as [sp|]; [|by apply Hsame].
  rewrite exec_bind. cbv beta iota.
  match goal with |- context [exec _ ?q] => set (p1 := q) end.
  destruct (places_makeCall env lead sp p1) as [[Hs Ha] Hd].
  unfold active in *.
  split; [by rewrite Hs|]. split; [intros; lia|]. split; [|exact Hd].
  right. split; [lia|]. exists (Lead._id lead). eexists. split; [|exact Ha].
  by apply eq_None_not_Some.
Qed.

End Dispatcher.

(** ** The invariant of the scheduler *)

Section Scheduler.

Lemma sched_inv (p p' : CallQueue.Process) :
  sched p' = sched p →
  CallQueue.isRunning (CallQueue.queue p') = CallQueue.isRunning (CallQueue.queue p)
  ∧ CallQueue.callInterval (CallQueue.queue p') = CallQueue.callInterval (CallQueue.queue p)
  ∧ CallQueue.maxConcurrentCalls (CallQueue.queue p')
    = CallQueue.maxConcurrentCalls (CallQueue.queue p)
  ∧ CallQueue.timers p' = CallQueue.timers p.
Proof. unfold sched. intros [= -> -> -> -> _]. done. Qed.

Lemma schedulerInv_quiet (p p' : CallQueue.Process) :
  schedulerInv p → quiet p p' → schedulerInv p'.
Proof.
  intros (Hmax & Hsize & Htimer) [Hs Ha].
  apply sched_inv in Hs as (Hr & Hi & Hm & Ht).
  unfold schedulerInv. rewrite Hr, Hi, Hm, Ht.
  split; [done|]. split; [|done].
  apply map_subseteq_size in Ha. lia.
Qed.

Lemma schedulerInv_start (p : CallQueue.Process) :
  schedulerInv p → schedulerInv (CallQueue.start p).
Proof.
  intros Hinv. pose proof Hinv as (Hmax & Hsize & Htimer). unfold CallQueue.start.
  destruct (CallQueue.isRunning (CallQueue.queue p)) eqn:Hrun; [exact Hinv|].
  unfold schedulerInv. simpl_docs. split; [done|]. split; [done|]. split; [done|].
  destruct (CallQueue.callInterval (CallQueue.queue p)); destruct Htimer as [? Ht];
    [congruence|].
  rewrite Ht. apply (right_id_L ∅ (∪)).
Qed.

Lemma schedulerInv_stop (p : CallQueue.Process) :
  schedulerInv p → schedulerInv (CallQueue.stop p).
Proof.
  intros Hinv. pose proof Hinv as (Hmax & Hsize & Htimer). unfold CallQueue.stop.
  destruct (CallQueue.isRunning (CallQueue.queue p)) eqn:Hrun; [|exact Hinv].
  cbn [negb]. simpl_docs.
  destruct (CallQueue.callInterval (CallQueue.queue p)) as [h|]; destruct Htimer as [? Ht];
    [|congruence].
  unfold schedulerInv. simpl_docs. split; [done|]. split; [done|]. split; [done|].
  rewrite Ht. apply (difference_diag_L {[h]}).
Qed.

Lemma schedulerInv_tick (env : CallQueue.Env) (p : CallQueue.Process) :
  schedulerInv p → schedulerInv (exec (CallQueue.processQueue env) p).
Proof.
  intros (Hmax & Hsize & Htimer).
  destruct (processQueue_tick env p) as (Hs & _ & Ha & _).
  apply sched_inv in Hs as (Hr & Hi & Hm & Ht).
  unfold schedulerInv. rewrite Hr, Hi, Hm, Ht.
  split; [done|]. split; [|done].
  destruct Ha as [Ha|(Hroom & k & v & Hk & Ha)]; apply map_subseteq_size in Ha.
  - lia.
  - rewrite map_size_insert_None in Ha by done. lia.
Qed.

Lemma schedulerInv_step (a : Step) (p : CallQueue.Process) :
  schedulerInv p → schedulerInv (step a p).
Proof.
  intros Hinv. destruct a; simpl.
  - by apply schedulerInv_start.
  - by apply schedulerInv_stop.
  - unfold CallQueue.pause. destruct (CallQueue.isRunning _); [by apply schedulerInv_stop|done].
  - unfold CallQueue.resume. destruct (negb _); [by apply schedulerInv_start|done].
  - apply schedulerInv_start. eapply schedulerInv_quiet; [exact Hinv|].
    apply quiet_resetStuckLeads.
  - by apply schedulerInv_tick.
  - eapply schedulerInv_quiet; [exact Hinv|]. apply quiet_handleCallCompletion.
  - eapply schedulerInv_quiet; [exact Hinv|]. apply quiet_resetStuckLeads.
  - eapply schedulerInv_quiet; [exact Hinv|]. apply quiet_setDb.
Qed.

Lemma timerInv_sched (p p' : CallQueue.Process) :
  sched p' = sched p → timerInv p → timerInv p'.
Proof.
  intros Hs Htimer. apply sched_inv in Hs as (Hr & Hi & _ & Ht).
  unfold timerInv. by rewrite Hr, Hi, Ht.
Qed.

Lemma timerInv_start (p : CallQueue.Process) : timerInv p → timerInv (CallQueue.start p).
Proof.
  intros Htimer. unfold CallQueue.start.
  destruct (CallQueue.isRunning (CallQueue.queue p)) eqn:Hrun; [exact Htimer|].
  unfold timerInv in *. simpl_docs. split; [done|].
  destruct (CallQueue.callInterval (CallQueue.queue p)); destruct Htimer as [? Ht];
    [congruence|].
  rewrite Ht. apply (right_id_L ∅ (∪)).
Qed.

Lemma timerInv_stop (p : CallQueue.Process) : timerInv p → timerInv (CallQueue.stop p).
Proof.
  intros Htimer. unfold CallQueue.stop.
  destruct (CallQueue.isRunning (CallQueue.queue p)) eqn:Hrun; [|exact Htimer].
  cbn [negb]. simpl_docs. unfold timerInv in *.
  destruct (CallQueue.callInterval (CallQueue.queue p)) as [h|]; destruct Htimer as [? Ht];
    [|congruence].
  simpl_docs. split; [done|].
  rewrite Ht. apply (difference_diag_L {[h]}).
Qed.

Lemma timerInv_step (a : Step) (p : CallQueue.Process) :
  timerInv p → timerInv (step a p).
Proof.
  intros Hinv. destruct a; simpl.
  - by apply timerInv_start.
  - by apply timerInv_stop.
  - unfold CallQueue.pause. destruct (CallQueue.isRunning _); [by apply timerInv_stop|done].
  - unfold CallQueue.resume. destruct (negb _); [by apply timerInv_start|done].
  - apply timerInv_start. eapply timerInv_sched; [|exact Hinv].
    apply quiet_resetStuckLeads.
  - eapply timerInv_sched; [|exact Hinv]. apply processQueue_tick.
  - eapply timerInv_sched; [|exact Hinv]. apply quiet_handleCallCompletion.
  - eapply timerInv_sched; [|exact Hinv]. apply quiet_resetStuckLeads.
  - eapply timerInv_sched; [|exact Hinv]. apply quiet_setDb.
Qed.

(** A tick resumed with its agent: the scheduling fields stay, the
    working set gains at most the entry of the tick's lead, and the call
    logs gain at most the one of this tick. *)
Lemma resumeWithSalesperson_tick env lead salesperson (p : CallQueue.Process) :
  let p' := exec (CallQueue.resumeWithSalesperson env lead salesperson) p in
  let active q := CallQueue.activeCalls (CallQueue.queue q) in
  sched p' = sched p
  ∧ (active p' ⊆ active p
     ∨ ∃ v, active p' ⊆ <[Lead._id lead := v]> (active p))
  ∧ dom (callLogs (CallQueue.db p'))
      ⊆ dom (callLogs (CallQueue.db p)) ∪ {[CallQueue.newCallLogId env]}.
Proof.
  intros p' active. subst p'. unfold CallQueue.resumeWithSalesperson.
  rewrite exec_swallow.
  destruct salesperson as [sp|].
  2:{ split; [done|]. split; [by left|apply union_subseteq_l]. }
  unfold CallQueue.activeCallsSet, modify. rewrite exec_bind. cbv beta iota.
  match goal with |- context [exec _ ?q] => set (p1 := q) end.
  destruct (places_makeCall env lead sp p1) as [[Hs Ha] Hd].
  unfold active. split; [by rewrite Hs|]. split; [|exact Hd].
  right. eexists. exact Ha.
Qed.

(** The parts of a tick, run one after the other without a break, are
    [processQueue]. *)
Lemma processQueue_phases (env : CallQueue.Env) (p : CallQueue.Process) :
  exec (CallQueue.processQueue env) p
  = if CallQueue.belowCap p then
      match CallQueue.resumeWithLead (CallQueue.nextLead env p) p with
      | Some lead =>
          exec (CallQueue.resumeWithSalesperson env lead (CallQueue.freeSalesperson p)) p
      | None => p
      end
    else p.
Proof.
  unfold CallQueue.processQueue, CallQueue.belowCap, CallQueue.resumeWithLead,
    CallQueue.nextLead, CallQueue.freeSalesperson, CallQueue.resumeWithSalesperson, get.
  rewrite !exec_swallow, exec_bind. cbv beta iota.
  destruct (_ >=? _); cbn [negb]; [done|].
  rewrite exec_bind, getNextLeadToCall_run.
  destruct (findOneSorted _ _ (leads _)) as [lead|]; [|done].
  rewrite exec_bind. cbv beta iota.
  destruct (bool_decide (is_Some _)); [done|].
  rewrite exec_bind, findAvailableSalesperson_run.
  by rewrite exec_swallow.
Qed.

Lemma running_timerInv (p : CallQueue.Process) (ts : list Suspended) :
  running p ts → timerInv p.
Proof.
  induction 1 as [d t|a p ts _ IH| | | | |env lead sp p ts1 ts2 _ IH]; try done.
  - by apply timerInv_step.
  - eapply timerInv_sched; [|exact IH]. apply resumeWithSalesperson_tick.
Qed.

Lemma reachable_init (d : Db) (CALL_TIMEOUT : option Z) :
  reachable (CallQueue.mkProcess d (CallQueue.constructor CALL_TIMEOUT) ∅ 0 []).
Proof. exists []. apply running_init. Qed.

Lemma reachable_step (a : Step) (p : CallQueue.Process) :
  reachable p → reachable (step a p).
Proof. intros [ts H]. exists ts. by apply running_step. Qed.

Lemma reachable_timerInv (p : CallQueue.Process) : reachable p → timerInv p.
Proof. intros [ts H]. by eapply running_timerInv. Qed.

End Scheduler.

(** C8. As stated the claim fails. What holds: a tick that no other tick
    overlaps is its parts run back to back; at the cap it changes nothing;
    it adds at most one entry to the working set and at most one call log
    (one call attempt), and so does a suspended tick that resumes; and
    invocations that do not overlap keep the working set within the cap
    of 5. But [processQueue] tests the cap before its two awaits and
    writes its entry after them, and the timer does not wait for a tick
    to return. In the run below the queue is started over six pending
    leads, four ticks place four calls, and two more ticks begin while
    the working set holds 4 entries. The fifth runs to its end and the
    set holds 5; the sixth, suspended since its cap test, then finds its
    lead and the agent and is about to resume; it initiates a call while
    the set holds 5 entries, and the set then holds 6, over the cap. *)
Theorem C8_overlapping_ticks_exceed_the_cap :
  let active q := CallQueue.activeCalls (CallQueue.queue q) in
  let logs q := callLogs (CallQueue.db q) in
  let cap q := CallQueue.maxConcurrentCalls (CallQueue.queue q) in
  (∀ env p,
     let p' := exec (CallQueue.processQueue env) p in
     p' = (if CallQueue.belowCap p then
             match CallQueue.resumeWithLead (CallQueue.nextLead env p) p with
             | Some lead =>
                 exec (CallQueue.resumeWithSalesperson env lead
                         (CallQueue.freeSalesperson p)) p
             | None => p
             end
           else p)
     ∧ (cap p <= Z.of_nat (size (active p)) → p' = p)
     ∧ (size (active p') ≤ S (size (active p)))%nat
     ∧ (size (logs p') ≤ S (size (logs p)))%nat)
  ∧ (∀ env lead salesperson p,
       let p' := exec (CallQueue.resumeWithSalesperson env lead salesperson) p in
       cap p' = cap p
       ∧ (size (active p') ≤ S (size (active p)))%nat
       ∧ (size (logs p') ≤ S (size (logs p)))%nat)
  ∧ (∀ a p, schedulerInv p → schedulerInv (step a p))
  ∧ running Fixtures.atCap
      [SalespersonFound (Fixtures.tick "6" 600) (Fixtures.lead "6" "medium" 6)
         (Some (Fixtures.agent "u1"))]
  ∧ cap Fixtures.atCap = 5
  ∧ size (active Fixtures.atCap) = 5%nat
  ∧ reachable Fixtures.overCap
  ∧ cap Fixtures.overCap = 5
  ∧ size (active Fixtures.overCap) = 6%nat
  ∧ size (logs Fixtures.overCap) = S (size (logs Fixtures.atCap)).
Proof.
  intros active logs cap.
  assert (∀ (X : gset string) (x : string), (size (X ∪ {[x]}) ≤ S (size X))%nat) as Hone.
  { intros X x. rewrite size_union_alt.
    assert (size ({[x]} ∖ X) ≤ 1)%nat; [|lia].
    rewrite <- (size_singleton (C:=gset string) x).
    apply subseteq_size, subseteq_difference_l. done. }
  assert (running Fixtures.fourInFlight []) as H4.
  { unfold Fixtures.fourInFlight. do 5 apply running_step. apply running_init. }
  assert (CallQueue.timers Fixtures.fourInFlight ≠ ∅) as Htimer.
  { intros Hno. apply (f_equal size) in Hno. vm_compute in Hno. discriminate. }
  assert (running Fixtures.atCap
            [SalespersonFound (Fixtures.tick "6" 600) (Fixtures.lead "6" "medium" 6)
               (Some (Fixtures.agent "u1"))]) as H5.
  { pose proof (running_tick (Fixtures.tick "6" 600) _ _
                  (running_tick (Fixtures.tick "5" 500) _ _ H4 Htimer eq_refl)
                  Htimer eq_refl) as H.
    apply (running_leadFound _ _ [AwaitLead (Fixtures.tick "6" 600)] []) in H.
    apply (running_withLead _ _ _ [AwaitLead (Fixtures.tick "6" 600)] []) in H.
    assert (CallQueue.nextLead (Fixtures.tick "5" 500) Fixtures.fourInFlight
            = Some (Fixtures.lead "5" "medium" 5)) as Hlead by (vm_compute; reflexivity).
    rewrite Hlead in H.
    assert (CallQueue.resumeWithLead (Some (Fixtures.lead "5" "medium" 5))
              Fixtures.fourInFlight
            = Some (Fixtures.lead "5" "medium" 5)) as Hgo by (vm_compute; reflexivity).
    rewrite Hgo in H.
    apply (running_salespersonFound _ _ _ [AwaitLead (Fixtures.tick "6" 600)] []) in H.
    assert (CallQueue.freeSalesperson Fixtures.fourInFlight = Some (Fixtures.agent "u1"))
      as Hsp by (vm_compute; reflexivity).
    rewrite Hsp in H.
    apply (running_withSalesperson _ _ _ _ [AwaitLead (Fixtures.tick "6" 600)] []) in H.
    fold Fixtures.atCap in H.
    apply (running_leadFound _ _ [] []) in H.
    apply (running_withLead _ _ _ [] []) in H.
    assert (CallQueue.nextLead (Fixtures.tick "6" 600) Fixtures.atCap
            = Some (Fixtures.lead "6" "medium" 6)) as Hlead6 by (vm_compute; reflexivity).
    rewrite Hlead6 in H.
    assert (CallQueue.resumeWithLead (Some (Fixtures.lead "6" "medium" 6)) Fixtures.atCap
            = Some (Fixtures.lead "6" "medium" 6)) as Hgo6 by (vm_compute; reflexivity).
    rewrite Hgo6 in H.
    apply (running_salespersonFound _ _ _ [] []) in H.
    assert (CallQueue.freeSalesperson Fixtures.atCap = Some (Fixtures.agent "u1"))
      as Hsp6 by (vm_compute; reflexivity).
    rewrite Hsp6 in H. exact H. }
  split; [|split; [|split; [|split; [|split; [|split; [|split; [|split; [|split]]]]]]]].
  - intros env p p'. subst p'.
    split; [apply processQueue_phases|].
    destruct (processQueue_tick env p) as (_ & Hcap & Ha & Hd).
    split; [exact Hcap|]. split.
    + unfold active.
      destruct Ha as [Ha|(Hroom & k & v & Hk & Ha)]; apply map_subseteq_size in Ha.
      * lia.
      * rewrite map_size_insert_None in Ha by done. lia.
    + apply subseteq_size in Hd. rewrite !size_dom in Hd.
      etransitivity; [exact Hd|]. rewrite <- size_dom. apply Hone.
  - intros env lead sp p p'. subst p'.
    destruct (resumeWithSalesperson_tick env lead sp p) as (Hs & Ha & Hd).
    apply sched_inv in Hs as (_ & _ & Hm & _).
    split; [exact Hm|]. split.
    + unfold active. destruct Ha as [Ha|[v Ha]]; apply map_subseteq_size in Ha.
      * lia.
      * rewrite map_size_insert in Ha. cbv beta zeta in Ha.
        match type of Ha with context [?m !! ?k] => destruct (m !! k) end;
          [apply Nat.le_le_succ_r|]; exact Ha.
    + apply subseteq_size in Hd. rewrite !size_dom in Hd.
      etransitivity; [exact Hd|]. rewrite <- size_dom. apply Hone.
  - apply schedulerInv_step.
  - exact H5.
  - vm_compute. reflexivity.
  - vm_compute. reflexivity.
  - exists []. apply (running_withSalesperson _ _ _ _ [] [] H5).
  - vm_compute. reflexivity.
  - vm_compute. reflexivity.
  - vm_compute. reflexivity.
Qed.

Lemma stop_isRunning (p : CallQueue.Process) :
  CallQueue.isRunning (CallQueue.queue (CallQueue.stop p)) = false.
Proof.
  unfold CallQueue.stop.
  destruct (CallQueue.isRunning (CallQueue.queue p)) eqn:Hrun; cbn [negb]; [|done].
  simpl_docs. by destruct (CallQueue.callInterval (CallQueue.queue p)).
Qed.

Lemma start_isRunning (p : CallQueue.Process) :
  CallQueue.isRunning (CallQueue.queue (CallQueue.start p)) = true.
Proof.
  unfold CallQueue.start.
  by destruct (CallQueue.isRunning (CallQueue.queue p)) eqn:Hrun.
Qed.

(** C10. In every state of the process: [start] while running and [stop]
    while not running change nothing (so no second timer is armed and
    [isRunning] keeps its value); [pause] and [resume] are idempotent; at
    most one timer is armed; and [getStatus] reports [isRunning] exactly
    when a timer is armed. *)
Theorem C10_start_stop_pause_resume_idempotent
    (p : CallQueue.Process) (Hp : reachable p) :
  (CallQueue.isRunning (CallQueue.queue p) = true → CallQueue.start p = p)
  ∧ (CallQueue.isRunning (CallQueue.queue p) = false → CallQueue.stop p = p)
  ∧ CallQueue.pause (CallQueue.pause p) = CallQueue.pause p
  ∧ CallQueue.resume (CallQueue.resume p) = CallQueue.resume p
  ∧ (size (CallQueue.timers p) ≤ 1)%nat
  ∧ (CallQueue.st_isRunning (CallQueue.getStatus p) = true
     ↔ CallQueue.timers p ≠ ∅).
Proof.
  pose proof (reachable_timerInv p Hp) as Htimer. unfold timerInv in Htimer.
  split; [|split; [|split; [|split; [|split]]]].
  - intros Hrun. unfold CallQueue.start. by rewrite Hrun.
  - intros Hrun. unfold CallQueue.stop. by rewrite Hrun.
  - unfold CallQueue.pause.
    destruct (CallQueue.isRunning (CallQueue.queue p)) eqn:Hrun.
    + by rewrite stop_isRunning.
    + by rewrite Hrun.
  - unfold CallQueue.resume.
    destruct (CallQueue.isRunning (CallQueue.queue p)) eqn:Hrun; cbn [negb].
    + by rewrite Hrun.
    + by rewrite start_isRunning.
  - destruct (CallQueue.callInterval (CallQueue.queue p)) as [h|];
      destruct Htimer as [_ ->].
    + by rewrite size_singleton.
    + rewrite size_empty. lia.
  - unfold CallQueue.getStatus. simpl.
    destruct (CallQueue.callInterval (CallQueue.queue p)) as [h|];
      destruct Htimer as [-> ->].
    + split; [intros _|done]. apply non_empty_singleton_L.
    + split; [done|]. by intros [].
Qed.

Lemma C10_start_stop_pause_resume_idempotent_witness :
  let p := step Start (Fixtures.fresh Fixtures.db) in
  CallQueue.start p = p
  ∧ CallQueue.st_isRunning (CallQueue.getStatus p) = true
  ∧ CallQueue.timers p ≠ ∅.
Proof.
  intros p.
  destruct (C10_start_stop_pause_resume_idempotent p) as (H1 & _ & _ & _ & _ & H2).
  - apply reachable_step, reachable_init.
  - split; [apply H1; reflexivity|]. split; [reflexivity|].
    apply H2. reflexivity.
Defined.

(** ** Stuck-lead recovery *)

Section Recovery.

Context (now : Date).

Local Abbreviation reset l :=
  (Lead.setUpdatedAt now (Lead.setAssignedTo None (Lead.setStatus "pending" l))).

Local Abbreviation body :=
  (fun lead : Lead.t =>
     CallQueue.onDb (onLeads (Lead.save now
       (Lead.setAssignedTo None (Lead.setStatus "pending" lead)))) ;; mret tt).

Lemma withLeads_eta (p : CallQueue.Process) :
  CallQueue.setDb (setLeads (leads (CallQueue.db p)) (CallQueue.db p)) p = p.
Proof. by rewrite db_eta_leads, process_eta. Qed.

Lemma NoDup_fmap_filter {A B} (f : A → B) (P : A → bool) (l : list A) :
  NoDup (f <$> l) → NoDup (f <$> List.filter P l).
Proof.
  induction l as [|a l IH]; simpl; [done|].
  rewrite NoDup_cons. intros [Ha Hl].
  destruct (P a); simpl; [|by apply IH].
  apply NoDup_cons. split; [|by apply IH].
  intros Hin. apply Ha.
  apply list_elem_of_fmap in Hin as (x & -> & Hx).
  apply list_elem_of_fmap. exists x. split; [done|].
  apply list_elem_of_In, List.filter_In in Hx as [Hx _]. by apply list_elem_of_In.
Qed.

Lemma wfLeads_ids (c : gmap ObjectId Lead.t) :
  wfLeads c → Lead._id <$> docs c = (map_to_list c).*1.
Proof.
  intros Hwf. unfold docs. rewrite <- list_fmap_compose.
  apply list_fmap_ext. intros i [k l] Hi. simpl.
  apply list_elem_of_lookup_2, elem_of_map_to_list in Hi.
  by destruct (Hwf k l Hi).
Qed.

Lemma find_NoDup (P : Lead.t → bool) (c : gmap ObjectId Lead.t) :
  wfLeads c → NoDup (Lead._id <$> find P c).
Proof.
  intros Hwf. unfold find. apply NoDup_fmap_filter.
  rewrite wfLeads_ids by done. apply NoDup_fst_map_to_list.
Qed.

Lemma find_stored (P : Lead.t → bool) (c : gmap ObjectId Lead.t) (l : Lead.t) :
  wfLeads c → l ∈ find P c →
  P l = true ∧ c !! Lead._id l = Some l ∧ Lead.validateSync l = true.
Proof.
  intros Hwf Hl. apply elem_of_find in Hl as [HP [k Hk]].
  destruct (Hwf k l Hk) as [<- Hv]. done.
Qed.

(** The loop of [resetStuckLeads] over leads that are stored, valid, in
    [calling] and pairwise distinct: every save is accepted. *)
Lemma resetLoop (ls : list Lead.t) (p : CallQueue.Process) :
  NoDup (Lead._id <$> ls) →
  (∀ l, l ∈ ls → leads (CallQueue.db p) !! Lead._id l = Some l
                 ∧ Lead.validateSync l = true ∧ Lead.status l = "calling") →
  ∃ c', forEach ls body p
        = (Resolved tt, CallQueue.setDb (setLeads c' (CallQueue.db p)) p)
      ∧ (∀ l, l ∈ ls → c' !! Lead._id l = Some (reset l))
      ∧ (∀ k, k ∉ Lead._id <$> ls → c' !! k = leads (CallQueue.db p) !! k).
Proof.
  revert p. induction ls as [|x ls IH]; intros p Hnd Hls.
  - exists (leads (CallQueue.db p)). simpl. rewrite withLeads_eta.
    split; [done|]. split; [|done]. intros l Hl. by apply elem_of_nil in Hl.
  - rewrite fmap_cons in Hnd. apply NoDup_cons in Hnd as [Hx Hnd].
    destruct (Hls x) as (Hsx & Hvx & Hcx); [left|].
    set (p1 := CallQueue.setDb
                 (setLeads (<[Lead._id x := reset x]> (leads (CallQueue.db p)))
                    (CallQueue.db p)) p).
    assert (body x p = (Resolved tt, p1)) as Hstep.
    { cbv beta. await.
      { on_db. eapply save_write; [|exact Hsx|].
        - eapply validateSync_transfer; [exact Hvx|in_enum|done..].
        - intros Heq. apply (f_equal Lead.status) in Heq. simpl_docs.
          by rewrite Hcx in Heq. }
      reflexivity. }
    destruct (IH p1) as (c' & Hrun & Hin & Hout); [done| |].
    { intros l Hl. destruct (Hls l) as (Hsl & Hvl & Hcl); [by right|].
      split; [|done]. unfold p1. simpl_docs. rewrite lookup_insert_ne; [done|].
      intros Heq. apply Hx. rewrite Heq. apply list_elem_of_fmap. eauto. }
    exists c'. split; [|split].
    + simpl. erewrite bind_resolved; [|exact Hstep]. rewrite Hrun.
      unfold p1. by destruct p as [[? ? ?] ? ? ? ?].
    + intros l Hl. apply elem_of_cons in Hl as [->|Hl]; [|by apply Hin].
      rewrite Hout by done. unfold p1. simpl_docs. apply lookup_insert_eq.
    + intros k Hk. rewrite fmap_cons, not_elem_of_cons in Hk. destruct Hk as [Hk1 Hk2].
      rewrite Hout by done. unfold p1. simpl_docs. by rewrite lookup_insert_ne.
Qed.

Lemma stuck_status (l : Lead.t) :
  CallQueue.stuck now l = true → Lead.status l = "calling".
Proof.
  unfold CallQueue.stuck. rewrite andb_true_iff, bool_decide_eq_true. tauto.
Qed.

Lemma resetStuckLeads_run (p : CallQueue.Process) :
  wfLeads (leads (CallQueue.db p)) →
  ∃ c', exec (CallQueue.resetStuckLeads now) p
        = CallQueue.setDb (setLeads c' (CallQueue.db p)) p
      ∧ (∀ k l, leads (CallQueue.db p) !! k = Some l →
           c' !! k = Some (if CallQueue.stuck now l then reset l else l))
      ∧ (∀ k, leads (CallQueue.db p) !! k = None → c' !! k = None).
Proof.
  intros Hwf.
  set (ls := find (CallQueue.stuck now) (leads (CallQueue.db p))).
  destruct (resetLoop ls p) as (c' & Hrun & Hin & Hout).
  { by apply find_NoDup. }
  { intros l Hl. apply find_stored in Hl as (Hs & Hl & Hv); [|done].
    split; [done|]. split; [done|]. by apply stuck_status. }
  assert (∀ k l, leads (CallQueue.db p) !! k = Some l →
            CallQueue.stuck now l = false → k ∉ Lead._id <$> ls) as Hfresh.
  { intros k l Hk Hs Hin'. apply list_elem_of_fmap in Hin' as (l2 & -> & Hl2).
    apply find_stored in Hl2 as (Hs2 & Hl2 & _); [|done]. congruence. }
  exists c'. split; [|split].
  - unfold CallQueue.resetStuckLeads. rewrite exec_swallow, exec_bind.
    unfold CallQueue.onDb at 1, onLeads at 1, zoom. simpl_docs.
    rewrite withLeads_eta. fold ls.
    destruct (0 <? List.length ls)%nat eqn:Hlen.
    + unfold exec. by rewrite Hrun.
    + destruct ls; [|done]. simpl in Hrun. by injection Hrun as <-.
  - intros k l Hk. destruct (CallQueue.stuck now l) eqn:Hs.
    + destruct (Hwf k l Hk) as [<- _]. apply Hin, elem_of_find. eauto.
    + rewrite Hout; [done|]. by eapply Hfresh.
  - intros k Hk. rewrite Hout; [done|].
    intros Hin'. apply list_elem_of_fmap in Hin' as (l2 & -> & Hl2).
    apply find_stored in Hl2 as (_ & Hl2 & _); [|done]. congruence.
Qed.

End Recovery.

(** C6. Over a well-formed collection of leads, stuck-lead recovery
    stores every lead that is in [calling] and was last updated more
    than five minutes ago with status [pending] and [assignedTo] cleared,
    its [callAttempts], its [callHistory] and every other field but
    [updatedAt] as before; every other lead is left as it is; no lead
    appears or disappears; and the call logs, the users and the queue
    are untouched. *)
Theorem C6_recovery_resets_exactly_the_stuck_leads
    (now : Date) (p : CallQueue.Process) :
  wfLeads (leads (CallQueue.db p)) →
  let p' := exec (CallQueue.resetStuckLeads now) p in
  (∀ k l, leads (CallQueue.db p) !! k = Some l →
     ∃ l', leads (CallQueue.db p') !! k = Some l'
       ∧ if CallQueue.stuck now l
         then l' = Lead.setUpdatedAt now
                     (Lead.setAssignedTo None (Lead.setStatus "pending" l))
              ∧ Lead.status l' = "pending" ∧ Lead.assignedTo l' = None
              ∧ Lead.callAttempts l' = Lead.callAttempts l
              ∧ Lead.callHistory l' = Lead.callHistory l
         else l' = l)
  ∧ (∀ k, leads (CallQueue.db p) !! k = None → leads (CallQueue.db p') !! k = None)
  ∧ callLogs (CallQueue.db p') = callLogs (CallQueue.db p)
  ∧ users (CallQueue.db p') = users (CallQueue.db p)
  ∧ CallQueue.queue p' = CallQueue.queue p.
Proof.
  intros Hwf p'. destruct (resetStuckLeads_run now p Hwf) as (c' & Hrun & Hin & Hout).
  subst p'. rewrite Hrun. simpl_docs. split; [|done].
  intros k l Hk. eexists. split; [by apply Hin|].
  by destruct (CallQueue.stuck now l).
Qed.

Lemma C6_recovery_resets_exactly_the_stuck_leads_witness :
  let p' := exec (CallQueue.resetStuckLeads (10 + 6 * 60 * 1000)) Fixtures.inFlight in
  ∃ l', leads (CallQueue.db p') !! "1" = Some l'
      ∧ Lead.status l' = "pending" ∧ Lead.assignedTo l' = None
      ∧ Lead.callAttempts l' = 0 ∧ Lead.callHistory l' = [].
Proof.
  intros p'.
  destruct (C6_recovery_resets_exactly_the_stuck_leads (10 + 6 * 60 * 1000)
              Fixtures.inFlight) as (H & _).
  - apply (bool_decide_unpack _). vm_compute. exact I.
  - destruct (H "1" Fixtures.callingLead) as (l' & Hl' & Hreset); [reflexivity|].
    exists l'. split; [exact Hl'|].
    destruct Hreset as (_ & H1 & H2 & H3 & H4). done.
Defined.

(** ** What changes [callAttempts] *)

Section Attempts.

Lemma applyCallStatus_status_enum now s d n l :
  Lead.countsAsAttempt s = true →
  Lead.status (Lead.applyCallStatus now s d n l) ∈ Lead.statusEnum.
Proof.
  intros Hs. apply countsAsAttempt_iff in Hs.
  unfold Lead.applyCallStatus.
  destruct Hs as [->|[->|[->| ->]]]; simpl;
    repeat case_match; simpl_docs; in_enum.
Qed.

(** A counted outcome on a stored lead whose incremented count passes
    the schema is saved. *)
Lemma updateCallStatus_counts now s d n l (c : gmap ObjectId Lead.t) :
  Lead.countsAsAttempt s = true →
  c !! Lead._id l = Some l →
  Lead.priority l ∈ Lead.priorityEnum →
  Lead.callAttempts l + 1 <= 5 →
  Lead.updateCallStatus now s d n l c
  = (Resolved (Lead.setUpdatedAt now (Lead.applyCallStatus now s d n l)),
     <[Lead._id l := Lead.setUpdatedAt now (Lead.applyCallStatus now s d n l)]> c).
Proof.
  intros Hs Hc Hp Hle.
  pose proof (applyCallStatus_callAttempts now s d n l) as Hn. rewrite Hs in Hn.
  unfold Lead.updateCallStatus.
  rewrite <- (applyCallStatus_id now s d n l).
  apply save_write with (stored := l).
  - apply validateSync_inv.
    rewrite applyCallStatus_priority, Hn.
    split; [by apply applyCallStatus_status_enum|]. split; [done|lia].
  - by rewrite applyCallStatus_id.
  - intros Heq. rewrite Heq in Hn at 2. lia.
Qed.

(** The reconcilers touch the lead only for [busy], [no-answer] and
    [failed]. *)
Lemma reconcileLead_other now s d lead (db : Db) :
  s ∉ ["busy"; "no-answer"; "failed"] →
  TwilioService.reconcileLead now s d lead db = (Resolved tt, db).
Proof.
  intros Hs. unfold TwilioService.reconcileLead.
  destruct lead as [l|]; [|done].
  repeat case_match; try done.
  by rewrite bool_decide_eq_false_2 in * by done.
Qed.

#[global] Instance keepsAttempts_preorder id n : PreOrder (keepsAttempts id n).
Proof.
  split.
  - intros p _ k. done.
  - intros p1 p2 p3 H12 H23 H1 k.
    rewrite H23; [by apply H12|]. by rewrite H12.
Qed.

Lemma preserves_bind_result {S A B} (R : relation S) `{!PreOrder R}
    (Q : A → Prop) (m : Async S A) (k : A → Async S B) :
  (∀ s a s', m s = (Resolved a, s') → Q a) →
  preserves R m → (∀ a, Q a → preserves R (k a)) → preserves R (m ≫= k).
Proof.
  intros HQ Hm Hk s. specialize (Hm s). unfold exec, mbind, Async_bind in *.
  destruct (m s) as [[a|e] s1] eqn:Hms; [|done].
  etrans; [exact Hm | apply Hk]. by eapply HQ.
Qed.

Lemma keeps_save now (l : Lead.t) :
  preserves (keepsAttempts (Lead._id l) (Lead.callAttempts l))
    (CallQueue.onDb (onLeads (Lead.save now l))).
Proof.
  intros p Hn k. unfold exec, CallQueue.onDb, onLeads, zoom.
  destruct (save_cases now l (leads (CallQueue.db p)))
    as [[e He]|[[He _]|(He & _ & _)]]; rewrite He; simpl_docs; [done..|].
  unfold attemptsOf in *.
  destruct (decide (k = Lead._id l)) as [->|Hne].
  - by rewrite lookup_insert_eq, Hn.
  - by rewrite lookup_insert_ne.
Qed.

Lemma save_result now (l a : Lead.t) (p p' : CallQueue.Process) :
  CallQueue.onDb (onLeads (Lead.save now l)) p = (Resolved a, p') →
  Lead._id a = Lead._id l ∧ Lead.callAttempts a = Lead.callAttempts l.
Proof.
  unfold CallQueue.onDb, onLeads, zoom.
  destruct (save_cases now l (leads (CallQueue.db p)))
    as [[e He]|[[He _]|(He & _ & _)]]; rewrite He; intros [= <- _]; done.
Qed.

Lemma keeps_leads_untouched {A} id n (m : Async CallQueue.Process A) :
  (∀ p, leads (CallQueue.db (exec m p)) = leads (CallQueue.db p)) →
  preserves (keepsAttempts id n) m.
Proof. intros H p _ k. by rewrite H. Qed.

Lemma keeps_onCallLogs {A} id n (m : Async (gmap ObjectId CallLog.t) A) :
  preserves (keepsAttempts id n) (CallQueue.onDb (onCallLogs m)).
Proof.
  apply keeps_leads_untouched. intros p.
  unfold exec, CallQueue.onDb, onCallLogs, zoom. by destruct (m _).
Qed.

Lemma keeps_handleCallFailure env (lead : Lead.t) cl err :
  preserves (keepsAttempts (Lead._id lead) (Lead.callAttempts lead))
    (CallQueue.handleCallFailure env lead cl err).
Proof.
  unfold CallQueue.handleCallFailure.
  apply preserves_tryCatch; [apply _| |intros; apply preserves_ret, _].
  apply preserves_bind; [apply _| |].
  { apply (keeps_save _ (Lead.setAssignedTo None (Lead.setStatus "pending" lead))). }
  intros _. apply preserves_bind; [apply _| |].
  { destruct cl; [|apply preserves_ret, _].
    apply preserves_bind; [apply _|apply keeps_onCallLogs|].
    intros; apply preserves_ret, _. }
  intros _. by apply keeps_leads_untouched.
Qed.

Lemma keeps_makeCall env (lead : Lead.t) sp :
  preserves (keepsAttempts (Lead._id lead) (Lead.callAttempts lead))
    (CallQueue.makeCall env lead sp).
Proof.
  unfold CallQueue.makeCall.
  apply preserves_tryCatch; [apply _| |].
  2:{ intros e.
      apply (keeps_handleCallFailure env
               (Lead.setAssignedTo (Some (User._id sp)) (Lead.setStatus "calling" lead))). }
  apply (preserves_bind_result _
           (fun a => Lead._id a = Lead._id lead
                     ∧ Lead.callAttempts a = Lead.callAttempts lead)).
  { intros s a s' Hs. by apply save_result in Hs. }
  { apply (keeps_save _ (Lead.setAssignedTo (Some (User._id sp))
                           (Lead.setStatus "calling" lead))). }
  intros lead' [Hid Hn]. rewrite <- Hid, <- Hn.
  apply preserves_tryCatch; [apply _| |intros; apply keeps_handleCallFailure].
  apply preserves_bind; [apply _|apply keeps_onCallLogs|]. intros cl.
  destruct (TwilioService.initiateCall _ _ _); [|apply keeps_handleCallFailure].
  apply preserves_bind; [apply _|apply keeps_onCallLogs|]. intros _.
  by apply keeps_leads_untouched.
Qed.

(** A tick of the dispatcher changes no lead's [callAttempts], whether
    the call is placed or the placement fails. *)
Lemma processQueue_attempts env (p : CallQueue.Process) (k : ObjectId) :
  wfLeads (leads (CallQueue.db p)) →
  attemptsOf (leads (CallQueue.db (exec (CallQueue.processQueue env) p))) k
  = attemptsOf (leads (CallQueue.db p)) k.
Proof.
  intros Hwf.
  unfold CallQueue.processQueue, get, CallQueue.activeCallsSet, modify.
  rewrite exec_swallow, exec_bind. cbv beta iota.
  destruct (_ >=? _); [done|].
  rewrite exec_bind, getNextLeadToCall_run.
  destruct (findOneSorted _ _ (leads _)) as [lead|] eqn:Hlead; [|done].
  rewrite exec_bind. cbv beta iota.
  destruct (bool_decide (is_Some _)); [done|].
  rewrite exec_bind, findAvailableSalesperson_run.
  destruct (findOneSorted _ _ (users _)) as [sp|]; [|done].
  rewrite exec_bind. cbv beta iota.
  match goal with |- context [exec _ ?q] => set (p1 := q) end.
  apply findOneSorted_Some in Hlead as [_ [k0 Hk0]].
  destruct (Hwf k0 lead Hk0) as [<- _].
  rewrite (keeps_makeCall env lead sp p1); [done|].
  unfold attemptsOf, p1. simpl_docs. by rewrite Hk0.
Qed.

Lemma resetStuckLeads_attempts now (p : CallQueue.Process) (k : ObjectId) :
  wfLeads (leads (CallQueue.db p)) →
  attemptsOf (leads (CallQueue.db (exec (CallQueue.resetStuckLeads now) p))) k
  = attemptsOf (leads (CallQueue.db p)) k.
Proof.
  intros Hwf. destruct (resetStuckLeads_run now p Hwf) as (c' & -> & Hin & Hout).
  simpl_docs. unfold attemptsOf.
  destruct (leads (CallQueue.db p) !! k) as [l|] eqn:Hk.
  - rewrite (Hin k l Hk). by destruct (CallQueue.stuck now l).
  - by rewrite (Hout k Hk).
Qed.

End Attempts.

(** ** Repeated and late callbacks *)

Section Callbacks.

Lemma applyStatus_status now s d c :
  CallLog.status (CallLog.applyStatus now s d c) = s.
Proof.
  unfold CallLog.applyStatus, CallLog.applyAdditionalData, CallLog.assign.
  destruct d as [[?|] [?|] [?|] [?|]]; simpl_docs; repeat case_match; done.
Qed.

Lemma exec_rethrow {S A} (m : Async S A) (s : S) :
  exec (tryCatch m (fun e => throw e)) s = exec m s.
Proof. unfold exec, tryCatch, throw. by destruct (m s) as [[?|?] ?]. Qed.

Lemma no_answer_not_in_enum : "no-answer" ∉ Lead.statusEnum.
Proof. apply (bool_decide_unpack _). vm_compute. exact I. Qed.

Lemma reconcileLead_callLogs now s d lead (db : Db) :
  callLogs (exec (TwilioService.reconcileLead now s d lead) db) = callLogs db
  ∧ users (exec (TwilioService.reconcileLead now s d lead) db) = users db.
Proof.
  unfold TwilioService.reconcileLead. destruct lead as [l|]; [|done].
  repeat case_match; try done.
  rewrite exec_bind. unfold onLeads, zoom.
  by destruct (Lead.updateCallStatus _ _ _ _ _ _) as [[?|?] ?].
Qed.

(** A lead retired at the cap is still retired after the reconcilers'
    update of the lead of the call, whatever the status reported. *)
Lemma reconcileLead_retired now s d (db : Db) (k0 k : ObjectId) (l : Lead.t) :
  wfLeads (leads db) → leads db !! k = Some l → retired l →
  wfLeads (leads (exec (TwilioService.reconcileLead now s d (leads db !! k0)) db))
  ∧ ∃ l', leads (exec (TwilioService.reconcileLead now s d (leads db !! k0)) db) !! k
          = Some l' ∧ retired l'.
Proof.
  intros Hwf Hk Hret.
  assert (wfLeads (leads db) ∧ ∃ l', leads db !! k = Some l' ∧ retired l') as Hsame
    by eauto.
  unfold TwilioService.reconcileLead.
  destruct (leads db !! k0) as [l0|] eqn:Hk0; [|done].
  repeat case_match; try done.
  rewrite exec_bind. unfold onLeads, zoom, Lead.updateCallStatus.
  destruct (Hwf k0 l0 Hk0) as [Hid0 Hv0].
  destruct (save_cases now (Lead.applyCallStatus now s d "" l0) (leads db))
    as [[e He]|[[He _]|(He & Hv & _)]]; rewrite He; cbv beta iota;
    unfold exec, mret, Async_ret; simpl_docs; [exact Hsame..|].
  rewrite applyCallStatus_id, Hid0.
  assert (Lead.countsAsAttempt s = true) as Hcount.
  { destruct (Lead.countsAsAttempt s) eqn:Hc; [done|]. exfalso.
    apply validateSync_status in Hv. revert Hv.
    unfold Lead.applyCallStatus. rewrite Hc. simpl_docs. intros Hs.
    assert (s = "no-answer") as ->; [|by apply no_answer_not_in_enum in Hs].
    match goal with H : bool_decide (s ∈ _) = true |- _ =>
      apply bool_decide_eq_true in H; revert H end.
    rewrite !elem_of_cons, elem_of_nil. intros [->|[->|[->|[]]]]; done. }
  split.
  - apply map_Forall_insert_2; [|done]. split.
    + simpl_docs. by rewrite applyCallStatus_id.
    + eapply validateSync_transfer; [exact Hv|by apply validateSync_status|done..].
  - destruct (decide (k = k0)) as [->|Hne].
    + rewrite lookup_insert_eq. eexists. split; [done|].
      assert (l0 = l) as -> by congruence.
      destruct Hret as (_ & _ & Hn).
      destruct (applyCallStatus_capped now s d "" l Hcount) as [Hs Ha]; [lia|].
      unfold retired. simpl_docs.
      rewrite Hs, Ha, applyCallStatus_callAttempts, Hcount. repeat split; lia.
    + rewrite lookup_insert_ne by done. eauto.
Qed.

Lemma onCallLogs_leads {A} (m : Async (gmap ObjectId CallLog.t) A) (db : Db) :
  leads (exec (onCallLogs m) db) = leads db.
Proof. unfold exec, onCallLogs, zoom. by destruct (m _). Qed.

Lemma handleCallStatusUpdate_retired now cl ts dur (db : Db) (k : ObjectId) (l : Lead.t) :
  wfLeads (leads db) → leads db !! k = Some l → retired l →
  ∃ l', leads (exec (TwilioService.handleCallStatusUpdate now cl ts dur) db) !! k
        = Some l' ∧ retired l'.
Proof.
  intros Hwf Hk Hret. unfold TwilioService.handleCallStatusUpdate.
  rewrite exec_rethrow. destruct (TwilioService.mapStatus ts dur) as [status ad].
  rewrite exec_bind.
  pose proof (onCallLogs_leads (CallLog.updateStatus now status ad cl) db) as Hl.
  unfold exec in Hl.
  destruct (onCallLogs _ db) as [[a|e] db1]; simpl in Hl.
  - rewrite exec_bind. unfold onLeads at 1, zoom, Lead.findById. cbv beta iota.
    rewrite db_eta_leads.
    refine (proj2 (reconcileLead_retired now status dur db1 (CallLog.lead cl) k l _ _ Hret));
      by rewrite Hl.
  - rewrite Hl. eauto.
Qed.

Lemma findById_run (id : ObjectId) (p : CallQueue.Process) :
  CallQueue.onDb (onCallLogs (CallLog.findById id)) p
  = (Resolved (callLogs (CallQueue.db p) !! id), p).
Proof.
  unfold CallQueue.onDb, onCallLogs, zoom, CallLog.findById.
  destruct p as [[? ? ?] ? ? ? ?]. done.
Qed.

Lemma Lead_findById_run (id : ObjectId) (p : CallQueue.Process) :
  CallQueue.onDb (onLeads (Lead.findById id)) p
  = (Resolved (leads (CallQueue.db p) !! id), p).
Proof.
  unfold CallQueue.onDb, onLeads, zoom, Lead.findById.
  destruct p as [[? ? ?] ? ? ? ?]. done.
Qed.

Lemma User_findById_run (id : ObjectId) (p : CallQueue.Process) :
  CallQueue.onDb (onUsers (User.findById id)) p
  = (Resolved (users (CallQueue.db p) !! id), p).
Proof.
  unfold CallQueue.onDb, onUsers, zoom, User.findById.
  destruct p as [[? ? ?] ? ? ? ?]. done.
Qed.

(** A query on a string that is not the text of an ObjectId rejects and
    leaves its collection as it is. *)
Lemma onLeads_throw {A} (e : string) (db : Db) :
  onLeads (throw e : Async _ A) db = (Rejected e, db).
Proof. unfold onLeads, zoom, throw. by destruct db. Qed.

Lemma onCallLogs_throw {A} (e : string) (db : Db) :
  onCallLogs (throw e : Async _ A) db = (Rejected e, db).
Proof. unfold onCallLogs, zoom, throw. by destruct db. Qed.


Lemma onDb_run {A} (m : Async Db A) (p : CallQueue.Process) :
  CallQueue.onDb m p
  = ((m (CallQueue.db p)).1, CallQueue.setDb (m (CallQueue.db p)).2 p).
Proof. unfold CallQueue.onDb, zoom. by destruct (m _). Qed.

Lemma activeCallsDelete_run (k : string) (p : CallQueue.Process) :
  CallQueue.activeCallsDelete k p
  = (Resolved tt,
     CallQueue.setQueue
       (CallQueue.setActiveCalls
          (delete k (CallQueue.activeCalls (CallQueue.queue p))) (CallQueue.queue p)) p).
Proof. reflexivity. Qed.

(** The last part of [handleCallCompletion], which updates the agent's
    counters. *)
Local Abbreviation countCall cl s :=
  (salesperson ← match CallLog.salesperson cl with
                 | Some id => CallQueue.onDb (onUsers (User.findById id))
                 | None => mret None
                 end;
   match salesperson with
   | Some salesperson =>
       let s1 := User.setTotalCalls (User.totalCalls salesperson + 1) salesperson in
       let s2 := if bool_decide (s = "completed")
                 then User.setSuccessfulCalls (User.successfulCalls s1 + 1) s1
                 else s1 in
       CallQueue.onDb (onUsers (User.save s2)) ;; mret tt
   | None => mret tt
   end).

Lemma countCall_db cl s (p : CallQueue.Process) :
  leads (CallQueue.db (exec (countCall cl s) p)) = leads (CallQueue.db p)
  ∧ callLogs (CallQueue.db (exec (countCall cl s) p)) = callLogs (CallQueue.db p).
Proof.
  rewrite exec_bind.
  destruct (CallLog.salesperson cl) as [uid|].
  - rewrite User_findById_run.
    destruct (users (CallQueue.db p) !! uid) as [u|]; [|done].
    rewrite exec_bind, onDb_run. unfold onUsers, zoom, User.save.
    by destruct (users (CallQueue.db p) !! User._id _).
  - done.
Qed.

(** What [handleCallCompletion] leaves of the leads and the call logs:
    the leads as the update of the call's lead left them, the call logs
    as they were. *)
Lemma handleCallCompletion_db now id s (p : CallQueue.Process) :
  callLogs (CallQueue.db (exec (CallQueue.handleCallCompletion now id s) p))
  = callLogs (CallQueue.db p)
  ∧ (leads (CallQueue.db (exec (CallQueue.handleCallCompletion now id s) p))
     = leads (CallQueue.db p)
     ∨ ∃ cl r d2, callLogs (CallQueue.db p) !! id = Some cl
         ∧ TwilioService.reconcileLead now s 0
             (leads (CallQueue.db p) !! CallLog.lead cl) (CallQueue.db p) = (r, d2)
         ∧ leads (CallQueue.db (exec (CallQueue.handleCallCompletion now id s) p))
           = leads d2).
Proof.
  unfold CallQueue.handleCallCompletion.
  rewrite exec_swallow, exec_bind, findById_run.
  destruct (callLogs (CallQueue.db p) !! id) as [cl|] eqn:Hcl; [|by auto].
  rewrite exec_bind, activeCallsDelete_run, exec_bind, Lead_findById_run.
  rewrite exec_bind, onDb_run.
  cbn [CallQueue.db CallQueue.setQueue].
  pose proof (reconcileLead_callLogs now s 0
                (leads (CallQueue.db p) !! CallLog.lead cl) (CallQueue.db p)) as [Hlogs _].
  unfold exec in Hlogs.
  destruct (TwilioService.reconcileLead now s 0 _ (CallQueue.db p)) as [r d2] eqn:Hrec.
  cbn [fst snd] in *. destruct r as [[]|e]; cbv beta.
  - match goal with |- context [exec _ ?q] =>
      destruct (countCall_db cl s q) as [Hl Hc] end.
    cbv beta zeta in Hl, Hc |- *. rewrite Hl, Hc. cbn [CallQueue.db CallQueue.setDb].
    split; [exact Hlogs|]. right. exists cl, (Resolved tt), d2. done.
  - cbn [CallQueue.db CallQueue.setDb].
    split; [exact Hlogs|]. right. exists cl, (Rejected e), d2. done.
Qed.

Lemma handleCallCompletion_retired now id s (p : CallQueue.Process)
    (k : ObjectId) (l : Lead.t) :
  wfLeads (leads (CallQueue.db p)) → leads (CallQueue.db p) !! k = Some l →
  retired l →
  ∃ l', leads (CallQueue.db (exec (CallQueue.handleCallCompletion now id s) p)) !! k
        = Some l' ∧ retired l'.
Proof.
  intros Hwf Hk Hret.
  destruct (handleCallCompletion_db now id s p) as [_ [->|(cl & r & d2 & _ & Hrec & ->)]];
    [eauto|].
  destruct (reconcileLead_retired now s 0 (CallQueue.db p) (CallLog.lead cl) k l)
    as [_ H]; [done..|].
  unfold exec in H. by rewrite Hrec in H.
Qed.

(** Each application of [busy] or [failed] to a call whose lead and
    agent are stored, and whose lead's incremented count passes the
    schema, counts again. *)
Lemma handleCallCompletion_counts now id s (p : CallQueue.Process)
    (cl : CallLog.t) (l : Lead.t) (u : User.t) (uid : ObjectId) :
  s = "busy" ∨ s = "failed" →
  callLogs (CallQueue.db p) !! id = Some cl →
  CallLog.salesperson cl = Some uid →
  leads (CallQueue.db p) !! CallLog.lead cl = Some l →
  Lead._id l = CallLog.lead cl →
  Lead.priority l ∈ Lead.priorityEnum →
  Lead.callAttempts l + 1 <= 5 →
  users (CallQueue.db p) !! uid = Some u →
  User._id u = uid →
  exec (CallQueue.handleCallCompletion now id s) p
  = CallQueue.mkProcess
      (mkDb (<[CallLog.lead cl :=
                 Lead.setUpdatedAt now (Lead.applyCallStatus now s 0 "" l)]>
               (leads (CallQueue.db p)))
            (callLogs (CallQueue.db p))
            (<[uid := User.setTotalCalls (User.totalCalls u + 1) u]>
               (users (CallQueue.db p))))
      (CallQueue.setActiveCalls
         (delete (CallLog.lead cl) (CallQueue.activeCalls (CallQueue.queue p)))
         (CallQueue.queue p))
      (CallQueue.timers p) (CallQueue.timerSeq p) (CallQueue.emitted p).
Proof.
  intros Hs Hcl Hsp Hl Hid Hp Hle Hu Huid.
  assert (Lead.countsAsAttempt s = true) as Hcount by (by destruct Hs as [->| ->]).
  assert (bool_decide (s = "completed") = false) as Hcompl
    by (by destruct Hs as [->| ->]).
  unfold CallQueue.handleCallCompletion.
  rewrite exec_swallow, exec_bind, findById_run, Hcl.
  rewrite exec_bind, activeCallsDelete_run, exec_bind, Lead_findById_run.
  cbn [CallQueue.db CallQueue.setQueue]. rewrite Hl.
  rewrite exec_bind, onDb_run. cbn [CallQueue.db CallQueue.setQueue].
  assert (TwilioService.reconcileLead now s 0 (Some l) (CallQueue.db p)
          = (Resolved tt,
             setLeads (<[CallLog.lead cl :=
                           Lead.setUpdatedAt now (Lead.applyCallStatus now s 0 "" l)]>
                         (leads (CallQueue.db p))) (CallQueue.db p))) as ->.
  { unfold TwilioService.reconcileLead.
    rewrite (bool_decide_eq_false_2 (s = "answered")) by (by destruct Hs as [->| ->]).
    rewrite (bool_decide_eq_false_2 (s = "completed")) by (by destruct Hs as [->| ->]).
    rewrite bool_decide_eq_true_2 by (destruct Hs as [->| ->]; in_enum).
    erewrite bind_resolved; [reflexivity|].
    apply zoom_eq. rewrite <- Hid.
    apply updateCallStatus_counts; [done|by rewrite Hid|done..]. }
  cbn [fst snd]. rewrite exec_bind, Hsp, User_findById_run.
  cbn [CallQueue.db CallQueue.setDb users setLeads]. rewrite Hu.
  rewrite exec_bind, onDb_run. unfold onUsers, zoom, User.save.
  rewrite Hcompl. simpl_docs. rewrite Huid, Hu.
  destruct p as [[? ? ?] ? ? ? ?]. reflexivity.
Qed.

End Callbacks.

(** C3, as the claim states it, fails: the second application of [busy]
    to the same call increments the lead's [callAttempts] and the agent's
    [totalCalls] again; a completed call log accepts the status
    [ringing]; and a [transferred] lead is moved to [busy] by a later
    callback. *)
Lemma C3_counterexample :
  let p1 := exec (CallQueue.handleCallCompletion 1000 "c1" "busy") Fixtures.inFlight in
  let p2 := exec (CallQueue.handleCallCompletion 2000 "c1" "busy") p1 in
  (attemptsOf (leads (CallQueue.db p1)) "1" = Some 1
   ∧ attemptsOf (leads (CallQueue.db p2)) "1" = Some 2)
  ∧ (User.totalCalls <$> users (CallQueue.db p1) !! "u1" = Some 1
     ∧ User.totalCalls <$> users (CallQueue.db p2) !! "u1" = Some 2)
  ∧ (∃ c1 coll1 c2 coll2,
       CallLog.updateStatus 1000 "completed" CallLog.noData Fixtures.callLog
         (callLogs Fixtures.db) = (Resolved c1, coll1)
       ∧ CallLog.status c1 = "completed"
       ∧ CallLog.updateStatus 2000 "ringing" CallLog.noData c1 coll1
         = (Resolved c2, coll2)
       ∧ CallLog.status <$> coll2 !! "c1" = Some "ringing")
  ∧ (let d := setLeads {[ "1" := Lead.setStatus "transferred" Fixtures.callingLead ]}
                Fixtures.db in
     Lead.status <$>
       leads (exec (TwilioService.handleCallStatusUpdate 3000 Fixtures.callLog "busy" 0) d)
         !! "1" = Some "busy").
Proof.
  split; [|split; [|split]].
  - split; vm_compute; reflexivity.
  - split; vm_compute; reflexivity.
  - do 4 eexists. split; [vm_compute; reflexivity|].
    split; [reflexivity|]. split; [vm_compute; reflexivity|]. vm_compute. reflexivity.
  - vm_compute. reflexivity.
Qed.

(** C3 (amended). There is no terminal-state guard. [updateStatus]
    assigns the call log whatever status it is given, and
    [handleCallCompletion] never writes a call log, so a second
    application of the same outcome leaves the status of the call attempt
    as the first left it. Every application of [busy] or [failed] through
    [handleCallCompletion], for a call whose lead and agent are stored
    and whose lead's incremented count passes the schema, increments the
    lead's [callAttempts] by 1 and the agent's [totalCalls] by 1 and
    leaves [successfulCalls]. A lead retired at the cap (status [failed],
    inactive, [callAttempts] at least 3) is still retired after any
    callback, through [handleCallCompletion] or
    [handleCallStatusUpdate]. *)
Theorem C3_callbacks_are_counted_each_time :
  (∀ now s d c, CallLog.status (CallLog.applyStatus now s d c) = s)
  ∧ (∀ now id s p,
       callLogs (CallQueue.db (exec (CallQueue.handleCallCompletion now id s) p))
       = callLogs (CallQueue.db p))
  ∧ (∀ now id s p cl l u uid,
       s = "busy" ∨ s = "failed" →
       callLogs (CallQueue.db p) !! id = Some cl →
       CallLog.salesperson cl = Some uid →
       leads (CallQueue.db p) !! CallLog.lead cl = Some l →
       Lead._id l = CallLog.lead cl →
       Lead.priority l ∈ Lead.priorityEnum →
       Lead.callAttempts l + 1 <= 5 →
       users (CallQueue.db p) !! uid = Some u →
       User._id u = uid →
       let p' := exec (CallQueue.handleCallCompletion now id s) p in
       attemptsOf (leads (CallQueue.db p')) (CallLog.lead cl)
       = Some (Lead.callAttempts l + 1)
       ∧ User.totalCalls <$> users (CallQueue.db p') !! uid
         = Some (User.totalCalls u + 1)
       ∧ User.successfulCalls <$> users (CallQueue.db p') !! uid
         = Some (User.successfulCalls u))
  ∧ (∀ now id s p k l,
       wfLeads (leads (CallQueue.db p)) → leads (CallQueue.db p) !! k = Some l →
       retired l →
       ∃ l', leads (CallQueue.db (exec (CallQueue.handleCallCompletion now id s) p)) !! k
             = Some l' ∧ retired l')
  ∧ (∀ now cl twilioStatus duration (d : Db) k l,
       wfLeads (leads d) → leads d !! k = Some l → retired l →
       ∃ l', leads (exec (TwilioService.handleCallStatusUpdate now cl twilioStatus
                            duration) d) !! k
             = Some l' ∧ retired l').
Proof.
  split; [|split; [|split; [|split]]].
  - apply applyStatus_status.
  - intros now id s p. by destruct (handleCallCompletion_db now id s p).
  - intros now id s p cl l u uid Hs Hcl Hsp Hl Hid Hp Hle Hu Huid p'. subst p'.
    rewrite (handleCallCompletion_counts now id s p cl l u uid) by done.
    simpl_docs. unfold attemptsOf. rewrite !lookup_insert_eq.
    cbn [fmap option_fmap option_map]. simpl_docs.
    rewrite applyCallStatus_callAttempts.
    by destruct Hs as [->| ->].
  - intros now id s p k l. apply handleCallCompletion_retired.
  - intros now cl ts dur d k l. apply handleCallStatusUpdate_retired.
Qed.

Lemma C3_callbacks_are_counted_each_time_witness :
  let p := exec (CallQueue.handleCallCompletion 1000 "c1" "busy") Fixtures.inFlight in
  let p' := exec (CallQueue.handleCallCompletion 2000 "c1" "busy") p in
  attemptsOf (leads (CallQueue.db p')) "1" = Some (1 + 1)
  ∧ User.totalCalls <$> users (CallQueue.db p') !! "u1" = Some (1 + 1)
  ∧ User.successfulCalls <$> users (CallQueue.db p') !! "u1" = Some 0.
Proof.
  intros p.
  destruct C3_callbacks_are_counted_each_time as (_ & _ & H & _).
  apply (H 2000 "c1" "busy" p Fixtures.callLog
           (Lead.setUpdatedAt 1000
              (Lead.applyCallStatus 1000 "busy" 0 "" Fixtures.callingLead))
           (User.setTotalCalls 1 (Fixtures.agent "u1")) "u1").
  - left. reflexivity.
  - vm_compute. reflexivity.
  - reflexivity.
  - vm_compute. reflexivity.
  - reflexivity.
  - in_enum.
  - vm_compute. discriminate.
  - vm_compute. reflexivity.
  - reflexivity.
Defined.

(** * Further properties of the code *)

(** ** Selection of leads and agents *)

(** X1. [getNextLeadToCall] always resolves and writes nothing. It yields
    no lead exactly when no stored lead is eligible; the lead it yields is
    stored and eligible, no stored eligible lead has a priority label that
    is smaller as a string, and among the eligible leads with its label
    none was created earlier. *)
Theorem X1_selection_returns_least_eligible
    (now : Date) (c : gmap ObjectId Lead.t) :
  ∃ r, Lead.getNextLeadToCall now c = (Resolved r, c)
    ∧ (r = None ↔ ∀ k l, c !! k = Some l → Lead.eligible now l = false)
    ∧ ∀ x, r = Some x →
        Lead.eligible now x = true ∧ (∃ k, c !! k = Some x)
        ∧ ∀ k y, c !! k = Some y → Lead.eligible now y = true →
            String.compare (Lead.priority x) (Lead.priority y) ≠ Gt
            ∧ (Lead.priority y = Lead.priority x →
               Lead.createdAt x <= Lead.createdAt y).
Proof.
  destruct (getNextLeadToCall_spec now c) as [r [Hr Hspec]].
  exists r. split; [done|]. split.
  - split.
    + intros ->. exact Hspec.
    + intros Hnone. destruct r as [x|]; [|done].
      destruct Hspec as (He & [k Hk] & _). rewrite (Hnone k x Hk) in He. done.
  - intros x ->. destruct Hspec as (He & Hk & Hle).
    split; [done|]. split; [done|]. intros k y Hy Hey.
    specialize (Hle k y Hy Hey). unfold Lead.sortLe in Hle. split.
    + intros Hgt. by rewrite Hgt in Hle.
    + intros Heq. rewrite Heq, string_compare_refl in Hle. by apply Z.leb_le.
Qed.

(** X2. After [updateCallStatus] has counted an outcome ([answered],
    [no_answer], [busy] or [failed]) the lead is not eligible at any
    time, whatever [nextCallTime] it was given: over a well-formed
    collection no later selection returns it. *)
Theorem X2_counted_lead_is_never_selected_again
    (now : Date) (s : string) (d : Z) (n : string) (l : Lead.t)
    (c : gmap ObjectId Lead.t) (now' : Date) :
  wfLeads c → c !! Lead._id l = Some l → Lead.callAttempts l + 1 <= 5 →
  Lead.countsAsAttempt s = true →
  Lead.eligible now' (Lead.applyCallStatus now s d n l) = false
  ∧ ∀ x, Lead.getNextLeadToCall now'
           (exec (Lead.updateCallStatus now s d n l) c)
         = (Resolved (Some x), exec (Lead.updateCallStatus now s d n l) c) →
         Lead._id x ≠ Lead._id l.
Proof.
  intros Hwf Hl Hle Hs.
  assert (Lead.eligible now' (Lead.applyCallStatus now s d n l) = false) as Hne.
  { unfold Lead.eligible.
    replace (bool_decide (Lead.status (Lead.applyCallStatus now s d n l) = "pending"))
      with false; [done|].
    symmetry. apply bool_decide_eq_false.
    apply countsAsAttempt_iff in Hs. unfold Lead.applyCallStatus.
    destruct Hs as [->|[->|[->| ->]]]; simpl; repeat case_match; simpl_docs; done. }
  split; [done|]. intros x Hx Hid.
  destruct (Hwf _ _ Hl) as [_ Hv]. apply validateSync_inv in Hv as (_ & Hp & _).
  unfold exec in Hx. rewrite updateCallStatus_counts in Hx by done. cbn [snd] in Hx.
  destruct (getNextLeadToCall_spec now'
              (<[Lead._id l := Lead.setUpdatedAt now (Lead.applyCallStatus now s d n l)]> c))
    as [r [Hr Hspec]].
  rewrite Hx in Hr. injection Hr as <-. destruct Hspec as (He & [k Hk] & _).
  destruct (decide (k = Lead._id l)) as [->|Hk'].
  - rewrite lookup_insert_eq in Hk. injection Hk as <-.
    unfold Lead.eligible in He, Hne. simpl_docs. by rewrite Hne in He.
  - rewrite lookup_insert_ne in Hk by done.
    destruct (Hwf _ _ Hk) as [Hkid _]. congruence.
Qed.

Lemma X2_counted_lead_is_never_selected_again_witness :
  Lead.eligible 99999999 (Lead.applyCallStatus 1000 "busy" 0 "" (Fixtures.lead "2" "high" 2))
  = false
  ∧ ∀ x, Lead.getNextLeadToCall 99999999
           (exec (Lead.updateCallStatus 1000 "busy" 0 "" (Fixtures.lead "2" "high" 2))
              Fixtures.testLeads)
         = (Resolved (Some x),
            exec (Lead.updateCallStatus 1000 "busy" 0 "" (Fixtures.lead "2" "high" 2))
              Fixtures.testLeads) →
         Lead._id x ≠ "2".
Proof.
  apply (X2_counted_lead_is_never_selected_again 1000 "busy" 0 ""
           (Fixtures.lead "2" "high" 2) Fixtures.testLeads 99999999).
  - apply (bool_decide_unpack _). vm_compute. exact I.
  - reflexivity.
  - vm_compute. discriminate.
  - reflexivity.
Defined.

(** X3. [updateCallStatus] keeps the history in step with the counter:
    when [callHistory] has [callAttempts] entries before, it has
    [callAttempts] entries after; a counted outcome appends one entry
    that carries the new attempt number and the outcome as it was
    reported (also when the status of the lead becomes [failed] at the
    cap), and any other outcome leaves the history as it is. *)
Theorem X3_history_records_each_counted_outcome
    (now : Date) (s : string) (d : Z) (n : string) (l : Lead.t) :
  Z.of_nat (List.length (Lead.callHistory l)) = Lead.callAttempts l →
  Z.of_nat (List.length (Lead.callHistory (Lead.applyCallStatus now s d n l)))
  = Lead.callAttempts (Lead.applyCallStatus now s d n l)
  ∧ (Lead.countsAsAttempt s = true →
     Lead.callHistory (Lead.applyCallStatus now s d n l)
     = (Lead.callHistory l
        ++ [Lead.History.mk (Lead.callAttempts l + 1) now s d n])%list)
  ∧ (Lead.countsAsAttempt s = false →
     Lead.callHistory (Lead.applyCallStatus now s d n l) = Lead.callHistory l).
Proof.
  intros Hlen.
  assert (Lead.callHistory (Lead.applyCallStatus now s d n l)
          = if Lead.countsAsAttempt s
            then (Lead.callHistory l
                  ++ [Lead.History.mk (Lead.callAttempts l + 1) now s d n])%list
            else Lead.callHistory l) as Hh.
  { unfold Lead.applyCallStatus. by repeat case_match. }
  rewrite Hh, applyCallStatus_callAttempts.
  destruct (Lead.countsAsAttempt s).
  - rewrite length_app. simpl. split; [lia|]. split; done.
  - split; [lia|]. split; done.
Qed.

Lemma X3_history_records_each_counted_outcome_witness :
  Z.of_nat (List.length (Lead.callHistory
     (Lead.applyCallStatus 1000 "no_answer" 30 "" Fixtures.callingLead)))
  = Lead.callAttempts (Lead.applyCallStatus 1000 "no_answer" 30 "" Fixtures.callingLead).
Proof.
  apply (X3_history_records_each_counted_outcome 1000 "no_answer" 30 ""
           Fixtures.callingLead).
  reflexivity.
Defined.

Section Agents.

Lemma User_sortLe_total (a b : User.t) :
  User.sortLe a b = true ∨ User.sortLe b a = true.
Proof.
  unfold User.sortLe.
  destruct (Z.ltb_spec (User.totalCalls a) (User.totalCalls b)); [auto|].
  destruct (Z.ltb_spec (User.totalCalls b) (User.totalCalls a)); [auto|].
  destruct (User.lastLogin a), (User.lastLogin b); auto.
  rewrite !Z.leb_le. lia.
Qed.

Lemma User_sortLe_trans (a b c : User.t) :
  User.sortLe a b = true → User.sortLe b c = true → User.sortLe a c = true.
Proof.
  unfold User.sortLe.
  destruct (Z.ltb_spec (User.totalCalls a) (User.totalCalls b));
    destruct (Z.ltb_spec (User.totalCalls b) (User.totalCalls a));
    destruct (Z.ltb_spec (User.totalCalls b) (User.totalCalls c));
    destruct (Z.ltb_spec (User.totalCalls c) (User.totalCalls b));
    destruct (Z.ltb_spec (User.totalCalls a) (User.totalCalls c));
    destruct (Z.ltb_spec (User.totalCalls c) (User.totalCalls a));
    try done; try lia.
  destruct (User.lastLogin a), (User.lastLogin b), (User.lastLogin c); try done.
  rewrite !Z.leb_le. lia.
Qed.

Lemma User_sortLe_totalCalls (a b : User.t) :
  User.sortLe a b = true → User.totalCalls a <= User.totalCalls b.
Proof.
  unfold User.sortLe.
  destruct (Z.ltb_spec (User.totalCalls a) (User.totalCalls b)); [lia|].
  destruct (Z.ltb_spec (User.totalCalls b) (User.totalCalls a)); [done|lia].
Qed.

End Agents.

(** X4. [findAvailableSalesperson] never rejects and writes nothing. It
    yields no agent exactly when no stored user is a salesperson who is
    available and active; the agent it yields is such a user, and no
    such user has handled fewer calls. *)
Theorem X4_findAvailableSalesperson_picks_least_loaded (p : CallQueue.Process) :
  ∃ r, CallQueue.findAvailableSalesperson p = (Resolved r, p)
    ∧ (r = None ↔ ∀ k u, users (CallQueue.db p) !! k = Some u →
                         User.available u = false)
    ∧ ∀ sp, r = Some sp →
        User.role sp = "salesperson" ∧ User.isAvailable sp = true
        ∧ User.isActive sp = true
        ∧ (∃ k, users (CallQueue.db p) !! k = Some sp)
        ∧ ∀ k u, users (CallQueue.db p) !! k = Some u → User.available u = true →
            User.totalCalls sp <= User.totalCalls u.
Proof.
  rewrite findAvailableSalesperson_run. eexists. split; [done|].
  destruct (findOneSorted _ _ _) as [sp|] eqn:Hsp.
  - destruct (findOneSorted_Some _ _ _ _ Hsp) as [Ha [k Hk]]. split.
    + split; [done|]. intros Hnone. by rewrite (Hnone k sp Hk) in Ha.
    + intros ? [= <-].
      pose proof Ha as Ha'. unfold User.available in Ha'.
      rewrite !andb_true_iff, !bool_decide_eq_true in Ha'. destruct Ha' as [[? ?] ?].
      split; [done|]. split; [done|]. split; [done|]. split; [eauto|].
      intros k' u Hu Hau. apply User_sortLe_totalCalls.
      eapply (firstBy_least User.sortLe User_sortLe_total User_sortLe_trans);
        [exact Hsp|]. apply elem_of_find. eauto.
  - split; [|done]. split; [|done]. intros _.
    exact (findOneSorted_None _ _ _ Hsp).
Qed.

(** X5. A tick does nothing at all, and so does not consume the lead,
    when no stored lead is eligible, when the selected lead already has
    an entry in [activeCalls], or when no agent is available. *)
Theorem X5_tick_without_lead_or_agent_changes_nothing
    (env : CallQueue.Env) (p : CallQueue.Process) :
  (∀ k l, leads (CallQueue.db p) !! k = Some l →
          Lead.eligible (CallQueue.now env) l = false)
  ∨ (∃ lead, findOneSorted (Lead.eligible (CallQueue.now env)) Lead.sortLe
               (leads (CallQueue.db p)) = Some lead
             ∧ is_Some (CallQueue.activeCalls (CallQueue.queue p) !! Lead._id lead))
  ∨ (∀ k u, users (CallQueue.db p) !! k = Some u → User.available u = false) →
  CallQueue.processQueue env p = (Resolved tt, p).
Proof.
  intros Hcase.
  assert (∀ (m : Async CallQueue.Process ()), exec m p = p →
            tryCatch m (fun _ => mret tt) p = (Resolved tt, p)) as Hclose.
  { intros m Hm. unfold exec, tryCatch in *.
    destruct (m p) as [[[]|e] q]; simpl in Hm; by subst. }
  unfold CallQueue.processQueue. apply Hclose.
  unfold get, CallQueue.activeCallsSet, modify.
  rewrite exec_bind. cbv beta iota.
  destruct (_ >=? _); [done|].
  rewrite exec_bind, getNextLeadToCall_run.
  destruct (findOneSorted _ _ (leads _)) as [lead|] eqn:Hlead; [|done].
  rewrite exec_bind. cbv beta iota.
  destruct (bool_decide (is_Some _)) eqn:Hhas; [done|].
  rewrite exec_bind, findAvailableSalesperson_run.
  destruct (findOneSorted _ _ (users _)) as [sp|] eqn:Hsp; [|done].
  exfalso. destruct Hcase as [Hnone|[(lead' & Hl' & Hact)|Hnone]].
  - destruct (findOneSorted_Some _ _ _ _ Hlead) as [He [k Hk]].
    by rewrite (Hnone k lead Hk) in He.
  - assert (lead' = lead) as -> by congruence.
    apply bool_decide_eq_false in Hhas. done.
  - destruct (findOneSorted_Some _ _ _ _ Hsp) as [Ha [k Hk]].
    by rewrite (Hnone k sp Hk) in Ha.
Qed.

Lemma X5_tick_without_lead_or_agent_changes_nothing_witness :
  CallQueue.processQueue (Fixtures.env 100 "c1" (TwilioService.CallPlaced "CA1"))
    (Fixtures.fresh (mkDb Fixtures.testLeads ∅ ∅))
  = (Resolved tt, Fixtures.fresh (mkDb Fixtures.testLeads ∅ ∅)).
Proof.
  apply X5_tick_without_lead_or_agent_changes_nothing.
  right. right. intros k u Hu. simpl in Hu. by rewrite lookup_empty in Hu.
Defined.

(** ** Placing a call *)

Section Placing.

Lemma sidTaken_fresh (sid : string) (cl : CallLog.t) (coll : gmap ObjectId CallLog.t) :
  CallLog.twilioCallSid cl = None →
  (∀ k c, coll !! k = Some c → CallLog.twilioCallSid c ≠ Some sid) →
  CallLog.sidTaken (CallLog.setTwilioCallSid (Some sid) cl)
    (<[CallLog._id cl := cl]> coll) = false.
Proof.
  intros Hnone Hfree. unfold CallLog.sidTaken. simpl_docs.
  apply bool_decide_eq_false. rewrite Exists_exists.
  intros (d & Hd & Hne & Hsid). apply elem_of_docs in Hd as [k Hk].
  destruct (decide (k = CallLog._id cl)) as [->|Hk'].
  - rewrite lookup_insert_eq in Hk. injection Hk as <-. congruence.
  - rewrite lookup_insert_ne in Hk by done. by eapply Hfree.
Qed.

Lemma new_validateSync now id lead sp (from : option string) (to status : string) :
  CallLog.required from = true → to ≠ "" → status ∈ CallLog.statusEnum →
  CallLog.validateSync (CallLog.new now id lead sp from to status) = true.
Proof.
  intros Hf Ht Hs. unfold CallLog.validateSync, CallLog.new. simpl_docs.
  rewrite Hf, required_Some, bool_decide_eq_true_2 by done. done.
Qed.

Lemma save_sid now (sid : string) (cl : CallLog.t) (coll : gmap ObjectId CallLog.t) :
  CallLog.validateSync cl = true →
  CallLog.twilioCallSid cl = None →
  (∀ k c, coll !! k = Some c → CallLog.twilioCallSid c ≠ Some sid) →
  CallLog.save now (CallLog.setTwilioCallSid (Some sid) cl) (<[CallLog._id cl := cl]> coll)
  = (Resolved (CallLog.setUpdatedAt now (CallLog.setTwilioCallSid (Some sid) cl)),
     <[CallLog._id cl := CallLog.setUpdatedAt now (CallLog.setTwilioCallSid (Some sid) cl)]>
       (<[CallLog._id cl := cl]> coll)).
Proof.
  intros Hv Hnone Hfree. unfold CallLog.save.
  replace (CallLog.validateSync (CallLog.setTwilioCallSid (Some sid) cl)) with true
    by (rewrite <- Hv; reflexivity).
  change (CallLog._id (CallLog.setTwilioCallSid (Some sid) cl)) with (CallLog._id cl).
  rewrite lookup_insert_eq.
  destruct (decide _) as [Heq|_].
  { exfalso. apply (f_equal CallLog.twilioCallSid) in Heq. simpl in Heq. congruence. }
  rewrite sidTaken_fresh by done. reflexivity.
Qed.

(** [makeCall] for a stored valid pending lead, a configured caller
    number, a fresh call-log id and a provider that places the call under
    a call SID no call log carries yet. *)
Lemma makeCall_placed (env : CallQueue.Env) (lead : Lead.t) (sp : User.t)
    (p : CallQueue.Process) (sid : string) :
  leads (CallQueue.db p) !! Lead._id lead = Some lead →
  Lead.validateSync lead = true →
  Lead.status lead = "pending" →
  Lead.phone lead ≠ "" →
  CallLog.required (CallQueue.TWILIO_PHONE_NUMBER env) = true →
  callLogs (CallQueue.db p) !! CallQueue.newCallLogId env = None →
  TwilioService.initiateCall (CallQueue.provider env) (Lead.phone lead)
    (User.phone sp) = TwilioService.CallPlaced sid →
  (∀ k c, callLogs (CallQueue.db p) !! k = Some c →
          CallLog.twilioCallSid c ≠ Some sid) →
  let calling := Lead.setAssignedTo (Some (User._id sp)) (Lead.setStatus "calling" lead) in
  let cl := CallLog.new (CallQueue.now env) (CallQueue.newCallLogId env)
              (Lead._id lead) (User._id sp) (CallQueue.TWILIO_PHONE_NUMBER env)
              (Lead.phone lead) "initiated" in
  CallQueue.makeCall env lead sp p
  = (Resolved tt,
     CallQueue.mkProcess
       (mkDb (<[Lead._id lead := Lead.setUpdatedAt (CallQueue.now env) calling]>
                (leads (CallQueue.db p)))
             (<[CallQueue.newCallLogId env :=
                  CallLog.setUpdatedAt (CallQueue.now env)
                    (CallLog.setTwilioCallSid (Some sid) cl)]>
                (<[CallQueue.newCallLogId env := cl]> (callLogs (CallQueue.db p))))
             (users (CallQueue.db p)))
       (CallQueue.queue p) (CallQueue.timers p) (CallQueue.timerSeq p)
       (CallQueue.emitted p ++ [("call_initiated", Lead._id lead)])).
Proof.
  intros Hl Hv Hpend Hph Hfrom Hfresh Hprov Hsid calling cl.
  assert (CallLog.validateSync cl = true) as Hcv
    by (apply new_validateSync; [done..|in_enum]).
  unfold CallQueue.makeCall. fold calling.
  erewrite tryCatch_resolved; [reflexivity|].
  await.
  { on_db. eapply save_write; [|exact Hl|].
    - eapply validateSync_transfer; [exact Hv|in_enum|done..].
    - intros Heq. apply (f_equal Lead.status) in Heq. simpl_docs.
      by rewrite Hpend in Heq. }
  cbv beta.
  erewrite tryCatch_resolved; [reflexivity|].
  await.
  { on_db. unfold calling. simpl_docs. fold cl.
    unfold CallLog.insert.
    change (CallLog._id cl) with (CallQueue.newCallLogId env).
    rewrite Hcv, Hfresh. reflexivity. }
  cbv beta. unfold calling at 1 2. simpl_docs. rewrite Hprov. fold cl. fold calling.
  await.
  { on_db. apply (save_sid (CallQueue.now env) sid cl); done. }
  cbv beta. unfold CallQueue.emitCallUpdate, modify. simpl_docs.
  destruct p as [[? ? ?] ? ? ? ?]. reflexivity.
Qed.

Lemma handleCallFailure_run_None (env : CallQueue.Env) (lead stored : Lead.t)
    (err : string) (p : CallQueue.Process) :
  leads (CallQueue.db p) !! Lead._id lead = Some stored →
  Lead.validateSync stored = true →
  Lead.priority lead = Lead.priority stored →
  Lead.callAttempts lead = Lead.callAttempts stored →
  Lead.status stored = "calling" →
  CallQueue.handleCallFailure env lead None err p
  = (Resolved tt,
     CallQueue.mkProcess
       (mkDb (<[Lead._id lead :=
                  Lead.setUpdatedAt (CallQueue.now env)
                    (Lead.setAssignedTo None (Lead.setStatus "pending" lead))]>
                (leads (CallQueue.db p)))
             (callLogs (CallQueue.db p)) (users (CallQueue.db p)))
       (CallQueue.setActiveCalls
          (delete (Lead._id lead) (CallQueue.activeCalls (CallQueue.queue p)))
          (CallQueue.queue p))
       (CallQueue.timers p) (CallQueue.timerSeq p) (CallQueue.emitted p)).
Proof.
  intros Hl Hv Hp Hn Hst.
  unfold CallQueue.handleCallFailure.
  erewrite tryCatch_resolved; [reflexivity|].
  await.
  { on_db. eapply save_write; [|exact Hl|].
    - eapply validateSync_transfer; [exact Hv|in_enum|done..].
    - intros ->. simpl_docs. by rewrite Hst in *. }
  await; [reflexivity|].
  unfold CallQueue.activeCallsDelete, modify. simpl_docs.
  destruct p as [[? ? ?] ? ? ? ?]. reflexivity.
Qed.

End Placing.

(** X6. A tick below the cap that finds an eligible lead without an
    entry in [activeCalls] and an available agent, with the caller number
    configured, a fresh call-log id and a provider that places the call
    under a new call SID: the lead is stored as [calling] and assigned to
    the agent with its [callAttempts] as before, the call log is stored
    as [initiated] with the call SID, the lead has an entry in
    [activeCalls], and one [call_initiated] event is emitted. *)
Theorem X6_tick_places_the_call
    (env : CallQueue.Env) (p : CallQueue.Process) (lead : Lead.t) (sp : User.t)
    (sid : string) :
  wfLeads (leads (CallQueue.db p)) →
  Z.of_nat (size (CallQueue.activeCalls (CallQueue.queue p)))
    < CallQueue.maxConcurrentCalls (CallQueue.queue p) →
  findOneSorted (Lead.eligible (CallQueue.now env)) Lead.sortLe
    (leads (CallQueue.db p)) = Some lead →
  CallQueue.activeCalls (CallQueue.queue p) !! Lead._id lead = None →
  findOneSorted User.available User.sortLe (users (CallQueue.db p)) = Some sp →
  Lead.phone lead ≠ "" →
  CallLog.required (CallQueue.TWILIO_PHONE_NUMBER env) = true →
  callLogs (CallQueue.db p) !! CallQueue.newCallLogId env = None →
  TwilioService.initiateCall (CallQueue.provider env) (Lead.phone lead)
    (User.phone sp) = TwilioService.CallPlaced sid →
  (∀ k c, callLogs (CallQueue.db p) !! k = Some c →
          CallLog.twilioCallSid c ≠ Some sid) →
  let p' := exec (CallQueue.processQueue env) p in
  (∃ l', leads (CallQueue.db p') !! Lead._id lead = Some l'
       ∧ Lead.status l' = "calling"
       ∧ Lead.assignedTo l' = Some (User._id sp)
       ∧ Lead.callAttempts l' = Lead.callAttempts lead)
  ∧ (∃ cl, callLogs (CallQueue.db p') !! CallQueue.newCallLogId env = Some cl
         ∧ CallLog.status cl = "initiated"
         ∧ CallLog.twilioCallSid cl = Some sid
         ∧ CallLog.lead cl = Lead._id lead
         ∧ CallLog.salesperson cl = Some (User._id sp))
  ∧ CallQueue.activeCalls (CallQueue.queue p') !! Lead._id lead
    = Some (CallQueue.mkActive (Lead._id lead) (User._id sp) (CallQueue.now env))
  ∧ CallQueue.emitted p'
    = (CallQueue.emitted p ++ [("call_initiated", Lead._id lead)])%list.
Proof.
  intros Hwf Hroom Hlead Hact Hsp Hph Hfrom Hfresh Hprov Hsid p'. subst p'.
  destruct (findOneSorted_Some _ _ _ _ Hlead) as [He [k Hk]].
  destruct (Hwf k lead Hk) as [<- Hv].
  apply eligible_inv in He as (Hpend & _ & _).
  unfold CallQueue.processQueue, get, CallQueue.activeCallsSet, modify.
  rewrite exec_swallow, exec_bind. cbv beta iota.
  destruct (Z.geb_spec (Z.of_nat (size (CallQueue.activeCalls (CallQueue.queue p))))
              (CallQueue.maxConcurrentCalls (CallQueue.queue p))); [lia|].
  rewrite exec_bind, getNextLeadToCall_run, Hlead.
  rewrite exec_bind. cbv beta iota.
  rewrite bool_decide_eq_false_2 by (rewrite Hact; by intros [? ?]).
  rewrite exec_bind, findAvailableSalesperson_run, Hsp.
  rewrite exec_bind. cbv beta iota.
  unfold exec. rewrite (makeCall_placed env lead sp _ sid) by done.
  simpl_docs. rewrite !lookup_insert_eq.
  split; [eexists; split; [done|]; by simpl_docs|].
  split; [eexists; split; [done|]; unfold CallLog.new; by simpl_docs|].
  done.
Qed.

Lemma X6_tick_places_the_call_witness :
  let env := Fixtures.env 100 "c1" (TwilioService.CallPlaced "CA1") in
  let p' := exec (CallQueue.processQueue env)
              (Fixtures.fresh (mkDb Fixtures.testLeads ∅
                                 {[ "u1" := Fixtures.agent "u1" ]})) in
  (∃ l', leads (CallQueue.db p') !! "2" = Some l'
       ∧ Lead.status l' = "calling" ∧ Lead.assignedTo l' = Some "u1"
       ∧ Lead.callAttempts l' = 0)
  ∧ (∃ cl, callLogs (CallQueue.db p') !! "c1" = Some cl
         ∧ CallLog.status cl = "initiated"
         ∧ CallLog.twilioCallSid cl = Some "CA1"
         ∧ CallLog.lead cl = "2"
         ∧ CallLog.salesperson cl = Some "u1")
  ∧ CallQueue.activeCalls (CallQueue.queue p') !! "2"
    = Some (CallQueue.mkActive "2" "u1" 100)
  ∧ CallQueue.emitted p' = ([] ++ [("call_initiated", "2")])%list.
Proof.
  intros env.
  apply (X6_tick_places_the_call env
           (Fixtures.fresh (mkDb Fixtures.testLeads ∅ {[ "u1" := Fixtures.agent "u1" ]}))
           (Fixtures.lead "2" "high" 2) (Fixtures.agent "u1") "CA1").
  - apply (bool_decide_unpack _). vm_compute. exact I.
  - vm_compute. reflexivity.
  - vm_compute. reflexivity.
  - reflexivity.
  - vm_compute. reflexivity.
  - discriminate.
  - reflexivity.
  - reflexivity.
  - reflexivity.
  - intros k c Hc. simpl in Hc. by rewrite lookup_empty in Hc.
Defined.

(** X7. When [TWILIO_PHONE_NUMBER] is not set, [makeCall] for a stored
    valid pending lead stores no call log (the new one fails validation
    of [from]) and emits nothing; its [catch] reverts the lead to
    [pending] with [assignedTo] cleared and removes the entry of the lead
    from [activeCalls]. *)
Theorem X7_missing_caller_number_places_nothing
    (env : CallQueue.Env) (lead : Lead.t) (sp : User.t) (p : CallQueue.Process) :
  leads (CallQueue.db p) !! Lead._id lead = Some lead →
  Lead.validateSync lead = true →
  Lead.status lead = "pending" →
  CallLog.required (CallQueue.TWILIO_PHONE_NUMBER env) = false →
  let p' := exec (CallQueue.makeCall env lead sp) p in
  callLogs (CallQueue.db p') = callLogs (CallQueue.db p)
  ∧ CallQueue.emitted p' = CallQueue.emitted p
  ∧ CallQueue.activeCalls (CallQueue.queue p') !! Lead._id lead = None
  ∧ ∃ l', leads (CallQueue.db p') !! Lead._id lead = Some l'
        ∧ Lead.status l' = "pending" ∧ Lead.assignedTo l' = None
        ∧ Lead.callAttempts l' = Lead.callAttempts lead.
Proof.
  intros Hl Hv Hpend Hfrom p'. subst p'.
  set (calling := Lead.setAssignedTo (Some (User._id sp)) (Lead.setStatus "calling" lead)).
  assert (∃ q, CallQueue.makeCall env lead sp p = (Resolved tt, q)
      ∧ q = CallQueue.mkProcess
       (mkDb (<[Lead._id lead :=
                  Lead.setUpdatedAt (CallQueue.now env)
                    (Lead.setAssignedTo None (Lead.setStatus "pending"
                       (Lead.setUpdatedAt (CallQueue.now env) calling)))]>
                (<[Lead._id lead := Lead.setUpdatedAt (CallQueue.now env) calling]>
                   (leads (CallQueue.db p))))
             (callLogs (CallQueue.db p)) (users (CallQueue.db p)))
       (CallQueue.setActiveCalls
          (delete (Lead._id lead) (CallQueue.activeCalls (CallQueue.queue p)))
          (CallQueue.queue p))
       (CallQueue.timers p) (CallQueue.timerSeq p) (CallQueue.emitted p))
    as (q & Hrun & ->).
  { eexists. split; [|reflexivity].
    unfold CallQueue.makeCall. fold calling.
    erewrite tryCatch_resolved; [reflexivity|].
    await.
    { on_db. eapply save_write; [|exact Hl|].
      - eapply validateSync_transfer; [exact Hv|in_enum|done..].
      - intros Heq. apply (f_equal Lead.status) in Heq. simpl_docs.
        by rewrite Hpend in Heq. }
    cbv beta.
    erewrite tryCatch_rejected; cycle 1.
    { erewrite bind_rejected; [reflexivity|].
      on_db. unfold CallLog.insert.
      replace (CallLog.validateSync _) with false; [reflexivity|].
      unfold CallLog.validateSync, CallLog.new. simpl_docs. rewrite Hfrom.
      by rewrite andb_false_r. }
    etransitivity.
    { apply (handleCallFailure_run_None env
               (Lead.setUpdatedAt (CallQueue.now env) calling)
               (Lead.setUpdatedAt (CallQueue.now env) calling)); simpl_docs; try done.
      - apply lookup_insert_eq.
      - eapply validateSync_transfer; [exact Hv|in_enum|done..]. }
    destruct p as [[? ? ?] ? ? ? ?]. reflexivity. }
  unfold exec. rewrite Hrun. simpl_docs.
  rewrite lookup_delete_eq, lookup_insert_eq.
  split; [done|]. split; [done|]. split; [done|]. eexists. split; [done|]. done.
Qed.

Lemma X7_missing_caller_number_places_nothing_witness :
  let env := CallQueue.mkEnv 100 "c1" None (TwilioService.CallPlaced "CA1") in
  let p' := exec (CallQueue.makeCall env (Fixtures.lead "1" "medium" 1)
                    (Fixtures.agent "u1")) Fixtures.dialing in
  callLogs (CallQueue.db p') = ∅
  ∧ CallQueue.emitted p' = []
  ∧ CallQueue.activeCalls (CallQueue.queue p') !! "1" = None
  ∧ ∃ l', leads (CallQueue.db p') !! "1" = Some l'
        ∧ Lead.status l' = "pending" ∧ Lead.assignedTo l' = None
        ∧ Lead.callAttempts l' = 0.
Proof.
  intros env.
  apply (X7_missing_caller_number_places_nothing env (Fixtures.lead "1" "medium" 1)
           (Fixtures.agent "u1") Fixtures.dialing); reflexivity.
Defined.

(** ** Recovery, once more *)

Section RecoveryAgain.

(** What recovery leaves: a well-formed collection without stuck
    leads. *)
Lemma resetStuckLeads_settled (now : Date) (p : CallQueue.Process) :
  wfLeads (leads (CallQueue.db p)) →
  ∃ c', exec (CallQueue.resetStuckLeads now) p
        = CallQueue.setDb (setLeads c' (CallQueue.db p)) p
      ∧ wfLeads c'
      ∧ (∀ k l, c' !! k = Some l → CallQueue.stuck now l = false).
Proof.
  intros Hwf.
  destruct (resetStuckLeads_run now p Hwf) as (c' & Hrun & Hin & Hout).
  assert (∀ k l', c' !! k = Some l' →
            ∃ l, leads (CallQueue.db p) !! k = Some l
               ∧ l' = if CallQueue.stuck now l
                      then Lead.setUpdatedAt now
                             (Lead.setAssignedTo None (Lead.setStatus "pending" l))
                      else l) as Hback.
  { intros k l' Hk. destruct (leads (CallQueue.db p) !! k) as [l|] eqn:Hl.
    - exists l. split; [done|]. rewrite (Hin k l Hl) in Hk. congruence.
    - rewrite (Hout k Hl) in Hk. done. }
  exists c'. split; [done|]. split.
  - intros k l' Hk. destruct (Hback k l' Hk) as (l & Hl & ->).
    destruct (Hwf k l Hl) as [Hid Hv].
    destruct (CallQueue.stuck now l); [|done]. split; [done|].
    eapply validateSync_transfer; [exact Hv|in_enum|done..].
  - intros k l' Hk. destruct (Hback k l' Hk) as (l & Hl & ->).
    destruct (CallQueue.stuck now l) eqn:Hs; [|done]. reflexivity.
Qed.

End RecoveryAgain.

(** X8. Over a well-formed collection of leads, stuck-lead recovery
    leaves a well-formed collection in which no lead is stuck, and running
    it again at the same clock value changes nothing. *)
Theorem X8_recovery_leaves_no_stuck_lead_and_is_idempotent
    (now : Date) (p : CallQueue.Process) :
  wfLeads (leads (CallQueue.db p)) →
  let p' := exec (CallQueue.resetStuckLeads now) p in
  wfLeads (leads (CallQueue.db p'))
  ∧ (∀ k l, leads (CallQueue.db p') !! k = Some l → CallQueue.stuck now l = false)
  ∧ exec (CallQueue.resetStuckLeads now) p' = p'.
Proof.
  intros Hwf p'.
  destruct (resetStuckLeads_settled now p Hwf) as (c' & Hrun & Hwf' & Hnone).
  subst p'. rewrite Hrun. simpl_docs.
  split; [done|]. split; [done|].
  set (p1 := CallQueue.setDb (setLeads c' (CallQueue.db p)) p).
  destruct (resetStuckLeads_run now p1 Hwf') as (c2 & Hrun2 & Hin2 & Hout2).
  rewrite Hrun2.
  assert (c2 = c') as ->.
  { apply map_eq. intros k. destruct (c' !! k) as [l|] eqn:Hk.
    - rewrite (Hin2 k l Hk), (Hnone k l Hk). done.
    - by rewrite (Hout2 k Hk). }
  unfold p1. by destruct p as [[? ? ?] ? ? ? ?].
Qed.

Lemma X8_recovery_leaves_no_stuck_lead_and_is_idempotent_witness :
  let now := 10 + 6 * 60 * 1000 in
  let p' := exec (CallQueue.resetStuckLeads now) Fixtures.inFlight in
  wfLeads (leads (CallQueue.db p'))
  ∧ (∀ k l, leads (CallQueue.db p') !! k = Some l → CallQueue.stuck now l = false)
  ∧ exec (CallQueue.resetStuckLeads now) p' = p'.
Proof.
  intros now.
  apply (X8_recovery_leaves_no_stuck_lead_and_is_idempotent now Fixtures.inFlight).
  apply (bool_decide_unpack _). vm_compute. exact I.
Defined.

(** ** The status webhook *)

Section Webhook.

Lemma mapStatus_cases (ts : string) (d : Z) :
  (ts ∈ CallLog.statusEnum
   ∧ fst (TwilioService.mapStatus ts d) = ts
   ∧ CallLog.ad_errorMessage (snd (TwilioService.mapStatus ts d)) = None)
  ∨ ((ts ∉ CallLog.statusEnum)
     ∧ TwilioService.mapStatus ts d
       = ("failed", CallLog.mkData None None None
                      (Some (Some ("Unknown Twilio status: " +:+ ts))))).
Proof.
  unfold TwilioService.mapStatus, CallLog.statusEnum.
  repeat (case_bool_decide;
          [left; subst ts; split; [in_enum|split; reflexivity]|]).
  right. split; [|reflexivity].
  rewrite !elem_of_cons, elem_of_nil. tauto.
Qed.

Lemma filter_none {A} (P : A → bool) (l : list A) :
  (∀ x, x ∈ l → P x = false) → List.filter P l = [].
Proof.
  induction l as [|a l IH]; intros H; simpl; [done|].
  rewrite (H a) by left. apply IH. intros x Hx. apply H. by right.
Qed.

Lemma findBySid_unknown (sid : string) (coll : gmap ObjectId CallLog.t) :
  (∀ k c, coll !! k = Some c → CallLog.twilioCallSid c ≠ Some sid) →
  CallLog.findBySid sid coll = (Resolved None, coll).
Proof.
  intros H. unfold CallLog.findBySid, find. rewrite filter_none; [done|].
  intros c Hc. apply elem_of_docs in Hc as [k Hk].
  apply bool_decide_eq_false. by eapply H.
Qed.

Lemma CallLog_save_cases (now : Date) (c : CallLog.t) (coll : gmap ObjectId CallLog.t) :
  (∃ e, CallLog.save now c coll = (Rejected e, coll))
  ∨ CallLog.save now c coll = (Resolved c, coll) ∧ coll !! CallLog._id c = Some c
  ∨ CallLog.save now c coll
      = (Resolved (CallLog.setUpdatedAt now c),
         <[CallLog._id c := CallLog.setUpdatedAt now c]> coll)
    ∧ CallLog.validateSync c = true ∧ is_Some (coll !! CallLog._id c).
Proof.
  unfold CallLog.save. destruct (CallLog.validateSync c); [|eauto].
  destruct (coll !! CallLog._id c) as [stored|] eqn:Hs; [|eauto].
  destruct (decide (stored = c)) as [->|]; [eauto 6|].
  destruct (CallLog.sidTaken c coll); eauto 6.
Qed.

Lemma CallLog_save_dom (now : Date) (c : CallLog.t) (coll : gmap ObjectId CallLog.t) :
  dom (snd (CallLog.save now c coll)) = dom coll.
Proof.
  destruct (CallLog_save_cases now c coll) as [[e He]|[[He _]|(He & _ & Hs)]];
    rewrite He; simpl; [done..|].
  by apply dom_insert_lookup_L.
Qed.

Lemma updateCallStatus_uncounted now (s : string) d n (l : Lead.t)
    (c : gmap ObjectId Lead.t) :
  s ∉ Lead.statusEnum →
  Lead.updateCallStatus now s d n l c = (Rejected "ValidationError", c).
Proof.
  intros Hs. unfold Lead.updateCallStatus. apply save_invalid.
  destruct (Lead.validateSync _) eqn:Hv; [|done].
  apply validateSync_status in Hv. exfalso. apply Hs.
  assert (Lead.countsAsAttempt s = false) as Hc.
  { destruct (Lead.countsAsAttempt s) eqn:Hc; [|done].
    apply countsAsAttempt_iff in Hc. exfalso. apply Hs.
    destruct Hc as [->|[->|[->| ->]]]; in_enum. }
  revert Hv. unfold Lead.applyCallStatus. rewrite Hc. by simpl_docs.
Qed.

Lemma onLeads_findById_run (id : ObjectId) (db : Db) :
  onLeads (Lead.findById id) db = (Resolved (leads db !! id), db).
Proof. unfold onLeads, zoom, Lead.findById. by destruct db. Qed.

(** The update of the lead leaves the leads as they are for every
    call-log status but [busy] and [failed]. *)
Lemma reconcileLead_leads now (s : string) d lead (db : Db) :
  s ≠ "busy" → s ≠ "failed" →
  leads (exec (TwilioService.reconcileLead now s d lead) db) = leads db.
Proof.
  intros Hb Hf. unfold TwilioService.reconcileLead.
  destruct lead as [l|]; [|done].
  repeat case_match; try done.
  assert (s = "no-answer") as ->.
  { match goal with H : bool_decide (s ∈ _) = true |- _ =>
      apply bool_decide_eq_true in H; rewrite !elem_of_cons, elem_of_nil in H;
      destruct H as [?|[?|[?|[]]]]; done end. }
  rewrite exec_bind. unfold onLeads, zoom.
  rewrite updateCallStatus_uncounted by apply no_answer_not_in_enum.
  by destruct db.
Qed.

Lemma handleCallStatusUpdate_frame now cl ts dur (db : Db) :
  let db' := exec (TwilioService.handleCallStatusUpdate now cl ts dur) db in
  users db' = users db
  ∧ dom (callLogs db') = dom (callLogs db)
  ∧ (ts ∈ ["initiated"; "ringing"; "answered"; "completed"; "no-answer"; "canceled"]
     → leads db' = leads db).
Proof.
  intros db'. subst db'. unfold TwilioService.handleCallStatusUpdate.
  rewrite exec_rethrow.
  destruct (TwilioService.mapStatus ts dur) as [status ad] eqn:Hmap.
  assert (ts ∈ ["initiated"; "ringing"; "answered"; "completed"; "no-answer"; "canceled"]
          → status ≠ "busy" ∧ status ≠ "failed") as Hst.
  { intros Hts. destruct (mapStatus_cases ts dur) as [(_ & H1 & _)|[Hno _]].
    - rewrite Hmap in H1. simpl in H1. subst status.
      rewrite !elem_of_cons, elem_of_nil in Hts.
      destruct Hts as [->|[->|[->|[->|[->|[->|[]]]]]]]; done.
    - exfalso. apply Hno. unfold CallLog.statusEnum.
      rewrite !elem_of_cons, elem_of_nil in *. tauto. }
  rewrite exec_bind.
  pose proof (CallLog_save_dom now (CallLog.applyStatus now status ad cl) (callLogs db))
    as Hdom.
  unfold onCallLogs, zoom, CallLog.updateStatus.
  destruct (CallLog.save now _ (callLogs db)) as [[a|e] cls]; simpl in Hdom;
    [|by simpl_docs].
  rewrite exec_bind, onLeads_findById_run.
  destruct (reconcileLead_callLogs now status dur
              (leads (setCallLogs cls db) !! CallLog.lead cl) (setCallLogs cls db))
    as [Hc Hu].
  rewrite Hu, Hc. simpl_docs. split; [done|]. split; [done|].
  intros Hts. destruct (Hst Hts). by rewrite reconcileLead_leads.
Qed.

End Webhook.

(** X9. The [switch] of [handleCallStatusUpdate] always yields a status
    of the call-log schema: a provider status that is one of the schema's
    labels is kept, with the duration passed on for [completed] only; any
    other provider status becomes [failed], with an error message that
    quotes it. *)
Theorem X9_provider_status_maps_into_the_call_log_enum (ts : string) (d : Z) :
  fst (TwilioService.mapStatus ts d) ∈ CallLog.statusEnum
  ∧ (if bool_decide (ts ∈ CallLog.statusEnum)
     then fst (TwilioService.mapStatus ts d) = ts
          ∧ CallLog.ad_errorMessage (snd (TwilioService.mapStatus ts d)) = None
     else fst (TwilioService.mapStatus ts d) = "failed"
          ∧ CallLog.ad_errorMessage (snd (TwilioService.mapStatus ts d))
            = Some (Some ("Unknown Twilio status: " +:+ ts)))
  ∧ CallLog.ad_duration (snd (TwilioService.mapStatus ts d))
    = (if bool_decide (ts = "completed") then Some (Some d) else None).
Proof.
  split; [|split].
  - destruct (mapStatus_cases ts d) as [(Hin & -> & _)|[_ ->]]; [done|]. in_enum.
  - destruct (mapStatus_cases ts d) as [(Hin & H1 & H2)|[Hno ->]].
    + by rewrite bool_decide_eq_true_2.
    + by rewrite bool_decide_eq_false_2.
  - unfold TwilioService.mapStatus.
    repeat (case_bool_decide; [subst ts; reflexivity|]).
    reflexivity.
Qed.

(** X10. The status webhook for a call SID that no call log carries
    answers 404 and changes nothing. *)
Theorem X10_status_webhook_for_unknown_call
    (now : Date) (CallSid CallStatus : string) (CallDuration : option Z) (d : Db) :
  (∀ k c, callLogs d !! k = Some c → CallLog.twilioCallSid c ≠ Some CallSid) →
  Routes.webhookStatus now CallSid CallStatus CallDuration d = (Resolved 404, d).
Proof.
  intros H. unfold Routes.webhookStatus.
  erewrite tryCatch_resolved; [reflexivity|].
  erewrite bind_resolved; cycle 1.
  { apply zoom_eq. by apply findBySid_unknown. }
  by destruct d.
Qed.

Lemma X10_status_webhook_for_unknown_call_witness :
  Routes.webhookStatus 1000 "CA7" "completed" (Some 42) Fixtures.db
  = (Resolved 404, Fixtures.db).
Proof.
  apply (X10_status_webhook_for_unknown_call 1000 "CA7" "completed" (Some 42) Fixtures.db).
  intros k c Hc. change (callLogs Fixtures.db) with ({[ "c1" := Fixtures.callLog ]} : gmap ObjectId CallLog.t) in Hc.
  apply lookup_singleton_Some in Hc as [_ <-]. discriminate.
Defined.

(** X11. The status webhook never rejects: it answers 200, 404 or 500.
    It never touches the users, it creates and deletes no call log, and
    for the provider statuses [initiated], [ringing], [answered],
    [completed], [no-answer] and [canceled] it leaves every lead as it
    is. *)
Theorem X11_status_webhook_frame
    (now : Date) (CallSid CallStatus : string) (CallDuration : option Z) (d : Db) :
  ∃ code d',
    Routes.webhookStatus now CallSid CallStatus CallDuration d = (Resolved code, d')
    ∧ code ∈ [200; 404; 500]
    ∧ users d' = users d
    ∧ dom (callLogs d') = dom (callLogs d)
    ∧ (CallStatus ∈ ["initiated"; "ringing"; "answered"; "completed"; "no-answer";
                     "canceled"]
       → leads d' = leads d).
Proof.
  unfold Routes.webhookStatus, tryCatch, mbind, Async_bind, onCallLogs at 1, zoom,
    CallLog.findBySid.
  destruct (head _) as [cl|].
  - pose proof (handleCallStatusUpdate_frame now cl CallStatus (default 0 CallDuration)
                  (setCallLogs (callLogs d) d)) as Hframe.
    cbv zeta in Hframe. unfold exec in Hframe.
    destruct (TwilioService.handleCallStatusUpdate _ _ _ _ _) as [[[]|e] d1];
      cbn [fst snd users callLogs leads setCallLogs] in Hframe;
      eexists _, _; (split; [reflexivity|]); (split; [in_enum|exact Hframe]).
  - eexists _, _. split; [reflexivity|]. split; [in_enum|]. by simpl_docs.
Qed.

(** ** The stored leads stay valid *)

Section LeadsValid.

#[global] Instance keepsLeadsValid_preorder : PreOrder keepsLeadsValid.
Proof.
  split.
  - intros p H. exact H.
  - intros p1 p2 p3 H12 H23 H. apply H23, H12, H.
Qed.

#[global] Instance onlyDb_preorder : PreOrder onlyDb.
Proof.
  split.
  - intros p. unfold onlyDb. by destruct p.
  - intros p1 p2 p3 H12 H23. unfold onlyDb in *. rewrite H23, H12. reflexivity.
Qed.

Lemma onlyDb_onDb {A} (m : Async Db A) : preserves onlyDb (CallQueue.onDb m).
Proof. intros p. unfold exec, onlyDb. rewrite onDb_run. reflexivity. Qed.

Lemma wfLeads_save now (l : Lead.t) (c : gmap ObjectId Lead.t) :
  wfLeads c → wfLeads (snd (Lead.save now l c)).
Proof.
  intros Hwf.
  destruct (save_cases now l c) as [[e He]|[[He _]|(He & Hv & _)]];
    rewrite He; simpl; try done.
  apply map_Forall_insert_2; [|done]. split; [done|].
  eapply validateSync_transfer; [exact Hv|by apply validateSync_status|done..].
Qed.

Lemma wfLeads_onLeads_save now (l : Lead.t) (d : Db) :
  wfLeads (leads d) → wfLeads (leads (exec (onLeads (Lead.save now l)) d)).
Proof.
  intros Hwf. pose proof (wfLeads_save now l _ Hwf) as H.
  unfold exec, onLeads, zoom. by destruct (Lead.save now l (leads d)).
Qed.

Lemma wfLeads_reconcileLead now s dur lead (d : Db) :
  wfLeads (leads d) →
  wfLeads (leads (exec (TwilioService.reconcileLead now s dur lead) d)).
Proof.
  intros Hwf. unfold TwilioService.reconcileLead.
  destruct lead as [l|]; [|done].
  repeat case_match; try done.
  rewrite exec_bind.
  pose proof (wfLeads_onLeads_save now (Lead.applyCallStatus now s dur "" l) d Hwf) as Hs.
  unfold exec, Lead.updateCallStatus in *.
  by destruct (onLeads _ d) as [[?|?] ?].
Qed.

Lemma valid_onDb {A} (m : Async Db A) :
  (∀ d, wfLeads (leads d) → wfLeads (leads (exec m d))) →
  preserves keepsLeadsValid (CallQueue.onDb m).
Proof.
  intros H p Hwf. unfold exec. rewrite onDb_run. simpl. by apply H.
Qed.

Lemma valid_save now (l : Lead.t) :
  preserves keepsLeadsValid (CallQueue.onDb (onLeads (Lead.save now l))).
Proof. apply valid_onDb. intros d. apply wfLeads_onLeads_save. Qed.

Lemma valid_untouched {A} (m : Async CallQueue.Process A) :
  (∀ p, leads (CallQueue.db (exec m p)) = leads (CallQueue.db p)) →
  preserves keepsLeadsValid m.
Proof. intros H p Hwf. by rewrite H. Qed.

Lemma onCallLogs_untouched {A} (m : Async (gmap ObjectId CallLog.t) A)
    (p : CallQueue.Process) :
  leads (CallQueue.db (exec (CallQueue.onDb (onCallLogs m)) p)) = leads (CallQueue.db p).
Proof. unfold exec, CallQueue.onDb, onCallLogs, zoom. by destruct (m _). Qed.

Lemma onUsers_untouched {A} (m : Async (gmap ObjectId User.t) A)
    (p : CallQueue.Process) :
  leads (CallQueue.db (exec (CallQueue.onDb (onUsers m)) p)) = leads (CallQueue.db p).
Proof. unfold exec, CallQueue.onDb, onUsers, zoom. by destruct (m _). Qed.

Lemma valid_handleCallFailure env lead cl err :
  preserves keepsLeadsValid (CallQueue.handleCallFailure env lead cl err).
Proof.
  unfold CallQueue.handleCallFailure.
  apply preserves_tryCatch; [apply _| |intros; apply preserves_ret, _].
  apply preserves_bind; [apply _|apply valid_save|]. intros _.
  apply preserves_bind; [apply _| |].
  { destruct cl; [|apply preserves_ret, _].
    apply preserves_bind; [apply _| |intros; apply preserves_ret, _].
    apply valid_untouched, onCallLogs_untouched. }
  intros _. by apply valid_untouched.
Qed.

Lemma valid_makeCall env lead sp :
  preserves keepsLeadsValid (CallQueue.makeCall env lead sp).
Proof.
  unfold CallQueue.makeCall.
  apply preserves_tryCatch; [apply _| |intros; apply valid_handleCallFailure].
  apply preserves_bind; [apply _|apply valid_save|]. intros lead'.
  apply preserves_tryCatch; [apply _| |intros; apply valid_handleCallFailure].
  apply preserves_bind; [apply _| |].
  { apply valid_untouched, onCallLogs_untouched. }
  intros cl.
  destruct (TwilioService.initiateCall _ _ _); [|apply valid_handleCallFailure].
  apply preserves_bind; [apply _| |].
  { apply valid_untouched, onCallLogs_untouched. }
  intros _. by apply valid_untouched.
Qed.

Lemma valid_processQueue env :
  preserves keepsLeadsValid (CallQueue.processQueue env).
Proof.
  unfold CallQueue.processQueue.
  apply preserves_tryCatch; [apply _| |intros; apply preserves_ret, _].
  apply preserves_bind; [apply _|apply preserves_get, _|]. intros p0.
  destruct (_ >=? _); [apply preserves_ret, _|].
  apply preserves_bind; [apply _| |].
  { apply valid_untouched. intros p. unfold exec. by rewrite getNextLeadToCall_run. }
  intros [lead|]; [|apply preserves_ret, _].
  apply preserves_bind; [apply _|apply preserves_get, _|]. intros p1.
  destruct (bool_decide _); [apply preserves_ret, _|].
  apply preserves_bind; [apply _| |].
  { apply valid_untouched. intros p. unfold exec.
    by rewrite findAvailableSalesperson_run. }
  intros [sp|]; [|apply preserves_ret, _].
  apply preserves_bind; [apply _|by apply valid_untouched|]. intros _.
  apply valid_makeCall.
Qed.

Lemma valid_handleCallCompletion now id s :
  preserves keepsLeadsValid (CallQueue.handleCallCompletion now id s).
Proof.
  unfold CallQueue.handleCallCompletion.
  apply preserves_tryCatch; [apply _| |intros; apply preserves_ret, _].
  apply preserves_bind; [apply _| |].
  { apply valid_untouched, onCallLogs_untouched. }
  intros [cl|]; [|apply preserves_ret, _].
  apply preserves_bind; [apply _|by apply valid_untouched|]. intros _.
  apply preserves_bind; [apply _| |].
  { apply valid_untouched. intros p. unfold exec. by rewrite Lead_findById_run. }
  intros lead.
  apply preserves_bind; [apply _| |].
  { apply valid_onDb. intros d. apply wfLeads_reconcileLead. }
  intros _.
  apply preserves_bind; [apply _| |].
  { destruct (CallLog.salesperson cl); [|apply preserves_ret, _].
    apply valid_untouched, onUsers_untouched. }
  intros [sp|]; [|apply preserves_ret, _].
  apply preserves_bind; [apply _| |intros; apply preserves_ret, _].
  apply valid_untouched, onUsers_untouched.
Qed.

Lemma valid_resetStuckLeads now :
  preserves keepsLeadsValid (CallQueue.resetStuckLeads now).
Proof.
  unfold CallQueue.resetStuckLeads.
  apply preserves_tryCatch; [apply _| |intros; apply preserves_ret, _].
  apply preserves_bind; [apply _| |].
  { apply valid_onDb. intros d Hwf. unfold exec, onLeads, zoom. by destruct d. }
  intros ls.
  destruct (0 <? List.length ls)%nat; [|apply preserves_ret, _].
  apply preserves_forEach; [apply _|]. intros l.
  apply preserves_bind; [apply _|apply valid_save|]. intros _. apply preserves_ret, _.
Qed.

Lemma start_db (p : CallQueue.Process) : CallQueue.db (CallQueue.start p) = CallQueue.db p.
Proof. unfold CallQueue.start. by destruct (CallQueue.isRunning _). Qed.

Lemma stop_db (p : CallQueue.Process) : CallQueue.db (CallQueue.stop p) = CallQueue.db p.
Proof.
  unfold CallQueue.stop. destruct (negb _); [done|].
  by destruct (CallQueue.callInterval _).
Qed.

Lemma pause_stop (p : CallQueue.Process) : CallQueue.pause p = CallQueue.stop p.
Proof.
  unfold CallQueue.pause, CallQueue.stop.
  by destruct (CallQueue.isRunning (CallQueue.queue p)).
Qed.

Lemma resume_start (p : CallQueue.Process) : CallQueue.resume p = CallQueue.start p.
Proof.
  unfold CallQueue.resume, CallQueue.start.
  by destruct (CallQueue.isRunning (CallQueue.queue p)).
Qed.

End LeadsValid.

(** X12. Every step of the process other than a write by another client
    keeps the collection of leads keyed by [_id] and valid: whatever the
    dispatcher, a completion or a recovery stores has a [status] and a
    [priority] of the schema and at most five [callAttempts]. *)
Theorem X12_steps_keep_the_leads_valid (a : Step) (p : CallQueue.Process) :
  (∀ d, a ≠ External d) →
  wfLeads (leads (CallQueue.db p)) →
  wfLeads (leads (CallQueue.db (step a p)))
  ∧ ∀ k l, leads (CallQueue.db (step a p)) !! k = Some l →
      Lead._id l = k ∧ Lead.status l ∈ Lead.statusEnum
      ∧ Lead.priority l ∈ Lead.priorityEnum ∧ Lead.callAttempts l <= 5.
Proof.
  intros Hext Hwf.
  assert (wfLeads (leads (CallQueue.db (step a p)))) as Hwf'.
  { destruct a as [| | | |now|env|now id s|now|d]; simpl.
    - by rewrite start_db.
    - by rewrite stop_db.
    - by rewrite pause_stop, stop_db.
    - by rewrite resume_start, start_db.
    - unfold CallQueue.initialize. rewrite start_db.
      by apply valid_resetStuckLeads.
    - by apply valid_processQueue.
    - by apply valid_handleCallCompletion.
    - by apply valid_resetStuckLeads.
    - by destruct (Hext d). }
  split; [done|]. intros k l Hk. destruct (Hwf' k l Hk) as [Hid Hv].
  apply validateSync_inv in Hv. tauto.
Qed.

Lemma X12_steps_keep_the_leads_valid_witness :
  let p' := step (Tick (Fixtures.env 100 "c1" (TwilioService.CallPlaced "CA1")))
              (Fixtures.fresh (mkDb Fixtures.testLeads ∅
                                 {[ "u1" := Fixtures.agent "u1" ]})) in
  wfLeads (leads (CallQueue.db p'))
  ∧ ∀ k l, leads (CallQueue.db p') !! k = Some l →
      Lead._id l = k ∧ Lead.status l ∈ Lead.statusEnum
      ∧ Lead.priority l ∈ Lead.priorityEnum ∧ Lead.callAttempts l <= 5.
Proof.
  apply (X12_steps_keep_the_leads_valid
           (Tick (Fixtures.env 100 "c1" (TwilioService.CallPlaced "CA1")))
           (Fixtures.fresh (mkDb Fixtures.testLeads ∅ {[ "u1" := Fixtures.agent "u1" ]}))).
  - discriminate.
  - apply (bool_decide_unpack _). vm_compute. exact I.
Defined.

(** X13. [pause()] is [stop()] and [resume()] is [start()]: each pair
    leaves the same process behind in every state. None of the four
    touches the database, the working set or the events emitted. *)
Theorem X13_pause_is_stop_and_resume_is_start (p : CallQueue.Process) :
  CallQueue.pause p = CallQueue.stop p
  ∧ CallQueue.resume p = CallQueue.start p
  ∧ CallQueue.db (CallQueue.stop p) = CallQueue.db p
  ∧ CallQueue.db (CallQueue.start p) = CallQueue.db p
  ∧ CallQueue.activeCalls (CallQueue.queue (CallQueue.stop p))
    = CallQueue.activeCalls (CallQueue.queue p)
  ∧ CallQueue.activeCalls (CallQueue.queue (CallQueue.start p))
    = CallQueue.activeCalls (CallQueue.queue p)
  ∧ CallQueue.emitted (CallQueue.stop p) = CallQueue.emitted p
  ∧ CallQueue.emitted (CallQueue.start p) = CallQueue.emitted p.
Proof.
  split; [apply pause_stop|]. split; [apply resume_start|].
  split; [apply stop_db|]. split; [apply start_db|].
  unfold CallQueue.stop, CallQueue.start.
  destruct (CallQueue.isRunning (CallQueue.queue p)); simpl;
    destruct (CallQueue.callInterval (CallQueue.queue p)); done.
Qed.

(** ** Completions *)

Section Completion.

(** The part of [handleCallCompletion] after the entry of the lead has
    left the working set. *)
Local Abbreviation settle now s cl :=
  (lead ← CallQueue.onDb (onLeads (Lead.findById (CallLog.lead cl)));
   CallQueue.onDb (TwilioService.reconcileLead now s 0 lead) ;;
   salesperson ← match CallLog.salesperson cl with
                 | Some id => CallQueue.onDb (onUsers (User.findById id))
                 | None => mret None
                 end;
   match salesperson with
   | Some salesperson =>
       let s1 := User.setTotalCalls (User.totalCalls salesperson + 1) salesperson in
       let s2 := if bool_decide (s%string = "completed")
                 then User.setSuccessfulCalls (User.successfulCalls s1 + 1) s1
                 else s1 in
       CallQueue.onDb (onUsers (User.save s2)) ;; mret tt
   | None => mret tt
   end).

Lemma result_swallow {S} (m : Async S unit) (s : S) :
  result (tryCatch m (fun _ => mret tt)) s = Resolved tt.
Proof. unfold result, tryCatch. by destruct (m s) as [[[]|?] ?]. Qed.

Lemma onlyDb_settle now s cl : preserves onlyDb (settle now s cl).
Proof.
  apply preserves_bind; [apply _|apply onlyDb_onDb|]. intros lead.
  apply preserves_bind; [apply _|apply onlyDb_onDb|]. intros _.
  apply preserves_bind; [apply _| |].
  { destruct (CallLog.salesperson cl); [apply onlyDb_onDb|apply preserves_ret, _]. }
  intros [sp|]; [|apply preserves_ret, _].
  apply preserves_bind; [apply _|apply onlyDb_onDb|]. intros _. apply preserves_ret, _.
Qed.

Lemma handleCallCompletion_exec now id s (p : CallQueue.Process) :
  exec (CallQueue.handleCallCompletion now id s) p
  = match callLogs (CallQueue.db p) !! id with
    | Some cl =>
        exec (settle now s cl)
          (CallQueue.setQueue
             (CallQueue.setActiveCalls
                (delete (CallLog.lead cl) (CallQueue.activeCalls (CallQueue.queue p)))
                (CallQueue.queue p)) p)
    | None => p
    end.
Proof.
  unfold CallQueue.handleCallCompletion.
  rewrite exec_swallow, exec_bind, findById_run.
  destruct (callLogs (CallQueue.db p) !! id) as [cl|]; [|done].
  by rewrite exec_bind, activeCallsDelete_run.
Qed.

(** The users after the counters of the call's agent are updated. *)
Lemma settle_users now s cl (p : CallQueue.Process) :
  keyedUsers (users (CallQueue.db p)) →
  users (CallQueue.db (exec (settle now s cl) p)) = users (CallQueue.db p)
  ∨ ∃ uid u, CallLog.salesperson cl = Some uid
      ∧ users (CallQueue.db p) !! uid = Some u
      ∧ users (CallQueue.db (exec (settle now s cl) p))
        = <[uid := (if bool_decide (s = "completed")
                    then User.setSuccessfulCalls (User.successfulCalls u + 1)
                    else λ x, x)
                     (User.setTotalCalls (User.totalCalls u + 1) u)]>
            (users (CallQueue.db p)).
Proof.
  intros Hkeyed.
  rewrite exec_bind, Lead_findById_run, exec_bind, onDb_run.
  destruct (reconcileLead_callLogs now s 0
              (leads (CallQueue.db p) !! CallLog.lead cl) (CallQueue.db p)) as [_ Hu].
  unfold exec in Hu.
  destruct (TwilioService.reconcileLead now s 0 _ (CallQueue.db p)) as [[[]|e] d2];
    cbn [fst snd] in *; [|left; by simpl_docs].
  rewrite exec_bind.
  destruct (CallLog.salesperson cl) as [uid|]; [|left; by simpl_docs].
  destruct d2 as [ls2 cls2 us2]. cbn [users] in Hu. subst us2.
  rewrite User_findById_run. cbn [CallQueue.db CallQueue.setDb users].
  destruct (users (CallQueue.db p) !! uid) as [u|] eqn:Huid; [|by left].
  pose proof (Hkeyed uid u Huid) as Hid. simpl in Hid.
  right. exists uid, u. split; [done|]. split; [done|].
  rewrite exec_bind, onDb_run. unfold onUsers, zoom, User.save.
  cbn [CallQueue.db CallQueue.setDb users].
  replace (User._id (if bool_decide (s = "completed") then _ else _)) with uid
    by (by destruct (bool_decide (s = "completed"))).
  rewrite Huid. by destruct (bool_decide (s = "completed")).
Qed.

(** A completion reported with a status other than [busy] and [failed]
    leaves every lead as it is. *)
Lemma handleCallCompletion_leads now id (s : string) (p : CallQueue.Process) :
  s ≠ "busy" → s ≠ "failed" →
  leads (CallQueue.db (exec (CallQueue.handleCallCompletion now id s) p))
  = leads (CallQueue.db p).
Proof.
  intros Hb Hf. rewrite handleCallCompletion_exec.
  destruct (callLogs (CallQueue.db p) !! id) as [cl|]; [|done].
  match goal with |- context [exec _ ?q] => set (p1 := q) end.
  change (leads (CallQueue.db p)) with (leads (CallQueue.db p1)).
  rewrite exec_bind, Lead_findById_run, exec_bind, onDb_run.
  pose proof (reconcileLead_leads now s 0 (leads (CallQueue.db p1) !! CallLog.lead cl)
                (CallQueue.db p1) Hb Hf) as Hl.
  unfold exec in Hl.
  destruct (TwilioService.reconcileLead now s 0 _ (CallQueue.db p1)) as [[[]|e] d2];
    cbn [fst snd] in *; [|by simpl_docs].
  rewrite exec_bind.
  destruct (CallLog.salesperson cl) as [uid|]; [|by simpl_docs].
  rewrite User_findById_run.
  destruct (users _ !! uid) as [u|]; [|by simpl_docs].
  rewrite exec_bind, onDb_run. unfold onUsers, zoom.
  destruct (User.save _ _) as [[?|?] ?]; by simpl_docs.
Qed.

End Completion.

(** X14. [handleCallCompletion] never rejects. For a call log that is
    not stored it changes nothing. For a stored one it removes the entry
    of the call's lead from the working set and otherwise writes to the
    database only, where the call logs stay as they are: the rest of the
    queue, the timers and the events emitted are untouched. *)
Theorem X14_completion_frame (now : Date) (id : ObjectId) (s : string)
    (p : CallQueue.Process) :
  result (CallQueue.handleCallCompletion now id s) p = Resolved tt
  ∧ ∃ d', exec (CallQueue.handleCallCompletion now id s) p
          = CallQueue.setDb d'
              match callLogs (CallQueue.db p) !! id with
              | Some cl =>
                  CallQueue.setQueue
                    (CallQueue.setActiveCalls
                       (delete (CallLog.lead cl)
                          (CallQueue.activeCalls (CallQueue.queue p)))
                       (CallQueue.queue p)) p
              | None => p
              end
        ∧ callLogs d' = callLogs (CallQueue.db p)
        ∧ (callLogs (CallQueue.db p) !! id = None → d' = CallQueue.db p).
Proof.
  split.
  { apply result_swallow. }
  exists (CallQueue.db (exec (CallQueue.handleCallCompletion now id s) p)).
  split; [|split].
  - rewrite handleCallCompletion_exec.
    destruct (callLogs (CallQueue.db p) !! id) as [cl|].
    + apply onlyDb_settle.
    + by destruct p.
  - apply handleCallCompletion_db.
  - intros Hnone. by rewrite handleCallCompletion_exec, Hnone.
Qed.

(** X15. Over users keyed by [_id], [handleCallCompletion] either
    leaves the users as they are or stores the agent of the call with
    [totalCalls] incremented, and with [successfulCalls] incremented as
    well exactly when the status is [completed]; no other user is
    written. So counters never decrease, and [successfulCalls] stays at
    most [totalCalls] for every user once it is so. *)
Theorem X15_completion_counts_for_the_agent_only
    (now : Date) (id : ObjectId) (s : string) (p : CallQueue.Process) :
  keyedUsers (users (CallQueue.db p)) →
  let us := users (CallQueue.db p) in
  let us' := users (CallQueue.db (exec (CallQueue.handleCallCompletion now id s) p)) in
  (us' = us
   ∨ ∃ cl uid u, callLogs (CallQueue.db p) !! id = Some cl
       ∧ CallLog.salesperson cl = Some uid
       ∧ us !! uid = Some u
       ∧ us' = <[uid := (if bool_decide (s = "completed")
                         then User.setSuccessfulCalls (User.successfulCalls u + 1)
                         else λ x, x)
                          (User.setTotalCalls (User.totalCalls u + 1) u)]> us)
  ∧ keyedUsers us'
  ∧ (∀ k u, us !! k = Some u →
       ∃ u', us' !! k = Some u'
           ∧ User.totalCalls u <= User.totalCalls u' <= User.totalCalls u + 1
           ∧ User.successfulCalls u <= User.successfulCalls u'
           ∧ User.successfulCalls u' - User.successfulCalls u
             <= User.totalCalls u' - User.totalCalls u)
  ∧ ((∀ k u, us !! k = Some u → User.successfulCalls u <= User.totalCalls u) →
     ∀ k u, us' !! k = Some u → User.successfulCalls u <= User.totalCalls u).
Proof.
  intros Hkeyed us us'.
  assert (us' = us
   ∨ ∃ cl uid u, callLogs (CallQueue.db p) !! id = Some cl
       ∧ CallLog.salesperson cl = Some uid
       ∧ us !! uid = Some u
       ∧ us' = <[uid := (if bool_decide (s = "completed")
                         then User.setSuccessfulCalls (User.successfulCalls u + 1)
                         else λ x, x)
                          (User.setTotalCalls (User.totalCalls u + 1) u)]> us) as Hcases.
  { subst us us'. rewrite handleCallCompletion_exec.
    destruct (callLogs (CallQueue.db p) !! id) as [cl|] eqn:Hcl; [|by left].
    match goal with |- context [exec _ ?q] =>
      destruct (settle_users now s cl q) as [H|(uid & u & Hsp & Hu & H)] end;
      [done|left; exact H|].
    right. exists cl, uid, u. done. }
  split; [exact Hcases|].
  destruct Hcases as [->|(cl & uid & u0 & Hcl & Hsp & Hu0 & ->)].
  { split; [done|]. split; [|auto]. intros k u Hk. exists u. split; [done|]. lia. }
  set (u1 := (if bool_decide (s = "completed")
              then User.setSuccessfulCalls (User.successfulCalls u0 + 1)
              else λ x, x) (User.setTotalCalls (User.totalCalls u0 + 1) u0)).
  assert (User._id u1 = User._id u0
          ∧ User.totalCalls u1 = User.totalCalls u0 + 1
          ∧ User.successfulCalls u0 <= User.successfulCalls u1
            <= User.successfulCalls u0 + 1) as (Hid1 & Ht1 & Hs1).
  { unfold u1. destruct (bool_decide (s = "completed"));
      cbn [User._id User.totalCalls User.successfulCalls User.setTotalCalls
           User.setSuccessfulCalls]; (split; [reflexivity|lia]). }
  split; [|split].
  - apply map_Forall_insert_2; [|done]. simpl. rewrite Hid1. by apply (Hkeyed uid u0).
  - intros k u Hk. destruct (decide (k = uid)) as [->|Hne].
    + exists u1. rewrite lookup_insert_eq. split; [done|].
      assert (u = u0) as -> by congruence. lia.
    + exists u. rewrite lookup_insert_ne by done. split; [done|]. lia.
  - intros Hle k u Hk. destruct (decide (k = uid)) as [->|Hne].
    + rewrite lookup_insert_eq in Hk. injection Hk as <-.
      specialize (Hle uid u0 Hu0). lia.
    + rewrite lookup_insert_ne in Hk by done. by eapply Hle.
Qed.

Lemma X15_completion_counts_for_the_agent_only_witness :
  let us := users (CallQueue.db Fixtures.inFlight) in
  let us' := users (CallQueue.db
               (exec (CallQueue.handleCallCompletion 1000 "c1" "completed")
                  Fixtures.inFlight)) in
  ∃ u', us' !! "u1" = Some u'
      ∧ 0 <= User.totalCalls u' <= 0 + 1
      ∧ 0 <= User.successfulCalls u'
      ∧ User.successfulCalls u' - 0 <= User.totalCalls u' - 0.
Proof.
  intros us us'.
  destruct (X15_completion_counts_for_the_agent_only 1000 "c1" "completed"
              Fixtures.inFlight) as (_ & _ & H & _).
  - apply (bool_decide_unpack _). vm_compute. exact I.
  - apply (H "u1" (Fixtures.agent "u1")). reflexivity.
Defined.

(** X16. A completion reported as [no-answer] for a call whose lead is
    stored updates neither the lead nor the agent: [updateCallStatus]
    assigns the status [no-answer], which the lead schema does not have,
    the save rejects, and the [catch] of [handleCallCompletion] skips the
    update of the agent's counters. Only the entry of the lead leaves the
    working set. *)
Theorem X16_no_answer_completion_updates_nothing
    (now : Date) (id : ObjectId) (p : CallQueue.Process) (cl : CallLog.t) (l : Lead.t) :
  callLogs (CallQueue.db p) !! id = Some cl →
  leads (CallQueue.db p) !! CallLog.lead cl = Some l →
  exec (CallQueue.handleCallCompletion now id "no-answer") p
  = CallQueue.setQueue
      (CallQueue.setActiveCalls
         (delete (CallLog.lead cl) (CallQueue.activeCalls (CallQueue.queue p)))
         (CallQueue.queue p)) p.
Proof.
  intros Hcl Hl. rewrite handleCallCompletion_exec, Hcl.
  rewrite exec_bind, Lead_findById_run. simpl_docs. rewrite Hl.
  rewrite exec_bind, onDb_run.
  replace (TwilioService.reconcileLead now "no-answer" 0 (Some l) _)
    with (@Rejected unit "ValidationError", CallQueue.db p); cycle 1.
  { symmetry. unfold TwilioService.reconcileLead.
    rewrite !bool_decide_eq_false_2 by done.
    rewrite bool_decide_eq_true_2 by in_enum.
    unfold mbind, Async_bind, onLeads, zoom.
    rewrite updateCallStatus_uncounted by apply no_answer_not_in_enum.
    cbn [CallQueue.db CallQueue.setQueue]. by destruct (CallQueue.db p). }
  cbn [fst snd]. by destruct p.
Qed.

Lemma X16_no_answer_completion_updates_nothing_witness :
  exec (CallQueue.handleCallCompletion 1000 "c1" "no-answer") Fixtures.inFlight
  = CallQueue.setQueue
      (CallQueue.setActiveCalls
         (delete "1" (CallQueue.activeCalls (CallQueue.queue Fixtures.inFlight)))
         (CallQueue.queue Fixtures.inFlight)) Fixtures.inFlight.
Proof.
  apply (X16_no_answer_completion_updates_nothing 1000 "c1" Fixtures.inFlight
           Fixtures.callLog Fixtures.callingLead); reflexivity.
Defined.

(** ** The provider's label for an unanswered call *)

(** The status webhook leaves every lead as it is for the provider
    statuses that map to neither [busy] nor [failed]. *)
Lemma webhookStatus_leads now CallSid CallStatus CallDuration (d : Db) :
  CallStatus ∈ ["initiated"; "ringing"; "answered"; "completed"; "no-answer"; "canceled"] →
  leads (exec (Routes.webhookStatus now CallSid CallStatus CallDuration) d) = leads d.
Proof.
  intros Hts.
  unfold exec, Routes.webhookStatus, tryCatch, mbind, Async_bind, onCallLogs at 1, zoom,
    CallLog.findBySid.
  destruct (head _) as [cl|]; [|by simpl_docs].
  pose proof (handleCallStatusUpdate_frame now cl CallStatus (default 0 CallDuration)
                (setCallLogs (callLogs d) d)) as Hframe.
  cbv zeta in Hframe. unfold exec in Hframe.
  destruct (TwilioService.handleCallStatusUpdate _ _ _ _ _) as [[[]|e] d1];
    cbn [fst snd users callLogs leads setCallLogs] in *; by apply Hframe.
Qed.

(** C4. As stated the claim fails on the provider path. The provider,
    the call-log schema and every caller of [updateCallStatus] write the
    outcome of an unanswered call [no-answer]; [updateCallStatus] and the
    lead schema write it [no_answer]. So [updateCallStatus] counts
    [no_answer] and does not count [no-answer], and for [no-answer] its
    save is rejected and the collection stays as it is: the status
    webhook and [handleCallCompletion] leave every lead as it is when the
    outcome is [no-answer]. On the stored call of the sample data the
    webhook for [no-answer] answers 500, records the outcome on the call
    log and leaves the lead with its 0 attempts, where the same webhook
    for [busy] answers 200 and the lead then has 1 attempt. The rest of
    the claim holds: the reconcilers leave the database as it is for
    every status other than [busy], [no-answer] and [failed], so for
    [answered] and [completed], and neither a tick of the dispatcher,
    with a placement that succeeds or fails, nor a stuck-lead reset
    changes any lead's [callAttempts]. *)
Theorem C4_no_answer_from_the_provider_is_not_counted :
  (∀ now d n l,
     Lead.callAttempts (Lead.applyCallStatus now "no_answer" d n l)
     = Lead.callAttempts l + 1
     ∧ Lead.callAttempts (Lead.applyCallStatus now "no-answer" d n l)
       = Lead.callAttempts l)
  ∧ (∀ now d n l (c : gmap ObjectId Lead.t),
       Lead.updateCallStatus now "no-answer" d n l c = (Rejected "ValidationError", c))
  ∧ (∀ now CallSid CallDuration (d : Db),
       leads (exec (Routes.webhookStatus now CallSid "no-answer" CallDuration) d)
       = leads d)
  ∧ (∀ now id p,
       leads (CallQueue.db (exec (CallQueue.handleCallCompletion now id "no-answer") p))
       = leads (CallQueue.db p))
  ∧ (∃ db', Routes.webhookStatus 1000 "CA1" "no-answer" None Fixtures.db
            = (Resolved 500, db')
          ∧ leads db' = leads Fixtures.db
          ∧ attemptsOf (leads db') "1" = Some 0
          ∧ CallLog.status <$> callLogs db' !! "c1" = Some "no-answer")
  ∧ (∃ db', Routes.webhookStatus 1000 "CA1" "busy" None Fixtures.db
            = (Resolved 200, db')
          ∧ attemptsOf (leads db') "1" = Some 1
          ∧ CallLog.status <$> callLogs db' !! "c1" = Some "busy")
  ∧ (∀ now s d lead (db : Db),
       s ∉ ["busy"; "no-answer"; "failed"] →
       exec (TwilioService.reconcileLead now s d lead) db = db)
  ∧ (∀ env p k, wfLeads (leads (CallQueue.db p)) →
       attemptsOf (leads (CallQueue.db (exec (CallQueue.processQueue env) p))) k
       = attemptsOf (leads (CallQueue.db p)) k)
  ∧ (∀ now p k, wfLeads (leads (CallQueue.db p)) →
       attemptsOf (leads (CallQueue.db (exec (CallQueue.resetStuckLeads now) p))) k
       = attemptsOf (leads (CallQueue.db p)) k).
Proof.
  split; [|split; [|split; [|split; [|split; [|split; [|split; [|split]]]]]]].
  - intros now d n l. rewrite !applyCallStatus_callAttempts.
    assert (Lead.countsAsAttempt "no_answer" = true) as -> by (vm_compute; reflexivity).
    assert (Lead.countsAsAttempt "no-answer" = false) as -> by (vm_compute; reflexivity).
    lia.
  - intros now d n l c. apply updateCallStatus_uncounted, no_answer_not_in_enum.
  - intros now sid dur d. apply webhookStatus_leads. in_enum.
  - intros now id p. by apply handleCallCompletion_leads.
  - eexists. split; [vm_compute; reflexivity|]. split; [reflexivity|].
    split; reflexivity.
  - eexists. split; [vm_compute; reflexivity|]. split; reflexivity.
  - intros now s d lead db Hs. unfold exec. by rewrite reconcileLead_other.
  - intros env p k Hwf. by apply processQueue_attempts.
  - intros now p k Hwf. by apply resetStuckLeads_attempts.
Qed.

(** ** Queueing a lead by hand *)

Section Queueing.

Lemma queueTime_bounds (now : Date) (priority : string) :
  now <= CallQueue.queueTime now priority <= now + 10 * 60 * 1000.
Proof. unfold CallQueue.queueTime. repeat case_match; lia. Qed.

End Queueing.

(** X17. [addToQueue] never rejects. For a string that is not the text
    of an ObjectId it resolves to the error of the cast, for an ObjectId
    under which no lead is stored to the error [Lead not found], for a
    stored lead whose status is not [pending] to the error [Lead is not
    in pending status]; in the three cases nothing changes. *)
Theorem X17_addToQueue_refuses_without_change
    (now : Date) (leadId : RequestId) (priority : option string)
    (p : CallQueue.Process) :
  (∃ r p', CallQueue.addToQueue now leadId priority p = (Resolved r, p'))
  ∧ (∀ raw, leadId = NotObjectId raw →
     CallQueue.addToQueue now leadId priority p
     = (Resolved (CallQueue.NotQueued "CastError"), p))
  ∧ (∀ id, leadId = IsObjectId id → leads (CallQueue.db p) !! id = None →
     CallQueue.addToQueue now leadId priority p
     = (Resolved (CallQueue.NotQueued "Lead not found"), p))
  ∧ (∀ id l, leadId = IsObjectId id → leads (CallQueue.db p) !! id = Some l →
     Lead.status l ≠ "pending" →
     CallQueue.addToQueue now leadId priority p
     = (Resolved (CallQueue.NotQueued "Lead is not in pending status"), p)).
Proof.
  split; [|split; [|split]].
  - unfold CallQueue.addToQueue, tryCatch.
    match goal with |- context [match ?m p with _ => _ end] =>
      destruct (m p) as [[r|e] p1] end; eauto.
  - intros raw ->. unfold CallQueue.addToQueue, findByRequest.
    erewrite tryCatch_rejected; [reflexivity|].
    unfold mbind, Async_bind. rewrite onDb_run, onLeads_throw. cbn [fst snd].
    by rewrite process_eta.
  - intros id -> Hnone. unfold CallQueue.addToQueue, findByRequest.
    erewrite tryCatch_rejected; [reflexivity|].
    erewrite bind_resolved; [|apply Lead_findById_run]. by rewrite Hnone.
  - intros id l -> Hl Hst. unfold CallQueue.addToQueue, findByRequest.
    erewrite tryCatch_rejected; [reflexivity|].
    erewrite bind_resolved; [|apply Lead_findById_run]. rewrite Hl.
    by rewrite bool_decide_eq_false_2.
Qed.

(** X18. For a stored valid [pending] lead, [addToQueue] resolves to
    the time the priority label yields ([high], [urgent] and any unknown
    label: now; [normal], also the default: two minutes later; [low]: ten
    minutes later), which is never before now and at most ten minutes
    after it, and stores the lead with that [nextCallTime]. The lead's
    own [priority], its [status] and its [callAttempts] stay; from then
    on the lead is eligible for selection exactly at the times from
    [nextCallTime] on, if it is active. Nothing else changes. *)
Theorem X18_addToQueue_defers_selection
    (now : Date) (leadId : ObjectId) (priority : option string)
    (p : CallQueue.Process) (l : Lead.t) :
  wfLeads (leads (CallQueue.db p)) →
  leads (CallQueue.db p) !! leadId = Some l →
  Lead.status l = "pending" →
  let t := CallQueue.queueTime now (default "normal" priority) in
  now <= t <= now + 10 * 60 * 1000
  ∧ ∃ l', CallQueue.addToQueue now (IsObjectId leadId) priority p
          = (Resolved (CallQueue.Queued t),
             CallQueue.setDb
               (setLeads (<[leadId := l']> (leads (CallQueue.db p))) (CallQueue.db p)) p)
        ∧ Lead.nextCallTime l' = Some t
        ∧ Lead.status l' = "pending"
        ∧ Lead.priority l' = Lead.priority l
        ∧ Lead.callAttempts l' = Lead.callAttempts l
        ∧ ∀ t', Lead.eligible t' l' = Lead.isActive l && (t <=? t').
Proof.
  intros Hwf Hl Hp t. split; [apply queueTime_bounds|].
  destruct (Hwf leadId l Hl) as [Hid Hv].
  set (l1 := Lead.setNextCallTime (Some t) l).
  assert (Lead.validateSync l1 = true) as Hv1.
  { eapply validateSync_transfer; [exact Hv|by apply validateSync_status|done..]. }
  assert (∀ t', Lead.eligible t' l1 = Lead.isActive l && (t <=? t')) as He1.
  { intros t'. unfold Lead.eligible, l1. simpl_docs. rewrite Hp.
    rewrite (bool_decide_eq_true_2 ("pending" = "pending")) by done.
    by destruct (Lead.isActive l). }
  destruct (decide (l = l1)) as [Heq|Hne].
  - exists l1. split; [|by simpl_docs].
    unfold CallQueue.addToQueue, findByRequest.
    erewrite tryCatch_resolved; [reflexivity|].
    erewrite bind_resolved; [|apply Lead_findById_run]. rewrite Hl.
    rewrite bool_decide_eq_true_2 by done. cbn [negb]. cbv beta iota zeta. fold t. fold l1.
    erewrite bind_resolved; cycle 1.
    { rewrite onDb_run. unfold onLeads, zoom, Lead.save.
      rewrite Hv1. change (Lead._id l1) with (Lead._id l). rewrite Hid, Hl.
      rewrite decide_True by done. reflexivity. }
    cbn [fst snd]. rewrite insert_id by (by rewrite <- Heq).
    by destruct p as [[? ? ?] ? ? ? ?].
  - exists (Lead.setUpdatedAt now l1). split; [|by simpl_docs].
    unfold CallQueue.addToQueue, findByRequest.
    erewrite tryCatch_resolved; [reflexivity|].
    erewrite bind_resolved; [|apply Lead_findById_run]. rewrite Hl.
    rewrite bool_decide_eq_true_2 by done. cbn [negb]. cbv beta iota zeta. fold t. fold l1.
    erewrite bind_resolved; cycle 1.
    { rewrite onDb_run. unfold onLeads, zoom.
      rewrite (save_write now l1 l) by (done || (change (Lead._id l1) with (Lead._id l);
                                                  by rewrite Hid)).
      reflexivity. }
    cbn [fst snd]. change (Lead._id l1) with (Lead._id l). rewrite Hid.
    reflexivity.
Qed.

Lemma X18_addToQueue_defers_selection_witness :
  let p := Fixtures.fresh (mkDb Fixtures.testLeads ∅ ∅) in
  let t := CallQueue.queueTime 1000 (default "normal" None) in
  1000 <= t <= 1000 + 10 * 60 * 1000
  ∧ ∃ l', CallQueue.addToQueue 1000 (IsObjectId "3") None p
          = (Resolved (CallQueue.Queued t),
             CallQueue.setDb
               (setLeads (<["3" := l']> (leads (CallQueue.db p))) (CallQueue.db p)) p)
        ∧ Lead.nextCallTime l' = Some t
        ∧ Lead.status l' = "pending"
        ∧ Lead.priority l' = "urgent"
        ∧ Lead.callAttempts l' = 0
        ∧ ∀ t', Lead.eligible t' l' = true && (t <=? t').
Proof.
  intros p.
  apply (X18_addToQueue_defers_selection 1000 "3" None p (Fixtures.lead "3" "urgent" 3)).
  - apply (bool_decide_unpack _). vm_compute. exact I.
  - reflexivity.
  - reflexivity.
Defined.

(** ** Assigning a lead *)

(** X19. [assignToSalesperson] on a stored valid lead stores it with
    status [transferred] and the given agent, its [callAttempts] and its
    [callHistory] untouched; the lead is then eligible for selection at
    no time. *)
Theorem X19_assigned_lead_is_transferred_and_not_selected
    (now : Date) (userId : ObjectId) (l : Lead.t) (c : gmap ObjectId Lead.t) :
  c !! Lead._id l = Some l →
  Lead.validateSync l = true →
  ∃ l', Lead.assignToSalesperson now userId l c
        = (Resolved l', <[Lead._id l := l']> c)
      ∧ Lead.status l' = "transferred"
      ∧ Lead.assignedTo l' = Some userId
      ∧ Lead.callAttempts l' = Lead.callAttempts l
      ∧ Lead.callHistory l' = Lead.callHistory l
      ∧ ∀ t, Lead.eligible t l' = false.
Proof.
  intros Hl Hv.
  set (l1 := Lead.setStatus "transferred" (Lead.setAssignedTo (Some userId) l)).
  assert (Lead.validateSync l1 = true) as Hv1.
  { eapply validateSync_transfer; [exact Hv|in_enum|done..]. }
  unfold Lead.assignToSalesperson. fold l1.
  destruct (decide (l = l1)) as [Heq|Hne].
  - exists l1. split; [|by simpl_docs].
    unfold Lead.save. rewrite Hv1. change (Lead._id l1) with (Lead._id l).
    rewrite Hl, decide_True by done. rewrite insert_id by (by rewrite <- Heq). done.
  - exists (Lead.setUpdatedAt now l1). split; [|by simpl_docs].
    change (Lead._id l) with (Lead._id l1) at 1.
    by apply save_write with (stored := l).
Qed.

Lemma X19_assigned_lead_is_transferred_and_not_selected_witness :
  ∃ l', Lead.assignToSalesperson 1000 "u1" (Fixtures.lead "2" "high" 2) Fixtures.testLeads
        = (Resolved l', <["2" := l']> Fixtures.testLeads)
      ∧ Lead.status l' = "transferred"
      ∧ Lead.assignedTo l' = Some "u1"
      ∧ Lead.callAttempts l' = 0
      ∧ Lead.callHistory l' = []
      ∧ ∀ t, Lead.eligible t l' = false.
Proof.
  apply (X19_assigned_lead_is_transferred_and_not_selected 1000 "u1"
           (Fixtures.lead "2" "high" 2) Fixtures.testLeads); reflexivity.
Defined.

(** ** Phone numbers *)

Section Phones.

Lemma forallb_impl {A} (P Q : A → bool) (l : list A) :
  (∀ x, P x = true → Q x = true) → forallb P l = true → forallb Q l = true.
Proof.
  intros H. induction l as [|a l IH]; simpl; [done|].
  rewrite !andb_true_iff. intros [Ha Hl]. auto.
Qed.

Lemma digit_phoneChar (c : Ascii.ascii) :
  TwilioService.digit c = true → TwilioService.phoneChar c = true.
Proof. intros H. unfold TwilioService.phoneChar. by rewrite H. Qed.

Lemma afterPlus_plus (s : string) : TwilioService.afterPlus (String "+"%char s) = s.
Proof. reflexivity. Qed.

Lemma afterPlus_other (s : string) :
  TwilioService.startsWithPlus s = false → TwilioService.afterPlus s = s.
Proof.
  destruct s as [|c rest]; [done|].
  unfold TwilioService.startsWithPlus, TwilioService.afterPlus. by intros ->.
Qed.

End Phones.

(** X20. The formatting of a phone number before it is handed to the
    provider puts [+] in front unless it is there: the result starts with
    [+], formatting twice is formatting once, and a number passes
    [validatePhoneNumber] after formatting exactly when it did before.
    A phone that matches the pattern of lead creation ([+998] and nine
    digits) passes [validatePhoneNumber] and is handed on unchanged. *)
Theorem X20_phone_formatting_and_validation (s : string) :
  TwilioService.startsWithPlus (TwilioService.formatPhone s) = true
  ∧ TwilioService.formatPhone (TwilioService.formatPhone s) = TwilioService.formatPhone s
  ∧ TwilioService.validatePhoneNumber (TwilioService.formatPhone s)
    = TwilioService.validatePhoneNumber s
  ∧ (Validation.phonePattern s = true →
     TwilioService.validatePhoneNumber s = true ∧ TwilioService.formatPhone s = s).
Proof.
  assert (TwilioService.startsWithPlus (TwilioService.formatPhone s) = true) as Hplus.
  { unfold TwilioService.formatPhone.
    destruct (TwilioService.startsWithPlus s) eqn:Hs; [done|]. reflexivity. }
  split; [done|]. split.
  { unfold TwilioService.formatPhone at 1. by rewrite Hplus. }
  split.
  { unfold TwilioService.formatPhone.
    destruct (TwilioService.startsWithPlus s) eqn:Hs; [done|].
    unfold TwilioService.validatePhoneNumber.
    by rewrite afterPlus_plus, afterPlus_other. }
  intros Hpat. unfold Validation.phonePattern in Hpat.
  destruct s as [|c0 [|c1 [|c2 [|c3 rest]]]]; try done.
  rewrite !andb_true_iff in Hpat.
  destruct Hpat as (((((H0 & H1) & H2) & H3) & _) & Hdigits).
  apply Ascii.eqb_eq in H0, H1, H2, H3. subst c0 c1 c2 c3.
  split; [|reflexivity].
  unfold TwilioService.validatePhoneNumber. rewrite afterPlus_plus.
  cbn [String.eqb negb andb list_ascii_of_string forallb].
  rewrite (digit_phoneChar "9" eq_refl), (digit_phoneChar "8" eq_refl).
  cbn [andb]. revert Hdigits. apply forallb_impl, digit_phoneChar.
Qed.

(** ** The duration of a call *)

Section Duration.

Lemma applyStatus_answered (t : Date) (c : CallLog.t) :
  CallLog.applyStatus t "answered" CallLog.noData c
  = CallLog.setAnswerTime (Some t) (CallLog.setStatus "answered" c).
Proof. reflexivity. Qed.

Lemma applyStatus_completed (t : Date) (ad : CallLog.AdditionalData) (c : CallLog.t) :
  CallLog.applyStatus t "completed" ad c
  = CallLog.applyAdditionalData ad
      (match CallLog.answerTime c with
       | Some a =>
           CallLog.setDuration (Some ((t - a) / 1000))
             (CallLog.setEndTime (Some t) (CallLog.setStatus "completed" c))
       | None => CallLog.setEndTime (Some t) (CallLog.setStatus "completed" c)
       end).
Proof. reflexivity. Qed.

Lemma applyAdditionalData_frame (ad : CallLog.AdditionalData) (c : CallLog.t) :
  CallLog.status (CallLog.applyAdditionalData ad c) = CallLog.status c
  ∧ CallLog.answerTime (CallLog.applyAdditionalData ad c) = CallLog.answerTime c
  ∧ CallLog.endTime (CallLog.applyAdditionalData ad c) = CallLog.endTime c
  ∧ CallLog.duration (CallLog.applyAdditionalData ad c)
    = match CallLog.ad_duration ad with
      | Some v => v
      | None => CallLog.duration c
      end.
Proof.
  unfold CallLog.applyAdditionalData, CallLog.assign.
  destruct ad as [[?|] [?|] [?|] [?|]]; done.
Qed.

End Duration.

(** X21. A call log that is updated to [answered] at one time and to
    [completed] at a later one holds both times and, as its duration, the
    whole seconds between them, unless the update to [completed] passes a
    duration of its own, which then replaces the computed one. A call log
    updated to [completed] without having been answered keeps the
    duration it had. *)
Theorem X21_duration_of_a_completed_call
    (t1 t2 : Date) (ad : CallLog.AdditionalData) (c : CallLog.t) :
  let c1 := CallLog.applyStatus t1 "answered" CallLog.noData c in
  let c2 := CallLog.applyStatus t2 "completed" ad c1 in
  CallLog.status c2 = "completed"
  ∧ CallLog.answerTime c2 = Some t1
  ∧ CallLog.endTime c2 = Some t2
  ∧ CallLog.duration c2
    = match CallLog.ad_duration ad with
      | Some v => v
      | None => Some ((t2 - t1) / 1000)
      end
  ∧ (CallLog.answerTime c = None →
     CallLog.duration (CallLog.applyStatus t2 "completed" CallLog.noData c)
     = CallLog.duration c).
Proof.
  intros c1 c2. subst c1 c2.
  rewrite applyStatus_answered, !applyStatus_completed.
  cbn [CallLog.answerTime CallLog.setAnswerTime CallLog.setStatus].
  destruct (applyAdditionalData_frame ad
              (CallLog.setDuration (Some ((t2 - t1) / 1000))
                 (CallLog.setEndTime (Some t2)
                    (CallLog.setStatus "completed"
                       (CallLog.setAnswerTime (Some t1)
                          (CallLog.setStatus "answered" c))))))
    as (-> & -> & -> & ->).
  split; [reflexivity|]. split; [reflexivity|]. split; [reflexivity|].
  split; [reflexivity|]. intros ->. reflexivity.
Qed.

(** ** The routes *)

Section Returns.

Context {S : Type}.

Lemma returns_ret {A} (Q : A → Prop) (a : A) : Q a → returns (S:=S) Q (mret a).
Proof. intros H s a' s' [= <- _]. done. Qed.

Lemma returns_throw {A} (Q : A → Prop) (e : string) : returns (S:=S) Q (throw e).
Proof. intros s a' s' [=]. Qed.

Lemma returns_bind {A B} (Q : B → Prop) (m : Async S A) (k : A → Async S B) :
  (∀ a, returns Q (k a)) → returns Q (m ≫= k).
Proof.
  intros H s b s'. unfold mbind, Async_bind.
  destruct (m s) as [[a|e] s1]; [apply H|done].
Qed.

(** A handler that answers [c] when its body throws. *)
Lemma answers (Q : Z → Prop) (m : Async S Z) (c : Z) (s : S) :
  returns Q m → Q c →
  ∃ code, tryCatch m (fun _ => mret c) s
          = (Resolved code, exec (tryCatch m (fun _ => mret c)) s)
        ∧ Q code.
Proof.
  intros Hm Hc. unfold exec, tryCatch.
  destruct (m s) as [[a|e] s1] eqn:Hms; eexists; (split; [reflexivity|]);
    [by eapply Hm|done].
Qed.

Lemma rel_bind {A B} (R : relation S) `{!PreOrder R}
    (m : Async S A) (k : A → Async S B) (s : S) :
  R s (exec m s) → (∀ a, preserves R (k a)) → R s (exec (m ≫= k) s).
Proof.
  intros Hm Hk. rewrite exec_bind. unfold exec in Hm.
  destruct (m s) as [[a|e] s1]; [|done]. etrans; [exact Hm|apply Hk].
Qed.

End Returns.

Section Frames.

#[global] Instance routeFrame_preorder : PreOrder routeFrame.
Proof.
  split.
  - intros p. split; [done|]. split; [done|]. reflexivity.
  - intros p1 p2 p3 (Hu1 & Hq1 & Hv1) (Hu2 & Hq2 & Hv2).
    split; [congruence|]. split; [congruence|]. by etrans.
Qed.

#[global] Instance countsNothing_preorder : PreOrder countsNothing.
Proof.
  split.
  - intros p. split; [reflexivity|]. split; [done|]. done.
  - intros p1 p2 p3 (Hf1 & Hd1 & Ha1) (Hf2 & Hd2 & Ha2).
    split; [by etrans|]. split; [congruence|].
    intros Hwf k. destruct Hf1 as (_ & _ & Hv1).
    rewrite Ha2 by (by apply Hv1). by apply Ha1.
Qed.

#[global] Instance sameLeads_preorder : PreOrder sameLeads.
Proof.
  split.
  - intros p. reflexivity.
  - intros p1 p2 p3 H12 H23. unfold sameLeads in *. congruence.
Qed.

Lemma findBySid_run (sid : string) (p : CallQueue.Process) :
  CallQueue.onDb (onCallLogs (CallLog.findBySid sid)) p
  = (Resolved (head (find (fun d => bool_decide (CallLog.twilioCallSid d = Some sid))
                       (callLogs (CallQueue.db p)))), p).
Proof.
  unfold CallQueue.onDb, onCallLogs, zoom, CallLog.findBySid.
  destruct p as [[? ? ?] ? ? ? ?]. done.
Qed.

Lemma head_sid_unknown (sid : string) (coll : gmap ObjectId CallLog.t) :
  (∀ k c, coll !! k = Some c → CallLog.twilioCallSid c ≠ Some sid) →
  head (find (fun d => bool_decide (CallLog.twilioCallSid d = Some sid)) coll) = None.
Proof.
  intros H. pose proof (findBySid_unknown sid coll H) as Hf.
  unfold CallLog.findBySid in Hf. by injection Hf as ->.
Qed.

Lemma firstUser_run (P : User.t → bool) (p : CallQueue.Process) :
  CallQueue.onDb (onUsers (fun c => (Resolved (head (find P c)), c))) p
  = (Resolved (head (find P (users (CallQueue.db p)))), p).
Proof.
  unfold CallQueue.onDb, onUsers, zoom. destruct p as [[? ? ?] ? ? ? ?]. done.
Qed.

Lemma frame_same {A} (m : Async CallQueue.Process A) :
  (∀ p, exec m p = p) → preserves routeFrame m.
Proof. intros H p. rewrite H. reflexivity. Qed.

Lemma frame_onCallLogs {A} (m : Async (gmap ObjectId CallLog.t) A) :
  preserves routeFrame (CallQueue.onDb (onCallLogs m)).
Proof.
  intros p. split; [|split].
  - unfold exec, CallQueue.onDb, onCallLogs, zoom. by destruct (m _).
  - unfold exec, CallQueue.onDb, onCallLogs, zoom. by destruct (m _).
  - apply valid_untouched, onCallLogs_untouched.
Qed.

Lemma frame_save now (l : Lead.t) :
  preserves routeFrame (CallQueue.onDb (onLeads (Lead.save now l))).
Proof.
  intros p. split; [|split].
  - unfold exec, CallQueue.onDb, onLeads, zoom. by destruct (Lead.save _ _ _).
  - unfold exec, CallQueue.onDb, onLeads, zoom. by destruct (Lead.save _ _ _).
  - apply valid_save.
Qed.

Lemma frame_emit (e : string) (id : ObjectId) :
  preserves routeFrame (CallQueue.emitCallUpdate e id).
Proof. intros p. split; [done|]. split; [done|]. by intros H. Qed.

Lemma frame_reconcile now s d lead :
  preserves routeFrame (CallQueue.onDb (TwilioService.reconcileLead now s d lead)).
Proof.
  intros p. split; [|split].
  - unfold exec. rewrite onDb_run. simpl. apply reconcileLead_callLogs.
  - unfold exec. by rewrite onDb_run.
  - apply valid_onDb. intros db. apply wfLeads_reconcileLead.
Qed.

Lemma counts_same {A} (m : Async CallQueue.Process A) :
  (∀ p, exec m p = p) → preserves countsNothing m.
Proof. intros H p. rewrite H. reflexivity. Qed.

Lemma counts_callLog_save now (c : CallLog.t) :
  preserves countsNothing (CallQueue.onDb (onCallLogs (CallLog.save now c))).
Proof.
  intros p. split; [apply frame_onCallLogs|]. split.
  - pose proof (CallLog_save_dom now c (callLogs (CallQueue.db p))) as H.
    unfold exec, CallQueue.onDb, onCallLogs, zoom.
    by destruct (CallLog.save _ _ _).
  - intros _ k. by rewrite onCallLogs_untouched.
Qed.

Lemma counts_emit (e : string) (id : ObjectId) :
  preserves countsNothing (CallQueue.emitCallUpdate e id).
Proof. intros p. split; [apply frame_emit|]. done. Qed.

(** Saving the lead stored under [k] with another status counts
    nothing. *)
Lemma counts_lead_save now (k : ObjectId) (l l' : Lead.t) (p : CallQueue.Process) :
  leads (CallQueue.db p) !! k = Some l →
  Lead._id l' = Lead._id l → Lead.callAttempts l' = Lead.callAttempts l →
  countsNothing p (exec (CallQueue.onDb (onLeads (Lead.save now l'))) p).
Proof.
  intros Hl Hid Hn. split; [apply frame_save|].
  unfold exec. rewrite onDb_run. unfold onLeads, zoom.
  destruct (save_cases now l' (leads (CallQueue.db p)))
    as [[e He]|[[He _]|(He & _ & _)]]; rewrite He; simpl; [done..|].
  split; [done|]. intros Hwf k'. destruct (Hwf k l Hl) as [Hk _].
  unfold attemptsOf. rewrite Hid, Hk.
  destruct (decide (k' = k)) as [->|Hne].
  - rewrite lookup_insert_eq, Hl. simpl. by rewrite Hn.
  - by rewrite lookup_insert_ne.
Qed.

(** The update of the lead's status that the answer webhook and the
    manual status route share. *)
Lemma counts_setStatus {B} now (k : ObjectId) (s : string)
    (rest : unit → Async CallQueue.Process B) :
  (∀ a, preserves countsNothing (rest a)) →
  preserves countsNothing
    (lead ← CallQueue.onDb (onLeads (Lead.findById k));
     match lead with
     | Some lead =>
         CallQueue.onDb (onLeads (Lead.save now (Lead.setStatus s lead))) ;; mret tt
     | None => mret tt
     end ≫= rest).
Proof.
  intros Hrest p. rewrite exec_bind, Lead_findById_run.
  destruct (leads (CallQueue.db p) !! k) as [l|] eqn:Hl.
  - apply rel_bind; [apply _| |done].
    apply rel_bind; [apply _| |intros; apply preserves_ret, _].
    by apply (counts_lead_save now k l).
  - apply rel_bind; [apply _|reflexivity|done].
Qed.

Lemma same_onCallLogs {A} (m : Async (gmap ObjectId CallLog.t) A) :
  preserves sameLeads (CallQueue.onDb (onCallLogs m)).
Proof. intros p. apply onCallLogs_untouched. Qed.

End Frames.

(** X22. The answer webhook never rejects: it answers 200, 404 or 500,
    and 404 without any change when no call log carries the call SID. It
    never writes to the users or to the queue, it creates and deletes no
    call log, and it counts no attempt: over a well-formed collection of
    leads every lead keeps its [callAttempts] and the collection stays
    well-formed. *)
Theorem X22_answer_webhook_counts_nothing
    (now : Date) (CallSid : string) (p : CallQueue.Process) :
  (∃ code, CallsRoutes.webhookAnswer now CallSid p
           = (Resolved code, exec (CallsRoutes.webhookAnswer now CallSid) p)
         ∧ code ∈ [200; 404; 500])
  ∧ countsNothing p (exec (CallsRoutes.webhookAnswer now CallSid) p)
  ∧ ((∀ k c, callLogs (CallQueue.db p) !! k = Some c →
             CallLog.twilioCallSid c ≠ Some CallSid) →
     CallsRoutes.webhookAnswer now CallSid p = (Resolved 404, p)).
Proof.
  split; [|split].
  - apply answers; [|in_enum].
    apply returns_bind. intros [cl|]; [|apply returns_ret; in_enum].
    do 5 (apply returns_bind; intros ?).
    case_match; [apply returns_ret; in_enum|apply returns_throw].
  - revert p. fold (preserves countsNothing (CallsRoutes.webhookAnswer now CallSid)).
    unfold CallsRoutes.webhookAnswer.
    apply preserves_tryCatch; [apply _| |intros; apply preserves_ret, _].
    apply preserves_bind; [apply _| |].
    { apply counts_same. intros p. unfold exec. by rewrite findBySid_run. }
    intros [cl|]; [|apply preserves_ret, _].
    apply preserves_bind; [apply _|apply counts_callLog_save|]. intros _.
    apply counts_setStatus. intros _.
    apply preserves_bind; [apply _|apply counts_emit|]. intros _.
    apply preserves_bind; [apply _| |].
    { destruct (CallLog.salesperson cl); [|apply preserves_ret, _].
      apply counts_same. intros p. unfold exec. by rewrite User_findById_run. }
    intros [sp|]; [apply preserves_ret, _|apply preserves_throw, _].
  - intros Hno. unfold CallsRoutes.webhookAnswer.
    erewrite tryCatch_resolved; [reflexivity|].
    erewrite bind_resolved; [|apply findBySid_run].
    by rewrite head_sid_unknown.
Qed.

Section MoreFrames.

Lemma same_emit (e : string) (id : ObjectId) :
  preserves sameLeads (CallQueue.emitCallUpdate e id).
Proof. intros p. reflexivity. Qed.

Lemma same_same {A} (m : Async CallQueue.Process A) :
  (∀ p, exec m p = p) → preserves sameLeads m.
Proof. intros H p. rewrite H. reflexivity. Qed.

Lemma exec_callLog_findById (id : ObjectId) (p : CallQueue.Process) :
  exec (CallQueue.onDb (onCallLogs (CallLog.findById id))) p = p.
Proof. unfold exec. by rewrite findById_run. Qed.

Lemma exec_lead_findById (id : ObjectId) (p : CallQueue.Process) :
  exec (CallQueue.onDb (onLeads (Lead.findById id))) p = p.
Proof. unfold exec. by rewrite Lead_findById_run. Qed.


Lemma callLog_cast_run (raw : string) (p : CallQueue.Process) :
  CallQueue.onDb (onCallLogs (findByRequest CallLog.findById (NotObjectId raw))) p
  = (Rejected "CastError", p).
Proof.
  unfold findByRequest. rewrite onDb_run, onCallLogs_throw. cbn [fst snd].
  by rewrite process_eta.
Qed.



Lemma exec_callLog_findByRequest (id : RequestId) (p : CallQueue.Process) :
  exec (CallQueue.onDb (onCallLogs (findByRequest CallLog.findById id))) p = p.
Proof.
  destruct id as [id|raw]; [apply exec_callLog_findById|].
  unfold exec. by rewrite callLog_cast_run.
Qed.



Lemma counts_setStatus_only now (k : ObjectId) (s : string) :
  preserves countsNothing
    (lead ← CallQueue.onDb (onLeads (Lead.findById k));
     match lead with
     | Some lead =>
         CallQueue.onDb (onLeads (Lead.save now (Lead.setStatus s lead))) ;; mret tt
     | None => mret tt
     end).
Proof.
  intros p. rewrite exec_bind, Lead_findById_run.
  destruct (leads (CallQueue.db p) !! k) as [l|] eqn:Hl; [|reflexivity].
  apply rel_bind; [apply _| |intros; apply preserves_ret, _].
  by apply (counts_lead_save now k l).
Qed.

End MoreFrames.

(** X23. The manual status route answers 400 without any change when
    the body fails the schema; for a body that passes it answers 500
    without any change when the id of the path is not the text of an
    ObjectId, and 404 without any change when it is one under which no
    call log is stored; it never rejects. Whatever the status, it counts
    no attempt: it never writes to the users or to the queue, it creates
    and deletes no call log, and over a well-formed collection of leads
    every lead keeps its [callAttempts]. For a status other than
    [answered] and [completed] it leaves every lead as it is. A body
    passes the schema only with a [status] of the call-log schema and, if
    it has a [duration], one from 0 to [Number.MAX_SAFE_INTEGER]. *)
Theorem X23_manual_status_route_counts_nothing
    (now : Date) (id : RequestId) (body : Validation.CallStatusBody)
    (p : CallQueue.Process) :
  let p' := exec (CallsRoutes.updateStatus now id body) p in
  (∃ code, CallsRoutes.updateStatus now id body p = (Resolved code, p')
         ∧ code ∈ [200; 400; 404; 500])
  ∧ (Validation.updateCallStatus body = false →
     CallsRoutes.updateStatus now id body p = (Resolved 400, p))
  ∧ (∀ raw, Validation.updateCallStatus body = true → id = NotObjectId raw →
     CallsRoutes.updateStatus now id body p = (Resolved 500, p))
  ∧ (∀ k, Validation.updateCallStatus body = true → id = IsObjectId k →
     callLogs (CallQueue.db p) !! k = None →
     CallsRoutes.updateStatus now id body p = (Resolved 404, p))
  ∧ countsNothing p p'
  ∧ (Validation.status body ≠ Some "answered" →
     Validation.status body ≠ Some "completed" → sameLeads p p')
  ∧ (Validation.updateCallStatus body = true →
     (∃ s, Validation.status body = Some s ∧ s ∈ CallLog.statusEnum)
     ∧ ∀ d, Validation.duration body = Some d →
         0 <= d <= Validation.MAX_SAFE_INTEGER).
Proof.
  intros p'. subst p'. unfold CallsRoutes.updateStatus.
  destruct (Validation.updateCallStatus body) eqn:Hvalid; cbn [negb].
  2: { split; [exists 400; split; [done|in_enum]|].
       split; [done|]. split; [done|]. split; [done|].
       split; [reflexivity|]. split; [reflexivity|done]. }
  assert (∃ s, Validation.status body = Some s) as [s Hs].
  { unfold Validation.updateCallStatus in Hvalid.
    destruct (Validation.status body); [by eexists|done]. }
  rewrite Hs. cbn [default from_option Datatypes.id]. cbv zeta.
  split; [|split; [done|split; [|split; [|split; [|split]]]]].
  - apply answers; [|in_enum].
    apply returns_bind. intros [cl|]; [|apply returns_ret; in_enum].
    do 3 (apply returns_bind; intros ?). apply returns_ret. in_enum.
  - intros raw _ ->.
    erewrite tryCatch_rejected; [reflexivity|].
    erewrite bind_rejected; [reflexivity|apply callLog_cast_run].
  - intros k _ -> Hnone.
    erewrite tryCatch_resolved; [reflexivity|].
    erewrite bind_resolved; [|apply findById_run]. by rewrite Hnone.
  - revert p. match goal with |- ∀ p, countsNothing p (exec ?m p) =>
      fold (preserves countsNothing m) end.
    apply preserves_tryCatch; [apply _| |intros; apply preserves_ret, _].
    apply preserves_bind; [apply _| |].
    { apply counts_same, exec_callLog_findByRequest. }
    intros [cl|]; [|apply preserves_ret, _].
    apply preserves_bind; [apply _|apply counts_callLog_save|]. intros _.
    assert (∀ a : unit, preserves countsNothing
              (CallQueue.emitCallUpdate "call_status_updated" (CallLog.lead cl) ;;
               mret 200)) as Hrest.
    { intros _. apply preserves_bind; [apply _|apply counts_emit|].
      intros _. apply preserves_ret, _. }
    apply preserves_bind; [apply _| |done].
    destruct (bool_decide (s = "answered") || bool_decide (s = "completed"));
      cbv iota.
    + apply (counts_setStatus_only now (CallLog.lead cl)
               (if bool_decide (s = "answered") then "answered" else "transferred")).
    + apply preserves_ret, _.
  - intros Ha Hc.
    revert p. match goal with |- ∀ p, sameLeads p (exec ?m p) =>
      fold (preserves sameLeads m) end.
    rewrite !bool_decide_eq_false_2 by congruence. cbn [orb].
    apply preserves_tryCatch; [apply _| |intros; apply preserves_ret, _].
    apply preserves_bind; [apply _| |].
    { apply same_same, exec_callLog_findByRequest. }
    intros [cl|]; [|apply preserves_ret, _].
    apply preserves_bind; [apply _|apply same_onCallLogs|]. intros _.
    apply preserves_bind; [apply _|apply preserves_ret, _|]. intros _.
    apply preserves_bind; [apply _|apply same_emit|]. intros _.
    apply preserves_ret, _.
  - intros _. unfold Validation.updateCallStatus, Validation.numberMin0 in Hvalid.
    rewrite Hs in Hvalid. rewrite !andb_true_iff in Hvalid.
    destruct Hvalid as [[[[[Hin Hd] _] _] _] _].
    split; [exists s; split; [done|by apply bool_decide_eq_true in Hin]|].
    intros d Hdur. rewrite Hdur in Hd. lia.
Qed.

(** X24. The operator's call update answers 500 without any change when
    the id of the path is not the text of an ObjectId, 404 without any
    change when it is one under which no call log is stored, and 403
    without any change when the call belongs to another operator; it
    never rejects, it never writes to the users or to the queue, and it
    keeps a well-formed collection of leads well-formed. *)
Theorem X24_operator_update_guards
    (now : Date) (callId : RequestId) (userId : ObjectId) (status : string)
    (notes : option string) (duration : option Z) (p : CallQueue.Process) :
  let run := OperatorRoutes.updateCall now callId userId status notes duration in
  (∃ code, run p = (Resolved code, exec run p) ∧ code ∈ [200; 403; 404; 500])
  ∧ (∀ raw, callId = NotObjectId raw → run p = (Resolved 500, p))
  ∧ (∀ id, callId = IsObjectId id → callLogs (CallQueue.db p) !! id = None →
       run p = (Resolved 404, p))
  ∧ (∀ id cl owner, callId = IsObjectId id →
       callLogs (CallQueue.db p) !! id = Some cl →
       CallLog.salesperson cl = Some owner → owner ≠ userId →
       run p = (Resolved 403, p))
  ∧ routeFrame p (exec run p).
Proof.
  intros run. subst run. unfold OperatorRoutes.updateCall.
  split; [|split; [|split; [|split]]].
  - apply answers; [|in_enum].
    apply returns_bind. intros [cl|]; [|apply returns_ret; in_enum].
    destruct (CallLog.salesperson cl); [|apply returns_throw].
    case_match; [apply returns_ret; in_enum|].
    do 4 (apply returns_bind; intros ?). apply returns_ret. in_enum.
  - intros raw ->.
    erewrite tryCatch_rejected; [reflexivity|].
    erewrite bind_rejected; [reflexivity|apply callLog_cast_run].
  - intros id -> Hnone.
    erewrite tryCatch_resolved; [reflexivity|].
    erewrite bind_resolved; [|apply findById_run]. by rewrite Hnone.
  - intros id cl owner -> Hcl Hsp Hne.
    erewrite tryCatch_resolved; [reflexivity|].
    erewrite bind_resolved; [|apply findById_run]. rewrite Hcl, Hsp.
    by rewrite bool_decide_eq_false_2.
  - revert p. match goal with |- ∀ p, routeFrame p (exec ?m p) =>
      fold (preserves routeFrame m) end.
    apply preserves_tryCatch; [apply _| |intros; apply preserves_ret, _].
    apply preserves_bind; [apply _| |].
    { apply frame_same, exec_callLog_findByRequest. }
    intros [cl|]; [|apply preserves_ret, _].
    destruct (CallLog.salesperson cl); [|apply preserves_throw, _].
    case_match; [apply preserves_ret, _|].
    apply preserves_bind; [apply _|apply frame_onCallLogs|]. intros _.
    apply preserves_bind; [apply _| |].
    { apply frame_same, exec_lead_findById. }
    intros lead.
    apply preserves_bind; [apply _|apply frame_reconcile|]. intros _.
    apply preserves_bind; [apply _|apply frame_emit|]. intros _.
    apply preserves_ret, _.
Qed.

Lemma X24_operator_update_guards_witness :
  OperatorRoutes.updateCall 1000 (IsObjectId "c1") "u2" "busy" None None Fixtures.inFlight
  = (Resolved 403, Fixtures.inFlight).
Proof.
  destruct (X24_operator_update_guards 1000 (IsObjectId "c1") "u2" "busy" None None
              Fixtures.inFlight) as (_ & _ & _ & H & _).
  apply (H "c1" Fixtures.callLog "u1"); [reflexivity|reflexivity|reflexivity|discriminate].
Defined.



(** X26. When [TWILIO_PHONE_NUMBER] is not set, the call-initiation
    route, for a stored valid active lead that is not in [calling] and
    with an available agent, answers 500 and leaves the lead stored in
    [calling], assigned to the agent: the call log fails validation after
    the lead is saved, and the [catch] of the route reverts nothing. No
    call log is stored. The lead is then eligible for selection at no
    time, and it is stuck for recovery from five minutes later on. *)
Theorem X26_initiate_route_reverts_nothing_on_exception
    (env : CallQueue.Env) (leadId : ObjectId) (p : CallQueue.Process)
    (l : Lead.t) (sp : User.t) :
  leads (CallQueue.db p) !! leadId = Some l →
  Lead._id l = leadId →
  Lead.validateSync l = true →
  Lead.isActive l = true →
  Lead.status l ≠ "calling" →
  head (find User.available (users (CallQueue.db p))) = Some sp →
  CallLog.required (CallQueue.TWILIO_PHONE_NUMBER env) = false →
  let l' := Lead.setUpdatedAt (CallQueue.now env)
              (Lead.setAssignedTo (Some (User._id sp)) (Lead.setStatus "calling" l)) in
  CallsRoutes.initiate env (IsObjectId leadId) None p
  = (Resolved 500,
     CallQueue.setDb
       (setLeads (<[leadId := l']> (leads (CallQueue.db p))) (CallQueue.db p)) p)
  ∧ (∀ t, Lead.eligible t l' = false)
  ∧ (∀ t, CallQueue.stuck t l' = true ↔ CallQueue.now env + 5 * 60 * 1000 < t).
Proof.
  intros Hl Hid Hv Hact Hst Hsp Hfrom l'. subst leadId. split; [|split].
  - unfold CallsRoutes.initiate, findByRequest.
    erewrite tryCatch_rejected; cycle 1.
    { erewrite bind_resolved; [|apply Lead_findById_run]. rewrite Hl, Hact.
      rewrite bool_decide_eq_false_2 by done. cbn [negb TwilioService.falsy].
      erewrite bind_resolved; [|apply firstUser_run]. rewrite Hsp.
      erewrite bind_resolved; cycle 1.
      { on_db. eapply save_write; [|exact Hl|].
        - eapply validateSync_transfer; [exact Hv|in_enum|done..].
        - intros Heq. apply (f_equal Lead.status) in Heq. by simpl_docs. }
      erewrite bind_rejected; [reflexivity|].
      on_db. unfold CallLog.insert.
      replace (CallLog.validateSync _) with false; [reflexivity|].
      unfold CallLog.validateSync, CallLog.new. simpl_docs. rewrite Hfrom.
      by rewrite andb_false_r. }
    simpl_docs. by destruct p as [[? ? ?] ? ? ? ?].
  - intros t. reflexivity.
  - intros t. unfold CallQueue.stuck, l'. simpl_docs.
    rewrite bool_decide_eq_true_2 by done. cbn [andb]. rewrite Z.ltb_lt. lia.
Qed.

Lemma X26_initiate_route_reverts_nothing_on_exception_witness :
  let env := CallQueue.mkEnv 100 "c1" None (TwilioService.CallPlaced "CA1") in
  let l' := Lead.setUpdatedAt 100
              (Lead.setAssignedTo (Some "u1")
                 (Lead.setStatus "calling" (Fixtures.lead "1" "medium" 1))) in
  CallsRoutes.initiate env (IsObjectId "1") None Fixtures.dialing
  = (Resolved 500,
     CallQueue.setDb
       (setLeads (<["1" := l']> (leads (CallQueue.db Fixtures.dialing)))
          (CallQueue.db Fixtures.dialing)) Fixtures.dialing)
  ∧ (∀ t, Lead.eligible t l' = false)
  ∧ (∀ t, CallQueue.stuck t l' = true ↔ 100 + 5 * 60 * 1000 < t).
Proof.
  intros env.
  apply (X26_initiate_route_reverts_nothing_on_exception env "1" Fixtures.dialing
           (Fixtures.lead "1" "medium" 1) (Fixtures.agent "u1"));
    try reflexivity.
  discriminate.
Defined.

(** ** The working set as the queue reports it *)

(** X27. [getActiveCalls] reports one row for each entry of the working
    set, as many as [getStatus] counts: the rows carry pairwise distinct
    leads, and a row is reported exactly when the working set holds an
    entry for its lead with its agent and its start time, the duration
    being the time elapsed since then. *)
Theorem X27_getActiveCalls_reports_the_working_set
    (now : Date) (p : CallQueue.Process) :
  List.length (CallQueue.getActiveCalls now p)
  = CallQueue.st_activeCalls (CallQueue.getStatus p)
  ∧ NoDup (CallQueue.row_leadId <$> CallQueue.getActiveCalls now p)
  ∧ ∀ row, row ∈ CallQueue.getActiveCalls now p ↔
      ∃ a, CallQueue.activeCalls (CallQueue.queue p) !! CallQueue.row_leadId row = Some a
         ∧ row = CallQueue.mkRow (CallQueue.row_leadId row) (CallQueue.salespersonId a)
                   (CallQueue.startTime a) (now - CallQueue.startTime a).
Proof.
  unfold CallQueue.getActiveCalls, CallQueue.getStatus. simpl.
  split; [|split].
  - by rewrite length_fmap, length_map_to_list.
  - rewrite <- list_fmap_compose.
    erewrite list_fmap_ext; [apply NoDup_fst_map_to_list|].
    by intros i [k a] _.
  - intros row. rewrite list_elem_of_fmap. split.
    + intros ([k a] & -> & Hin). apply elem_of_map_to_list in Hin.
      exists a. by split.
    + intros (a & Ha & Hrow). exists (CallQueue.row_leadId row, a).
      split; [done|]. by apply elem_of_map_to_list.
Qed.

(** ** The control of the queue by the administrator *)

Section Control.

Lemma stop_frame (p : CallQueue.Process) :
  CallQueue.activeCalls (CallQueue.queue (CallQueue.stop p))
  = CallQueue.activeCalls (CallQueue.queue p)
  ∧ CallQueue.maxConcurrentCalls (CallQueue.queue (CallQueue.stop p))
    = CallQueue.maxConcurrentCalls (CallQueue.queue p)
  ∧ CallQueue.emitted (CallQueue.stop p) = CallQueue.emitted p.
Proof.
  unfold CallQueue.stop.
  destruct (CallQueue.isRunning (CallQueue.queue p)); simpl; [|done].
  by destruct (CallQueue.callInterval (CallQueue.queue p)).
Qed.

Lemma start_frame (p : CallQueue.Process) :
  CallQueue.activeCalls (CallQueue.queue (CallQueue.start p))
  = CallQueue.activeCalls (CallQueue.queue p)
  ∧ CallQueue.maxConcurrentCalls (CallQueue.queue (CallQueue.start p))
    = CallQueue.maxConcurrentCalls (CallQueue.queue p)
  ∧ CallQueue.emitted (CallQueue.start p) = CallQueue.emitted p.
Proof.
  unfold CallQueue.start.
  by destruct (CallQueue.isRunning (CallQueue.queue p)).
Qed.

Lemma onlyDb_resetStuckLeads now : preserves onlyDb (CallQueue.resetStuckLeads now).
Proof.
  unfold CallQueue.resetStuckLeads.
  apply preserves_tryCatch; [apply _| |intros; apply preserves_ret, _].
  apply preserves_bind; [apply _|apply onlyDb_onDb|]. intros ls.
  destruct (0 <? List.length ls)%nat; [|apply preserves_ret, _].
  apply preserves_forEach; [apply _|]. intros l.
  apply preserves_bind; [apply _|apply onlyDb_onDb|]. intros _. apply preserves_ret, _.
Qed.

Lemma frame_resetStuckLeads now : preserves routeFrame (CallQueue.resetStuckLeads now).
Proof.
  unfold CallQueue.resetStuckLeads.
  apply preserves_tryCatch; [apply _| |intros; apply preserves_ret, _].
  apply preserves_bind; [apply _| |].
  { apply frame_same. intros p. unfold exec, CallQueue.onDb, onLeads, zoom.
    by destruct p as [[? ? ?] ? ? ? ?]. }
  intros ls.
  destruct (0 <? List.length ls)%nat; [|apply preserves_ret, _].
  apply preserves_forEach; [apply _|]. intros l.
  apply preserves_bind; [apply _|apply frame_save|]. intros _. apply preserves_ret, _.
Qed.

Lemma resetStuckLeads_resolves now (p : CallQueue.Process) :
  CallQueue.resetStuckLeads now p
  = (Resolved tt, exec (CallQueue.resetStuckLeads now) p).
Proof.
  pose proof (result_swallow
                (stuckLeads ← CallQueue.onDb (onLeads (fun c =>
                    (Resolved (find (CallQueue.stuck now) c), c)));
                 if (0 <? List.length stuckLeads)%nat then
                   forEach stuckLeads (fun lead =>
                     CallQueue.onDb (onLeads (Lead.save now
                       (Lead.setAssignedTo None (Lead.setStatus "pending" lead)))) ;;
                     mret tt)
                 else mret tt) p) as H.
  fold (CallQueue.resetStuckLeads now) in H. unfold result, exec in *.
  destruct (CallQueue.resetStuckLeads now p). simpl in *. by subst.
Qed.

End Control.

(** X28. The system-control route never rejects and answers 200 or 400.
    No action changes the working set, the cap, the users or the events
    emitted, and every action keeps a well-formed collection of leads
    well-formed; an action other than [pause_queue], [resume_queue] and
    [reset_stuck_leads] changes nothing at all. *)
Theorem X28_system_control_frame
    (now : Date) (action : option string) (p : CallQueue.Process) :
  let p' := exec (AdminRoutes.systemControl now action) p in
  (∃ code, AdminRoutes.systemControl now action p = (Resolved code, p')
         ∧ code ∈ [200; 400])
  ∧ CallQueue.activeCalls (CallQueue.queue p') = CallQueue.activeCalls (CallQueue.queue p)
  ∧ CallQueue.maxConcurrentCalls (CallQueue.queue p')
    = CallQueue.maxConcurrentCalls (CallQueue.queue p)
  ∧ users (CallQueue.db p') = users (CallQueue.db p)
  ∧ CallQueue.emitted p' = CallQueue.emitted p
  ∧ keepsLeadsValid p p'
  ∧ (action ≠ Some "pause_queue" → action ≠ Some "resume_queue" →
     action ≠ Some "reset_stuck_leads" → p' = p).
Proof.
  intros p'. subst p'. unfold AdminRoutes.systemControl.
  assert (∀ (c : Z) (q : CallQueue.Process), c ∈ [200; 400] →
            (∃ code, (Resolved c, q) = (@Resolved Z code, q) ∧ code ∈ [200; 400])
            ∧ CallQueue.activeCalls (CallQueue.queue q)
              = CallQueue.activeCalls (CallQueue.queue q)
            ∧ CallQueue.maxConcurrentCalls (CallQueue.queue q)
              = CallQueue.maxConcurrentCalls (CallQueue.queue q)
            ∧ users (CallQueue.db q) = users (CallQueue.db q)
            ∧ CallQueue.emitted q = CallQueue.emitted q
            ∧ keepsLeadsValid q q
            ∧ (action ≠ Some "pause_queue" → action ≠ Some "resume_queue" →
               action ≠ Some "reset_stuck_leads" → q = q)) as Hsame.
  { intros c q Hc. split; [by exists c|]. do 4 (split; [reflexivity|]).
    split; [intros Hq; exact Hq|]. intros _ _ _. reflexivity. }
  destruct action as [a|]; cbn [TwilioService.falsy default from_option Datatypes.id];
    [|apply (Hsame 400 p); in_enum].
  case_bool_decide as Hempty; [apply (Hsame 400 p); in_enum|].
  clear Hsame. cbv zeta.
  case_bool_decide as Hpause.
  { destruct (stop_frame p) as (Hact & Hcap & Hem).
    assert (tryCatch (modify CallQueue.pause ;; mret 200) (fun _ => mret 500) p
            = (Resolved 200, CallQueue.stop p)) as Hrun
      by (by rewrite <- pause_stop).
    unfold exec. rewrite Hrun. cbn [snd].
    split; [exists 200; split; [done|in_enum]|].
    rewrite Hact, Hcap, Hem, stop_db.
    do 4 (split; [reflexivity|]).
    split; [intros Hwf; by rewrite stop_db|]. congruence. }
  case_bool_decide as Hresume.
  { destruct (start_frame p) as (Hact & Hcap & Hem).
    assert (tryCatch (modify CallQueue.resume ;; mret 200) (fun _ => mret 500) p
            = (Resolved 200, CallQueue.start p)) as Hrun
      by (by rewrite <- resume_start).
    unfold exec. rewrite Hrun. cbn [snd].
    split; [exists 200; split; [done|in_enum]|].
    rewrite Hact, Hcap, Hem, start_db.
    do 4 (split; [reflexivity|]).
    split; [intros Hwf; by rewrite start_db|]. congruence. }
  case_bool_decide as Hreset.
  { pose proof (onlyDb_resetStuckLeads now p) as Honly.
    destruct (frame_resetStuckLeads now p) as (Hu & Hq & Hv).
    assert (tryCatch (CallQueue.resetStuckLeads now ;; mret 200) (fun _ => mret 500) p
            = (Resolved 200, exec (CallQueue.resetStuckLeads now) p)) as Hrun.
    { erewrite tryCatch_resolved; [reflexivity|].
      erewrite bind_resolved; [|apply resetStuckLeads_resolves]. reflexivity. }
    rewrite Hrun.
    assert (exec (tryCatch (CallQueue.resetStuckLeads now ;; mret 200)
                    (fun _ => mret 500)) p
            = exec (CallQueue.resetStuckLeads now) p) as ->
      by (unfold exec at 1; by rewrite Hrun).
    split; [exists 200; split; [done|in_enum]|].
    rewrite Hq, Hu. do 3 (split; [reflexivity|]).
    split; [unfold onlyDb in Honly; by rewrite Honly|].
    split; [exact Hv|]. congruence. }
  case_bool_decide.
  - split; [exists 200; split; [reflexivity|in_enum]|].
    do 4 (split; [reflexivity|]). split; [intros Hwf; exact Hwf|]. reflexivity.
  - split; [exists 400; split; [reflexivity|in_enum]|].
    do 4 (split; [reflexivity|]). split; [intros Hwf; exact Hwf|]. reflexivity.
Qed.

(** ** The start of the process *)

(** X29. After [initialize()] over a well-formed collection of leads
    the queue is running, no lead is stuck, the collection is still
    well-formed, and the working set, the call logs and the users are as
    before. *)
Theorem X29_initialize_recovers_and_starts (now : Date) (p : CallQueue.Process) :
  wfLeads (leads (CallQueue.db p)) →
  let p' := CallQueue.initialize now p in
  CallQueue.isRunning (CallQueue.queue p') = true
  ∧ (∀ k l, leads (CallQueue.db p') !! k = Some l → CallQueue.stuck now l = false)
  ∧ wfLeads (leads (CallQueue.db p'))
  ∧ CallQueue.activeCalls (CallQueue.queue p') = CallQueue.activeCalls (CallQueue.queue p)
  ∧ callLogs (CallQueue.db p') = callLogs (CallQueue.db p)
  ∧ users (CallQueue.db p') = users (CallQueue.db p).
Proof.
  intros Hwf p'. subst p'. unfold CallQueue.initialize.
  destruct (resetStuckLeads_settled now p Hwf) as (c' & -> & Hwf' & Hnone).
  destruct (start_frame (CallQueue.setDb (setLeads c' (CallQueue.db p)) p))
    as (Hact & _ & _).
  rewrite start_db, Hact. simpl_docs.
  split; [|done].
  unfold CallQueue.start. simpl_docs.
  by destruct (CallQueue.isRunning (CallQueue.queue p)) eqn:Hrun.
Qed.

Lemma X29_initialize_recovers_and_starts_witness :
  let now := 10 + 6 * 60 * 1000 in
  let p' := CallQueue.initialize now Fixtures.inFlight in
  CallQueue.isRunning (CallQueue.queue p') = true
  ∧ (∀ k l, leads (CallQueue.db p') !! k = Some l → CallQueue.stuck now l = false)
  ∧ wfLeads (leads (CallQueue.db p'))
  ∧ CallQueue.activeCalls (CallQueue.queue p')
    = CallQueue.activeCalls (CallQueue.queue Fixtures.inFlight)
  ∧ callLogs (CallQueue.db p') = callLogs (CallQueue.db Fixtures.inFlight)
  ∧ users (CallQueue.db p') = users (CallQueue.db Fixtures.inFlight).
Proof.
  intros now.
  apply (X29_initialize_recovers_and_starts now Fixtures.inFlight).
  apply (bool_decide_unpack _). vm_compute. exact I.
Defined.
